(** * plex_tools: the autorenamer (plex_arenamer 1.7.8)

    A shallow embedding of the filename identity resolution and rename
    decision code of [plex_arenamer1.7.8.py], and the properties of it
    that the specification states.

    Modelling conventions.
    - A Python [str] is a [list ascii]; the development covers 7-bit
      ASCII text, where [\d], [\s], [\b], [str.lower], [str.strip] and
      [str.split] are given by the tables below.
    - Paths follow [posixpath].
    - The regular expressions of the program are terms of [Re.re]; the
      matcher is a backtracking matcher in the priority order of
      Python's [re] module.
    - The similarity score is the exact rational [200 * matches / length]
      that [difflib.SequenceMatcher.ratio() * 100] rounds to a float. *)

From Stdlib Require Import Ascii String List Bool Arith ZArith QArith Lia.
From Stdlib Require Import DecimalString.
From stdpp Require Import base option list gmap strings.
Import ListNotations.

Local Open Scope list_scope.
Local Open Scope bool_scope.

(** ** Python strings *)

Module Py.

Abbreviation str := (list ascii).

Definition chars (s : string) : str := list_ascii_of_string s.

Definition code (c : ascii) : nat := nat_of_ascii c.

Definition in_range (lo hi : nat) (c : ascii) : bool :=
  (lo <=? code c)%nat && (code c <=? hi)%nat.

Definition is_digit (c : ascii) : bool := in_range 48 57 c.
Definition is_upper (c : ascii) : bool := in_range 65 90 c.
Definition is_lower (c : ascii) : bool := in_range 97 122 c.

(** [\w] on ASCII: letters, digits and the underscore. *)
Definition is_word (c : ascii) : bool :=
  is_digit c || is_upper c || is_lower c || (code c =? 95)%nat.

(** [str.isspace] on ASCII: TAB, LF, VT, FF, CR, FS, GS, RS, US, SPACE. *)
Definition is_space (c : ascii) : bool :=
  in_range 9 13 c || in_range 28 32 c.

Definition lower_char (c : ascii) : ascii :=
  if is_upper c then ascii_of_nat (code c + 32) else c.

(** [s.lower()] *)
Definition lower (s : str) : str := map lower_char s.

Definition str_eqb (a b : str) : bool := bool_decide (a = b).

(** [s.lstrip()], [s.rstrip()], [s.strip()] *)
Fixpoint lstrip (s : str) : str :=
  match s with
  | c :: s' => if is_space c then lstrip s' else s
  | [] => []
  end.

Definition rstrip (s : str) : str := rev (lstrip (rev s)).

Definition strip (s : str) : str := rstrip (lstrip s).

(** [s.split()]: the maximal runs of non-whitespace characters.
    [cur] is the word being read, reversed. *)
Fixpoint split_go (cur : str) (s : str) : list str :=
  match s with
  | [] => match cur with [] => [] | _ => [rev cur] end
  | c :: s' =>
      if is_space c
      then match cur with
           | [] => split_go [] s'
           | _ => rev cur :: split_go [] s'
           end
      else split_go (c :: cur) s'
  end.

Definition split (s : str) : list str := split_go [] s.

(** [s.isdigit()] on ASCII text *)
Definition isdigit (s : str) : bool :=
  match s with
  | [] => false
  | _ => forallb is_digit s
  end.

(** [int(s)] for a string of decimal digits *)
Definition int_of_digits (s : str) : Z :=
  fold_left (fun acc c => (10 * acc + Z.of_nat (code c - 48))%Z) s 0%Z.

(** [str(n)] for a natural number *)
Definition str_of_nat (n : nat) : str :=
  chars (NilEmpty.string_of_uint (Nat.to_uint n)).

(** [prefix in s] at the head: [s.startswith(prefix)] *)
Fixpoint startswith (p s : str) : bool :=
  match p, s with
  | [], _ => true
  | a :: p', b :: s' => Ascii.eqb a b && startswith p' s'
  | _ :: _, [] => false
  end.

(** [needle in s] *)
Fixpoint contains (needle s : str) : bool :=
  startswith needle s ||
  match s with
  | [] => false
  | _ :: s' => contains needle s'
  end.

(** [s.replace(old, new)] for a non-empty [old]: non-overlapping
    occurrences, left to right.  [skip] counts the characters of an
    occurrence still to be dropped. *)
Fixpoint replace_go (old new : str) (skip : nat) (s : str) : str :=
  match s with
  | [] => []
  | c :: s' =>
      match skip with
      | S k => replace_go old new k s'
      | O =>
          if startswith old s
          then new ++ replace_go old new (length old - 1) s'
          else c :: replace_go old new 0 s'
      end
  end.

Definition replace (old new s : str) : str := replace_go old new 0 s.

(** Python truthiness of an optional integer: [None] and [0] are false. *)
Definition truthy (x : option Z) : bool :=
  match x with
  | Some v => negb (v =? 0)%Z
  | None => false
  end.

End Py.

(** ** Regular expressions: the fragment of Python's [re] the program uses *)

Module Re.
Import Py.

(** One-character patterns. *)
Inductive atom : Type :=
| Lit (c : ascii)            (* a literal (escaped where needed) *)
| AnyChar                    (* .   any character but a newline *)
| Digit                      (* \d *)
| Space                      (* \s *)
| OneOf (cs : list ascii).   (* [...] *)

Inductive re : Type :=
| Eps
| One (a : atom)
| Star (a : atom)            (* a*   greedy *)
| LazyStar (a : atom)        (* a*?  non-greedy *)
| Plus (a : atom)            (* a+   greedy *)
| Times (n : nat) (a : atom) (* a{n} *)
| Cat (r1 r2 : re)
| Alt (r1 r2 : re)           (* r1|r2 *)
| Group (n : nat) (r : re)   (* capturing group number n *)
| WordB                      (* \b *)
| NotAfter (c : ascii)       (* (?<!c) *)
| NotBefore (c : ascii).     (* (?!c) *)

(** A position of the matcher in the subject string: the characters
    already passed (nearest first), the characters still ahead, and
    the groups captured so far. *)
Record mstate : Type := MState {
  before : str;
  ahead : str;
  groups : list (nat * str)
}.

Definition atom_ok (icase : bool) (a : atom) (x : ascii) : bool :=
  match a with
  | Lit c => if icase then Ascii.eqb (lower_char c) (lower_char x)
             else Ascii.eqb c x
  | AnyChar => negb (Ascii.eqb x "010"%char)
  | Digit => is_digit x
  | Space => is_space x
  | OneOf cs => existsb (Ascii.eqb x) cs
  end.

Definition opt_word (o : option ascii) : bool :=
  match o with Some c => is_word c | None => false end.

(** [\b]: exactly one side of the position is a word character. *)
Definition at_boundary (st : mstate) : bool :=
  xorb (opt_word (head (before st))) (opt_word (head (ahead st))).

Definition step (icase : bool) (a : atom) (st : mstate) : option mstate :=
  match ahead st with
  | x :: xs =>
      if atom_ok icase a x
      then Some (MState (x :: before st) xs (groups st))
      else None
  | [] => None
  end.

(** All the ways to match [a*] from a position, longest first. *)
Fixpoint star_greedy (icase : bool) (a : atom) (bef ahd : str)
    (gs : list (nat * str)) : list mstate :=
  match ahd with
  | x :: xs =>
      if atom_ok icase a x
      then star_greedy icase a (x :: bef) xs gs ++ [MState bef ahd gs]
      else [MState bef ahd gs]
  | [] => [MState bef ahd gs]
  end.

(** All the ways to match [a*?] from a position, shortest first. *)
Fixpoint star_lazy (icase : bool) (a : atom) (bef ahd : str)
    (gs : list (nat * str)) : list mstate :=
  MState bef ahd gs ::
  match ahd with
  | x :: xs =>
      if atom_ok icase a x
      then star_lazy icase a (x :: bef) xs gs
      else []
  | [] => []
  end.

Fixpoint times (icase : bool) (a : atom) (n : nat) (st : mstate)
    : list mstate :=
  match n with
  | O => [st]
  | S k => match step icase a st with
           | Some st' => times icase a k st'
           | None => []
           end
  end.

(** The text consumed between two positions of one scan. *)
Definition consumed (st st' : mstate) : str :=
  take (length (ahead st) - length (ahead st')) (ahead st).

Definition set_group (n : nat) (st st' : mstate) : mstate :=
  MState (before st') (ahead st') ((n, consumed st st') :: groups st').

(** [run icase r st]: every way to match [r] at position [st], in the
    order in which a backtracking matcher tries them; the first one
    that lets the rest of the pattern succeed is the match. *)
Fixpoint run (icase : bool) (r : re) (st : mstate) : list mstate :=
  match r with
  | Eps => [st]
  | One a => match step icase a st with Some st' => [st'] | None => [] end
  | Star a => star_greedy icase a (before st) (ahead st) (groups st)
  | LazyStar a => star_lazy icase a (before st) (ahead st) (groups st)
  | Plus a =>
      match step icase a st with
      | Some st' =>
          star_greedy icase a (before st') (ahead st') (groups st')
      | None => []
      end
  | Times n a => times icase a n st
  | Cat r1 r2 => concat (map (run icase r2) (run icase r1 st))
  | Alt r1 r2 => run icase r1 st ++ run icase r2 st
  | Group n r' => map (set_group n st) (run icase r' st)
  | WordB => if at_boundary st then [st] else []
  | NotAfter c =>
      match before st with
      | x :: _ => if Ascii.eqb x c then [] else [st]
      | [] => [st]
      end
  | NotBefore c =>
      match ahead st with
      | x :: _ => if Ascii.eqb x c then [] else [st]
      | [] => [st]
      end
  end.

(** A match object: the matched text ([group(0)]) and the groups. *)
Record match_obj : Type := Match {
  m_text : str;
  m_groups : list (nat * str)
}.

(** [m.group(n)] for [n >= 1]; [None] when the group did not take part. *)
Definition group (m : match_obj) (n : nat) : option str :=
  snd <$> find (fun g => (fst g =? n)%nat) (m_groups m).

Definition start_state (bef ahd : str) : mstate := MState bef ahd [].

Definition to_match (st st' : mstate) : match_obj :=
  Match (consumed st st') (groups st').

(** The match starting exactly at a position, if any. *)
Definition match_here (icase : bool) (r : re) (bef ahd : str)
    : option match_obj :=
  to_match (start_state bef ahd) <$>
    head (run icase r (start_state bef ahd)).

(** The same, refusing an empty match (the engine's ``must advance''
    after an empty match at this position). *)
Definition match_here_nonempty (icase : bool) (r : re) (bef ahd : str)
    : option match_obj :=
  to_match (start_state bef ahd) <$>
    find (fun st' => (length (ahead st') <? length ahd)%nat)
         (run icase r (start_state bef ahd)).

(** [re.search]: the leftmost position with a match. *)
Fixpoint search_from (icase : bool) (r : re) (bef ahd : str)
    : option match_obj :=
  match match_here icase r bef ahd with
  | Some m => Some m
  | None =>
      match ahd with
      | [] => None
      | x :: xs => search_from icase r (x :: bef) xs
      end
  end.

Definition search (icase : bool) (r : re) (s : str) : option match_obj :=
  search_from icase r [] s.

(** [re.fullmatch]: a match of the whole string. *)
Definition fullmatch (icase : bool) (r : re) (s : str) : option match_obj :=
  to_match (start_state [] s) <$>
    find (fun st' => bool_decide (ahead st' = []))
         (run icase r (start_state [] s)).

(** What [re.sub] does at one position that is not inside a match:
    the replacements written there, the state of the replacement
    function afterwards, and the number of characters the match
    that ends the step consumes (0: the character here is kept). *)
Definition sub_here {S : Type} (icase : bool) (r : re)
    (repl : S -> match_obj -> S * str) (s : S) (bef ahd : str)
    : S * str * nat :=
  match match_here icase r bef ahd with
  | None => (s, [], O)
  | Some m =>
      let '(s1, out1) := repl s m in
      match m_text m with
      | _ :: _ => (s1, out1, length (m_text m))
      | [] =>
          match match_here_nonempty icase r bef ahd with
          | None => (s1, out1, O)
          | Some m' =>
              let '(s2, out2) := repl s1 m' in
              (s2, out1 ++ out2, length (m_text m'))
          end
      end
  end.

(** [re.sub] with a replacement function that carries a state. *)
Fixpoint sub_go {S : Type} (icase : bool) (r : re)
    (repl : S -> match_obj -> S * str) (skip : nat) (s : S)
    (bef ahd : str) : S * str :=
  match skip with
  | S k =>
      match ahd with
      | [] => (s, [])
      | x :: xs => sub_go icase r repl k s (x :: bef) xs
      end
  | O =>
      let '(s1, out, n) := sub_here icase r repl s bef ahd in
      match ahd with
      | [] => (s1, out)
      | x :: xs =>
          match n with
          | O =>
              let '(s2, tl) := sub_go icase r repl 0 s1 (x :: bef) xs in
              (s2, out ++ x :: tl)
          | S k =>
              let '(s2, tl) := sub_go icase r repl k s1 (x :: bef) xs in
              (s2, out ++ tl)
          end
      end
  end.

Definition sub_with {S : Type} (icase : bool) (r : re)
    (repl : S -> match_obj -> S * str) (s : S) (subject : str)
    : S * str :=
  sub_go icase r repl 0 s [] subject.

(** [re.sub(r, new, subject)] for a replacement text without escapes. *)
Definition sub (icase : bool) (r : re) (new : str) (subject : str) : str :=
  snd (sub_with icase r (fun (u : unit) _ => (u, new)) tt subject).

(** Patterns are built with these. *)
Definition lit (s : str) : re :=
  fold_right (fun c r => Cat (One (Lit c)) r) Eps s.

Definition cats (rs : list re) : re := fold_right Cat Eps rs.

Fixpoint alts (rs : list re) : re :=
  match rs with
  | [] => Eps
  | [r] => r
  | r :: rs' => Alt r (alts rs')
  end.

End Re.

(** ** [os.path] (posixpath) *)

Module OsPath.
Import Py.

(** [s[:i], s[i:]] for [i = s.rfind(c) + 1], when [c] occurs in [s]. *)
Fixpoint split_after_last (c : ascii) (s : str) : option (str * str) :=
  match s with
  | [] => None
  | x :: xs =>
      match split_after_last c xs with
      | Some (h, t) => Some (x :: h, t)
      | None => if Ascii.eqb x c then Some ([x], xs) else None
      end
  end.

Definition sep : ascii := "/"%char.
Definition extsep : ascii := "."%char.

(** [s.rstrip('/')] *)
Fixpoint lstrip_char (c : ascii) (s : str) : str :=
  match s with
  | x :: xs => if Ascii.eqb x c then lstrip_char c xs else s
  | [] => []
  end.

Definition rstrip_char (c : ascii) (s : str) : str :=
  rev (lstrip_char c (rev s)).

Definition basename (p : str) : str :=
  match split_after_last sep p with
  | Some (_, t) => t
  | None => p
  end.

Definition dirname (p : str) : str :=
  let head := match split_after_last sep p with
              | Some (h, _) => h
              | None => []
              end in
  if forallb (Ascii.eqb sep) head then head else rstrip_char sep head.

(** [os.path.splitext]: the extension starts at the last dot of the
    last component, unless only dots come before it there. *)
Definition splitext (p : str) : str * str :=
  let '(dir, base) := match split_after_last sep p with
                      | Some (h, t) => (h, t)
                      | None => ([], p)
                      end in
  match split_after_last extsep base with
  | Some (pre_dot, after) =>
      let pre := removelast pre_dot in
      if forallb (Ascii.eqb extsep) pre then (p, [])
      else (dir ++ pre, extsep :: after)
  | None => (p, [])
  end.

(** [os.path.join(a, b)] *)
Definition join (a b : str) : str :=
  match b with
  | x :: _ =>
      if Ascii.eqb x sep then b
      else match last a with
           | None => a ++ b
           | Some y => if Ascii.eqb y sep then a ++ b else a ++ sep :: b
           end
  | [] =>
      match last a with
      | None => a ++ b
      | Some y => if Ascii.eqb y sep then a ++ b else a ++ sep :: b
      end
  end.

End OsPath.

(** ** [difflib.SequenceMatcher] (CPython's [Lib/difflib.py])

    [SequenceMatcher(None, a, b)]: no junk predicate, [autojunk] on.
    Indices are natural numbers; [j2len.get(j-1, 0)] and [i-k+1] are
    written so that no subtraction below zero occurs. *)

Module Difflib.
Import Py.

Section SequenceMatcher.
Variables a b : str.

(** [__chain_b]: for each element of [b], the increasing list of
    the indices where it occurs. *)
Definition chain_step (acc : nat * gmap ascii (list nat)) (elt : ascii)
    : nat * gmap ascii (list nat) :=
  let '(i, b2j) := acc in
  (S i, <[elt := default [] (b2j !! elt) ++ [i]]> b2j).

Definition b2j_full : gmap ascii (list nat) :=
  snd (fold_left chain_step b (O, ∅)).

(** [isjunk] is [None]: no element is junk. *)
Definition bjunk : gset ascii := ∅.

Definition isbjunk (elt : ascii) : bool := bool_decide (elt ∈ bjunk).

(** Popular elements are purged when [b] has 200 elements or more. *)
Definition b2j : gmap ascii (list nat) :=
  let n := length b in
  if (200 <=? n)%nat then
    let ntest := (n / 100 + 1)%nat in
    filter (fun kv => (length (snd kv) <= ntest)%nat) b2j_full
  else b2j_full.

Definition same_elt (i j : nat) : bool :=
  match a !! i, b !! j with
  | Some x, Some y => Ascii.eqb x y
  | _, _ => false
  end.

Definition junk_at (j : nat) : bool :=
  match b !! j with
  | Some y => isbjunk y
  | None => false
  end.

(** [j2len.get(j-1, 0)] *)
Definition j2lenget_pred (j2len : gmap nat nat) (j : nat) : nat :=
  match j with
  | O => O
  | S j' => default O (j2len !! j')
  end.

(** The inner loop of [find_longest_match] over the indices [js]
    of [a[i]] in [b]; [continue] below [blo], [break] from [bhi]. *)
Fixpoint scan_js (blo bhi i : nat) (j2len : gmap nat nat)
    (js : list nat) (newj2len : gmap nat nat) (best : nat * nat * nat)
    : gmap nat nat * (nat * nat * nat) :=
  match js with
  | [] => (newj2len, best)
  | j :: js' =>
      if (j <? blo)%nat then scan_js blo bhi i j2len js' newj2len best
      else if (bhi <=? j)%nat then (newj2len, best)
      else
        let k := S (j2lenget_pred j2len j) in
        let newj2len := <[j := k]> newj2len in
        let best := if (snd best <? k)%nat
                    then (S i - k, S j - k, k)%nat
                    else best in
        scan_js blo bhi i j2len js' newj2len best
  end.

(** One iteration of the outer loop, for the index [i] of [a]. *)
Definition scan_i (blo bhi : nat)
    (acc : gmap nat nat * (nat * nat * nat)) (i : nat)
    : gmap nat nat * (nat * nat * nat) :=
  let '(j2len, best) := acc in
  let js := match a !! i with
            | Some elt => default [] (b2j !! elt)
            | None => []
            end in
  scan_js blo bhi i j2len js ∅ best.

(** The two [while] loops that grow the best block to the left;
    [junk] tells which of them: the first takes non-junk elements,
    the second junk ones. *)
Fixpoint extend_left (junk : bool) (alo blo : nat)
    (besti bestj bestsize : nat) : nat * nat * nat :=
  match besti, bestj with
  | S i', S j' =>
      if (alo <? besti)%nat && (blo <? bestj)%nat
         && Bool.eqb (junk_at j') junk && same_elt i' j'
      then extend_left junk alo blo i' j' (S bestsize)
      else (besti, bestj, bestsize)
  | _, _ => (besti, bestj, bestsize)
  end.

(** The two [while] loops that grow it to the right; [n] is
    [ahi - (besti + bestsize)], the room left in [a]. *)
Fixpoint extend_right (junk : bool) (bhi : nat) (n : nat)
    (besti bestj bestsize : nat) : nat :=
  match n with
  | O => bestsize
  | S n' =>
      if (bestj + bestsize <? bhi)%nat
         && Bool.eqb (junk_at (bestj + bestsize)) junk
         && same_elt (besti + bestsize) (bestj + bestsize)
      then extend_right junk bhi n' besti bestj (S bestsize)
      else bestsize
  end.

Definition find_longest_match (alo ahi blo bhi : nat) : nat * nat * nat :=
  let '(_, (besti, bestj, bestsize)) :=
    fold_left (scan_i blo bhi) (seq alo (ahi - alo)) (∅, (alo, blo, O)) in
  let '(besti, bestj, bestsize) :=
    extend_left false alo blo besti bestj bestsize in
  let bestsize :=
    extend_right false bhi (ahi - (besti + bestsize)) besti bestj bestsize in
  let '(besti, bestj, bestsize) :=
    extend_left true alo blo besti bestj bestsize in
  let bestsize :=
    extend_right true bhi (ahi - (besti + bestsize)) besti bestj bestsize in
  (besti, bestj, bestsize).

(** The work-list loop of [get_matching_blocks]; [queue.pop()] takes
    the last entry.  [None]: the iteration bound [fuel] was too small. *)
Fixpoint blocks_loop (fuel : nat) (queue : list (nat * nat * nat * nat))
    (matching_blocks : list (nat * nat * nat))
    : option (list (nat * nat * nat)) :=
  match fuel with
  | O => None
  | S fuel' =>
      match last queue with
      | None => Some matching_blocks
      | Some (alo, ahi, blo, bhi) =>
          let queue := removelast queue in
          let '(i, j, k) := find_longest_match alo ahi blo bhi in
          match k with
          | O => blocks_loop fuel' queue matching_blocks
          | S _ =>
              let queue :=
                if (alo <? i)%nat && (blo <? j)%nat
                then queue ++ [(alo, i, blo, j)] else queue in
              let queue :=
                if (i + k <? ahi)%nat && (j + k <? bhi)%nat
                then queue ++ [(i + k, ahi, j + k, bhi)%nat] else queue in
              blocks_loop fuel' queue (matching_blocks ++ [(i, j, k)])
          end
      end
  end.

(** Tuple order, for [matching_blocks.sort()]. *)
Definition block_leb (x y : nat * nat * nat) : bool :=
  let '(i1, j1, k1) := x in
  let '(i2, j2, k2) := y in
  (i1 <? i2)%nat
  || ((i1 =? i2)%nat && ((j1 <? j2)%nat
                         || ((j1 =? j2)%nat && (k1 <=? k2)%nat))).

Fixpoint insert_block (x : nat * nat * nat) (l : list (nat * nat * nat))
    : list (nat * nat * nat) :=
  match l with
  | [] => [x]
  | y :: l' => if block_leb x y then x :: l else y :: insert_block x l'
  end.

Definition sort_blocks (l : list (nat * nat * nat))
    : list (nat * nat * nat) :=
  fold_right insert_block [] l.

(** Adjacent blocks are merged; [(i1, j1, k1)] is the block being
    grown. *)
Fixpoint collapse (i1 j1 k1 : nat) (l : list (nat * nat * nat))
    : list (nat * nat * nat) :=
  match l with
  | [] => match k1 with O => [] | S _ => [(i1, j1, k1)] end
  | (i2, j2, k2) :: l' =>
      if (i1 + k1 =? i2)%nat && (j1 + k1 =? j2)%nat
      then collapse i1 j1 (k1 + k2) l'
      else match k1 with
           | O => collapse i2 j2 k2 l'
           | S _ => (i1, j1, k1) :: collapse i2 j2 k2 l'
           end
  end.

Definition get_matching_blocks : option (list (nat * nat * nat)) :=
  let la := length a in
  let lb := length b in
  matching_blocks ← blocks_loop (2 * la + 2) [(O, la, O, lb)] [];
  Some (collapse O O O (sort_blocks matching_blocks) ++ [(la, lb, O)]).

(** [sum(triple[-1] for triple in self.get_matching_blocks())] *)
Definition matches : option nat :=
  blocks ← get_matching_blocks;
  Some (foldr (fun x acc => (snd x + acc)%nat) O blocks).

(** [_calculate_ratio(matches, len(a) + len(b))] *)
Definition calculate_ratio (matches length : nat) : Q :=
  match length with
  | O => 1
  | S _ => (2 * inject_Z (Z.of_nat matches) / inject_Z (Z.of_nat length))%Q
  end.

Definition ratio : option Q :=
  m ← matches;
  Some (calculate_ratio m (length a + length b)).

End SequenceMatcher.
End Difflib.

(** ** The filename normaliser and the year extractor *)

Module Renamer.
Import Py Re.

(** [(19\d{2}|20\d{2}|21\d{2}|2200)] *)
Definition re_year : re :=
  Group 1 (alts [ Cat (lit (chars "19")) (Times 2 Digit);
                  Cat (lit (chars "20")) (Times 2 Digit);
                  Cat (lit (chars "21")) (Times 2 Digit);
                  lit (chars "2200") ]).

(** [\b(19\d{2}|20\d{2}|21\d{2}|2200)\b] *)
Definition re_year_token : re := cats [WordB; re_year; WordB].

(** [\[.*?\]] *)
Definition re_brackets : re :=
  cats [One (Lit "["); LazyStar AnyChar; One (Lit "]")].

(** [r'\b' + re.escape(word) + r'\b'] *)
Definition re_word (word : str) : re := cats [WordB; lit word; WordB].

(** [\((.*?)\)] *)
Definition re_paren_group : re :=
  cats [One (Lit "("); Group 1 (LazyStar AnyChar); One (Lit ")")].

(** [\(.*?\)] *)
Definition re_paren : re :=
  cats [One (Lit "("); LazyStar AnyChar; One (Lit ")")].

(** [(?<!\()\b(19\d{2}|20\d{2}|21\d{2}|2200)\b(?!\))] *)
Definition re_bare_year : re :=
  cats [NotAfter "("; WordB; re_year; WordB; NotBefore ")"].

(** [\s*\((19\d{2}|20\d{2}|21\d{2}|2200)\)\s*] *)
Definition re_paren_year : re :=
  cats [Star Space; One (Lit "("); re_year; One (Lit ")"); Star Space].

(** [\s+] *)
Definition re_spaces : re := Plus Space.

(** The character class of [sanitize_filename]: colon, backslash,
    slash, star, question mark, double quote, angle brackets, bar. *)
Definition re_illegal : re :=
  One (OneOf [":"; "\"; "/"; "*"; "?"; "034"; "<"; ">"; "|"]%char).

Definition sanitize_filename (name : str) : str :=
  let name := sub false re_illegal [] name in
  strip (sub false re_spaces (chars " ") name).

Definition extract_year_from_filename (filename_str : str) : option Z :=
  match search false re_year_token filename_str with
  | Some m => int_of_digits <$> group m 1
  | None => None
  end.

Definition is_Some_b {A : Type} (o : option A) : bool :=
  match o with Some _ => true | None => false end.

(** A Python [dict] with string keys, in insertion order. *)
Abbreviation dict := (list (str * str)).

Fixpoint dict_set (d : dict) (k v : str) : dict :=
  match d with
  | [] => [(k, v)]
  | (k', v') :: d' =>
      if str_eqb k' k then (k, v) :: d' else (k', v') :: dict_set d' k v
  end.

Definition placeholder_base : str := chars "___YEAR_PLACEHOLDER___".

(** The replacement function of step 3; the dictionary
    [years_in_parens_placeholders] is its state. *)
Definition replace_year_in_paren (years_in_parens_placeholders : dict)
    (match_obj : match_obj) : dict * str :=
  let content_inside_paren := default [] (group match_obj 1) in
  match fullmatch false re_year content_inside_paren with
  | Some year_match_inside_paren =>
      let year_str := default [] (group year_match_inside_paren 1) in
      let placeholder :=
        placeholder_base ++ str_of_nat (length years_in_parens_placeholders) in
      (dict_set years_in_parens_placeholders placeholder
                (chars "(" ++ year_str ++ chars ")"),
       placeholder)
  | None => (years_in_parens_placeholders, m_text match_obj)
  end.

Definition extract_basename (WORDS_TO_REMOVE : list str) (file_path : str)
    : str :=
  let base_name_ext := OsPath.basename file_path in
  let name := fst (OsPath.splitext base_name_ext) in
  (* 1 *)
  let name := sub false re_brackets [] name in
  (* 2 *)
  let name :=
    fold_left (fun name word => sub true (re_word word) [] name)
              WORDS_TO_REMOVE name in
  (* 3 *)
  let '(years_in_parens_placeholders, name) :=
    sub_with false re_paren_group replace_year_in_paren [] name in
  let name := sub false re_paren [] name in
  (* 4 *)
  let name := strip (sub false re_bare_year [] name) in
  (* 5 *)
  let name :=
    fold_left (fun name kv => replace (fst kv) (snd kv) name)
              years_in_parens_placeholders name in
  (* 6 *)
  let name := strip (sub false re_paren_year (chars " ") name) in
  (* 7 *)
  let name := strip (replace (chars ".") (chars " ") name) in
  let name := strip (sub false re_spaces (chars " ") name) in
  match name with
  | [] => fst (OsPath.splitext base_name_ext)
  | _ => name
  end.

(** [SequenceMatcher(None, a, b).ratio() * 100]; [None] only if the
    work list of [get_matching_blocks] outlasted its bound, which it
    never does (lemma [matches_bound]). *)
Definition calculate_similarity (a b : str) : option Q :=
  (fun r => r * 100)%Q <$> Difflib.ratio a b.

(** *** Configuration ([config.json]) *)

Record config : Type := Config {
  WORDS_TO_REMOVE : list str;
  SIMILARITY_AUTO : Z;
  SIMILARITY_ASK : Z;
  YEAR_DIFF_AUTO : Z
}.

(** The defaults of [verify_and_load_config]. *)
Definition default_words_to_remove : list str :=
  map chars
    [ "720p"; "1080p"; "2160p"; "4k"; "480p"; "dvd"; "xvid"; "mp3"; "ac3";
      "6ch"; "5.1"; "bluray"; "web-dl"; "webrip"; "hdtv"; "hdrip"; "x264";
      "h264"; "x265"; "hevc"; "extended"; "uncut"; "remastered";
      "director's cut"; "final cut"; "multi"; "dual" ]%string.

Definition default_config : config :=
  Config default_words_to_remove 100 85 1.

(** *** The metadata answer of the Plex server for one item *)

Record video_attrs : Type := VideoAttrs {
  va_title : option str;     (* attribute [title] of the [Video] element *)
  va_year : option str       (* attribute [year] *)
}.

Record metadata_xml : Type := MetadataXml {
  md_guids : list str;              (* [guid.get("id", "")] of each [Guid] *)
  md_video : option video_attrs     (* [find(".//Video")] *)
}.

(** An item of the listing: the [file] of its first [Part] and its
    [ratingKey]. *)
Record video : Type := Video {
  v_file : option str;
  v_ratingKey : option str
}.

(** [(tt\d+)] and [(\d+)] *)
Definition re_imdb_id : re := Group 1 (Cat (lit (chars "tt")) (Plus Digit)).
Definition re_digits : re := Group 1 (Plus Digit).

Definition get_identifiers_step (ids_found : option str * option str)
    (guid_id : str) : option str * option str :=
  if contains (chars "imdb") guid_id then
    match search false re_imdb_id guid_id with
    | Some match_imdb => (group match_imdb 1, snd ids_found)
    | None => ids_found
    end
  else if contains (chars "tmdb") guid_id then
    match search false re_digits guid_id with
    | Some match_tmdb => (fst ids_found, group match_tmdb 1)
    | None => ids_found
    end
  else ids_found.

Definition get_identifiers (metadata : metadata_xml)
    : option str * option str :=
  fold_left get_identifiers_step (md_guids metadata) (None, None).

(** [x and x.lower() not in ["na", "n/a"]] *)
Definition usable_id (x : option str) : bool :=
  match x with
  | None => false
  | Some [] => false
  | Some s => negb (str_eqb (lower s) (chars "na")
                    || str_eqb (lower s) (chars "n/a"))
  end.

(** [(?:tmdbid\s*=\s*|tmdb-)(\d+)] *)
Definition re_tmdb_explicit : re :=
  Cat (Alt (cats [lit (chars "tmdbid"); Star Space; One (Lit "=");
                  Star Space])
           (lit (chars "tmdb-")))
      (Group 1 (Plus Digit)).

(** [tmdbid|tmdb-] *)
Definition re_tmdb_presence : re :=
  Alt (lit (chars "tmdbid")) (lit (chars "tmdb-")).

(** [\{imdb-tt\d+\}] and [\{tmdb-\d+\}] *)
Definition re_imdb_tag : re :=
  cats [lit (chars "{imdb-tt"); Plus Digit; One (Lit "}")].
Definition re_tmdb_tag : re :=
  cats [lit (chars "{tmdb-"); Plus Digit; One (Lit "}")].

(** The last component of the tuple [process_movie] returns: a status
    word or the similarity. *)
Inductive status : Type :=
| METADATA_ERROR_TMDB_DIRECT
| NO_ID_FOR_TMDB_DIRECT_RENAME
| TMDB_DIRECT_RENAME
| ALREADY_FORMATTED_ID_TAG
| METADATA_ERROR
| NO_ID_FOUND
| Similarity (similarity : Q).

Record movie_info : Type := MovieInfo {
  file_path : str;
  imdb_id : option str;
  tmdb_id : option str;
  title : option str;
  year : option str;
  base_name_from_file : str;
  skip_processing : bool;
  status_or_similarity : status
}.

Definition unknown : str := chars "Desconocido".

Section ProcessMovie.
(** The configuration and the server: [plex_request] on the
    metadata URL of a [ratingKey]; [None] when the request or the
    parsing of its answer fails. *)
Variable cfg : config.
Variable plex_request : option str -> option metadata_xml.

(** [None]: an exception leaves [process_movie] (the answer has no
    [Video] element). *)
Definition process_movie (video : video) : option movie_info :=
  let file_path := default (chars "N/A") (v_file video) in
  let original_filename_base := OsPath.basename file_path in
  let tmdb_id_explicit_match :=
    search true re_tmdb_explicit original_filename_base in
  let tmdb_presence_match :=
    match tmdb_id_explicit_match with
    | None => search true re_tmdb_presence original_filename_base
    | Some _ => None
    end in
  let tmdb_id_extracted_from_filename :=
    match tmdb_id_explicit_match with
    | Some m => group m 1
    | None => None
    end in
  let proceed_with_tmdb_logic :=
    match tmdb_id_explicit_match, tmdb_presence_match with
    | Some _, _ => true
    | None, Some _ => true
    | None, None => false
    end in
  let words := WORDS_TO_REMOVE cfg in
  if proceed_with_tmdb_logic then
    match plex_request (v_ratingKey video) with
    | None =>
        Some (MovieInfo file_path None None None None
                (extract_basename words file_path) true
                METADATA_ERROR_TMDB_DIRECT)
    | Some metadata =>
        let '(plex_imdb_id, plex_tmdb_id_from_meta) :=
          get_identifiers metadata in
        attrs ← md_video metadata;
        let title := default unknown (va_title attrs) in
        let year := default unknown (va_year attrs) in
        let final_tmdb_id_for_object :=
          match tmdb_id_extracted_from_filename with
          | Some (c :: s) => Some (c :: s)
          | _ => plex_tmdb_id_from_meta
          end in
        let has_valid_plex_imdb := usable_id plex_imdb_id in
        let has_valid_final_tmdb := usable_id final_tmdb_id_for_object in
        if negb has_valid_plex_imdb && negb has_valid_final_tmdb then
          Some (MovieInfo file_path plex_imdb_id final_tmdb_id_for_object
                  (Some title) (Some year)
                  (extract_basename words file_path) true
                  NO_ID_FOR_TMDB_DIRECT_RENAME)
        else
          Some (MovieInfo file_path plex_imdb_id final_tmdb_id_for_object
                  (Some title) (Some year)
                  (extract_basename words file_path) false
                  TMDB_DIRECT_RENAME)
    end
  else
    let base_name_from_file := extract_basename words file_path in
    let filename_lower := lower original_filename_base in
    if is_Some_b (search false re_imdb_tag filename_lower)
       || is_Some_b (search false re_tmdb_tag filename_lower)
    then
      Some (MovieInfo file_path None None None None base_name_from_file
              true ALREADY_FORMATTED_ID_TAG)
    else
      match plex_request (v_ratingKey video) with
      | None =>
          Some (MovieInfo file_path None None None None
                  base_name_from_file true METADATA_ERROR)
      | Some metadata =>
          let '(imdb_id, tmdb_id) := get_identifiers metadata in
          let has_valid_imdb := usable_id imdb_id in
          let has_valid_tmdb := usable_id tmdb_id in
          if negb has_valid_imdb && negb has_valid_tmdb then
            Some (MovieInfo file_path imdb_id tmdb_id None None
                    base_name_from_file true NO_ID_FOUND)
          else
            attrs ← md_video metadata;
            let title := default unknown (va_title attrs) in
            let year := default unknown (va_year attrs) in
            similarity ←
              calculate_similarity (lower base_name_from_file)
                                   (lower title);
            Some (MovieInfo file_path imdb_id tmdb_id
                    (Some title) (Some year) base_name_from_file false
                    (Similarity similarity))
      end.

End ProcessMovie.

(** *** The decision of [list_movie_files] for one item *)

Inductive skip_reason : Type :=
| ByStatus (st : status)       (* [skip_processing]: the status says why *)
| NoValidTag                   (* no usable identifier for the tag *)
| InsufficientSimilarity.      (* the similarity does not reach the ask threshold *)

Inductive action : Type :=
| AUTO_RENAME (new_name : str)   (* [rename_file] is called at once *)
| ASK_CONFIRM (new_name : str)   (* the user is asked first *)
| SKIP (why : skip_reason).

(** An absent value in an f-string prints as [None]. *)
Definition fmt (x : option str) : str := default (chars "None") x.

Section Decision.
Variable cfg : config.
Variable info : movie_info.

Definition filename_year_val : option Z :=
  extract_year_from_filename (OsPath.basename (file_path info)).

(** [int(year) if year and year.isdigit() else None] *)
Definition metadata_year_val : option Z :=
  match year info with
  | Some y => if isdigit y then Some (int_of_digits y) else None
  | None => None
  end.

Definition year_match : bool :=
  if truthy filename_year_val && truthy metadata_year_val then
    match filename_year_val, metadata_year_val with
    | Some f, Some m => (Z.abs (f - m) <=? YEAR_DIFF_AUTO cfg)%Z
    | _, _ => false
    end
  else false.

Definition id_for_filename_tag : str :=
  if usable_id (imdb_id info)
  then chars "{imdb-" ++ fmt (imdb_id info) ++ chars "}"
  else if usable_id (tmdb_id info)
  then chars "{tmdb-" ++ fmt (tmdb_id info) ++ chars "}"
  else [].

Definition new_name_sanitized : str :=
  let new_name_base :=
    strip (fmt (title info) ++ chars " (" ++ fmt (year info)
           ++ chars ") " ++ id_for_filename_tag) in
  sanitize_filename new_name_base.

(** The [elif] branch that sets [auto_rename_triggered] from the
    similarity; [None]: [title.split()] raises on an absent title. *)
Definition auto_by_similarity (similarity_value : Q) : option bool :=
  if Qle_bool (inject_Z (SIMILARITY_AUTO cfg)) similarity_value
     && year_match
  then
    t ← title info;
    if (2 <=? length (split t))%nat then Some true
    else if (length (split t) =? 1)%nat
            && (length (split (base_name_from_file info)) =? 1)%nat
    then Some true
    else Some false
  else Some false.

(** [None]: an exception is raised ([float] of a status word, or
    [split] of an absent title). *)
Definition decide_item : option action :=
  if skip_processing info then
    Some (SKIP (ByStatus (status_or_similarity info)))
  else
    match status_or_similarity info with
    | TMDB_DIRECT_RENAME =>
        match id_for_filename_tag with
        | [] => Some (SKIP NoValidTag)
        | _ => Some (AUTO_RENAME new_name_sanitized)
        end
    | Similarity similarity_value =>
        match id_for_filename_tag with
        | [] => Some (SKIP NoValidTag)
        | _ =>
            match auto_by_similarity similarity_value with
            | None => None
            | Some auto_rename_triggered =>
                if auto_rename_triggered : bool
                then Some (AUTO_RENAME new_name_sanitized)
                else if negb (Qle_bool similarity_value
                                (inject_Z (SIMILARITY_ASK cfg)))
                then Some (ASK_CONFIRM new_name_sanitized)
                else Some (SKIP InsufficientSimilarity)
            end
        end
    | _ => None
    end.

End Decision.

(** *** The file system, the terminal and the audit log *)

(** The operations of [os] the program calls.  A call that raises
    [OSError] gives [None] and leaves the file system as it was. *)
Class OS (FS : Type) : Type := {
  os_path_exists : FS -> str -> bool;
  os_remove : FS -> str -> option FS;
  os_rename : FS -> str -> str -> option FS;
  os_replace : FS -> str -> str -> option FS
}.

Record world (FS : Type) : Type := World {
  fs : FS;
  stdin : list str;        (* the lines [input()] will read *)
  now : str;               (* [datetime.now()] as [%Y-%m-%d %H:%M:%S] *)
  log_writable : bool;     (* whether [rename.log] can be opened for append *)
  log : list str           (* the lines of [rename.log] *)
}.
Arguments World {FS}.
Arguments fs {FS}.
Arguments stdin {FS}.
Arguments now {FS}.
Arguments log_writable {FS}.
Arguments log {FS}.

Section Effects.
Context {FS : Type} `{OS FS}.

(** A command: it changes the world and returns a value, or raises
    an exception ([None]); what was done before the exception stays. *)
Definition cmd (A : Type) : Type := world FS -> world FS * option A.

Definition ret {A : Type} (x : A) : cmd A := fun w => (w, Some x).

Definition raise {A : Type} : cmd A := fun w => (w, None).

Definition bind {A B : Type} (m : cmd A) (k : A -> cmd B) : cmd B :=
  fun w => match m w with
           | (w', Some x) => k x w'
           | (w', None) => (w', None)
           end.

(** [try: body except Exception: handler] *)
Definition try_except {A : Type} (body handler : cmd A) : cmd A :=
  fun w => match body w with
           | (w', Some x) => (w', Some x)
           | (w', None) => handler w'
           end.

Definition set_fs (w : world FS) (fs' : FS) : world FS :=
  World fs' (stdin w) (now w) (log_writable w) (log w).

(** A call of [os] that may raise. *)
Definition os_call (op : FS -> option FS) : cmd unit :=
  fun w => match op (fs w) with
           | Some fs' => (set_fs w fs', Some tt)
           | None => (w, None)
           end.

Definition path_exists (p : str) : cmd bool :=
  fun w => (w, Some (os_path_exists (fs w) p)).

(** [input(...)]: the next line, or [EOFError]. *)
Definition input : cmd str :=
  fun w => match stdin w with
           | l :: rest =>
               (World (fs w) rest (now w) (log_writable w) (log w), Some l)
           | [] => (w, None)
           end.

Definition log_entry (stamp old_path new_path : str) : str :=
  chars "[" ++ stamp ++ chars "] Renombrado: " ++ old_path
  ++ chars " -> " ++ new_path ++ ["010"%char].

Definition log_rename (old_path new_path : str) : cmd unit :=
  fun w =>
    if log_writable w then
      (World (fs w) (stdin w) (now w) (log_writable w)
             (log w ++ [log_entry (now w) old_path new_path]),
       Some tt)
    else (w, None).

Notation "'do' x <- m ;; k" := (bind m (fun x => k))
  (at level 10, x name, m at level 99, k at level 200, only parsing).
Notation "'exec' m ;; k" := (bind m (fun _ => k))
  (at level 10, m at level 99, k at level 200, only parsing).

(** The loop that asks until the answer is [s] or [n]; it reads
    the lines of [inputs] one after the other. *)
Fixpoint ask_s_n (inputs : list str) : option (str * list str) :=
  match inputs with
  | [] => None
  | l :: rest =>
      let answer := lower (strip l) in
      if str_eqb answer (chars "s") || str_eqb answer (chars "n")
      then Some (answer, rest)
      else ask_s_n rest
  end.

Definition ask : cmd str :=
  fun w => match ask_s_n (stdin w) with
           | Some (answer, rest) =>
               (World (fs w) rest (now w) (log_writable w) (log w),
                Some answer)
           | None =>
               (World (fs w) [] (now w) (log_writable w) (log w), None)
           end.

Definition when (c : bool) (m : cmd unit) : cmd unit :=
  if c then m else ret tt.

(** [new_path] of [rename_file]: the new name in the directory of
    the file, with the extension of the file. *)
Definition new_path (file_path new_name : str) : str :=
  OsPath.join (OsPath.dirname file_path)
              (new_name ++ snd (OsPath.splitext file_path)).

(** [rename_file]: [True] when the file was renamed. *)
Definition rename_file (file_path new_name : str) : cmd bool :=
  let new_path := new_path file_path new_name in
  let replace_it :=
    try_except
      (exec os_call (fun f => os_replace f file_path new_path) ;;
       exec log_rename file_path new_path ;;
       ret true)
      (ret false) in
  if str_eqb file_path new_path then ret false
  else
    do there <- path_exists new_path ;;
    if there : bool then
      if str_eqb (lower file_path) (lower new_path)
         && negb (str_eqb file_path new_path)
      then
        let temp_name := new_path ++ chars ".renaming_temp" in
        try_except
          (do old_temp <- path_exists temp_name ;;
           exec when old_temp (os_call (fun f => os_remove f temp_name)) ;;
           exec os_call (fun f => os_rename f file_path temp_name) ;;
           exec os_call (fun f => os_rename f temp_name new_path) ;;
           exec log_rename file_path new_path ;;
           ret true)
          (do temp_there <- path_exists temp_name ;;
           do file_there <- path_exists file_path ;;
           exec when (temp_there && negb file_there)
                    (os_call (fun f => os_rename f temp_name file_path)) ;;
           ret false)
      else
        do overwrite <- ask ;;
        if str_eqb overwrite (chars "n") then ret false
        else replace_it
    else replace_it.

(** What [list_movie_files] does with an item once it is decided. *)
Definition perform (file_path : str) (a : action) : cmd unit :=
  match a with
  | AUTO_RENAME new_name => exec rename_file file_path new_name ;; ret tt
  | ASK_CONFIRM new_name =>
      do confirm <- ask ;;
      if str_eqb confirm (chars "s")
      then exec rename_file file_path new_name ;; ret tt
      else ret tt
  | SKIP _ => ret tt
  end.

(** The body of the loop of [list_movie_files] for one item, with
    the [try ... except Exception] around it. *)
Definition handle_item (cfg : config)
    (plex_request : option str -> option metadata_xml) (v : video)
    : cmd unit :=
  try_except
    (match process_movie cfg plex_request v with
     | None => raise
     | Some info =>
         match decide_item cfg info with
         | None => raise
         | Some a => perform (file_path info) a
         end
     end)
    (ret tt).

End Effects.

End Renamer.

(** ** A file system for the examples

    A flat map from paths to file contents.  On a case-insensitive
    volume two paths that differ by letter case only name the same
    file; the map keeps the spelling the file was last given.  A call
    fails when its source does not exist. *)

Module MapFS.
Import Py Renamer.

Record t : Type := Make {
  case_insensitive : bool;
  entries : gmap (list ascii) (list ascii * list ascii)
}.

Definition key (f : t) (p : str) : str :=
  if case_insensitive f then lower p else p.

Definition exists_ (f : t) (p : str) : bool :=
  is_Some_b (entries f !! key f p).

Definition remove (f : t) (p : str) : option t :=
  match entries f !! key f p with
  | Some _ => Some (Make (case_insensitive f) (delete (key f p) (entries f)))
  | None => None
  end.

Definition rename (f : t) (src dst : str) : option t :=
  match entries f !! key f src with
  | Some (_, content) =>
      Some (Make (case_insensitive f)
              (<[key f dst := (dst, content)]>
                 (delete (key f src) (entries f))))
  | None => None
  end.

#[global] Instance os : OS t := {
  os_path_exists := exists_;
  os_remove := remove;
  os_rename := rename;
  os_replace := rename
}.

(** The files of a volume, as (path as spelled, content) pairs. *)
Definition of_list (ci : bool) (files : list (str * str)) : t :=
  fold_left
    (fun f pc =>
       Make ci (<[key (Make ci ∅) (fst pc) := (fst pc, snd pc)]> (entries f)))
    files (Make ci ∅).

Definition spelled (f : t) (p : str) : option str :=
  fst <$> entries f !! key f p.

Definition content (f : t) (p : str) : option str :=
  snd <$> entries f !! key f p.

End MapFS.

(** ** The configuration ([config.json]) and its check *)

Module Settings.
Import Py Renamer.

(** A Python [float]: a finite one by its exact value. *)
Inductive float_val : Type :=
| Finite (q : Q)
| Infinity (negative : bool)
| NaN.

(** The values [json.load] returns. *)
#[warnings="-register-all"]
Inductive value : Type :=
| JNull                              (* [None] *)
| JBool (b : bool)
| JInt (z : Z)
| JFloat (f : float_val)
| JStr (s : str)
| JList (items : list value)
| JDict (d : gmap str value).

(** The exceptions of the built-in operations used on such values. *)
Inductive exn : Type :=
| KeyError
| ValueError
| TypeError
| OverflowError
| AttributeError.

Inductive result (A : Type) : Type :=
| Ok (x : A)
| Raised (e : exn).
Arguments Ok {A}.
Arguments Raised {A}.

(** *** [int(x)] *)

(** The blanks [int] skips around an ASCII text: TAB, LF, VT, FF, CR
    and SPACE. *)
Definition is_c_space (c : ascii) : bool :=
  in_range 9 13 c || (code c =? 32)%nat.

Fixpoint lstrip_c (s : str) : str :=
  match s with
  | c :: s' => if is_c_space c then lstrip_c s' else s
  | [] => []
  end.

Definition strip_c (s : str) : str := rev (lstrip_c (rev (lstrip_c s))).

(** Decimal digits with single underscores between them: the value
    read so far and the number of digits.  [prev_us]: the character
    before was an underscore. *)
Fixpoint digits_value (prev_us : bool) (acc : Z) (n : nat) (s : str)
    : option (Z * nat) :=
  match s with
  | [] => if prev_us then None else Some (acc, n)
  | c :: s' =>
      if is_digit c
      then digits_value false (10 * acc + Z.of_nat (code c - 48))%Z (S n) s'
      else if (code c =? 95)%nat
      then if prev_us then None else digits_value true acc n s'
      else None
  end.

Definition unsigned_value (s : str) : option (Z * nat) :=
  match s with
  | [] => None
  | c :: _ => if (code c =? 95)%nat then None else digits_value false 0%Z O s
  end.

Section Int.
(** [sys.get_int_max_str_digits()]: 4300 unless changed; 0 for no
    limit. *)
Variable max_str_digits : nat.

Definition too_many_digits (n : nat) : bool :=
  (640 <? n)%nat && (0 <? max_str_digits)%nat && (max_str_digits <? n)%nat.

(** [int(s)] for a string. *)
Definition int_of_str (s : str) : result Z :=
  let body := strip_c s in
  let '(negative, digits) :=
    match body with
    | c :: r =>
        if Ascii.eqb c "+" then (false, r)
        else if Ascii.eqb c "-" then (true, r)
        else (false, body)
    | [] => (false, body)
    end in
  match unsigned_value digits with
  | Some (v, n) =>
      if too_many_digits n then Raised ValueError
      else Ok (if negative : bool then (- v)%Z else v)
  | None => Raised ValueError
  end.

(** [int(x)] *)
Definition int (x : value) : result Z :=
  match x with
  | JInt z => Ok z
  | JBool b => Ok (if b then 1 else 0)%Z
  | JFloat (Finite q) => Ok (Z.quot (Qnum q) (Z.pos (Qden q)))
  | JFloat (Infinity _) => Raised OverflowError
  | JFloat NaN => Raised ValueError
  | JStr s => int_of_str s
  | JNull | JList _ | JDict _ => Raised TypeError
  end.

(** *** The global settings *)

Record globals : Type := Globals {
  PLEX_BASE_URL : value;
  PLEX_TOKEN : value;
  WORDS_TO_REMOVE : value;
  SIMILARITY_AUTO : Z;
  SIMILARITY_ASK : Z;
  YEAR_DIFF_AUTO : Z
}.

(** Their values when the module is loaded. *)
Definition initial_globals : globals :=
  Globals (JStr []) (JStr []) (JList []) 100 85 1.

(** A statement: it changes the globals and returns a value or raises. *)
Definition stmt (A : Type) : Type := globals -> globals * result A.

Definition ret {A : Type} (x : A) : stmt A := fun g => (g, Ok x).

Definition raise {A : Type} (e : exn) : stmt A := fun g => (g, Raised e).

Definition bind {A B : Type} (m : stmt A) (k : A -> stmt B) : stmt B :=
  fun g => match m g with
           | (g', Ok x) => k x g'
           | (g', Raised e) => (g', Raised e)
           end.

Definition lift {A : Type} (r : result A) : stmt A := fun g => (g, r).

Definition read : stmt globals := fun g => (g, Ok g).

Definition assign (f : globals -> globals) : stmt unit :=
  fun g => (f g, Ok tt).

(** [try: body except KeyError: ... except ValueError: ...] *)
Definition try_except {A : Type} (body : stmt A) (handler : exn -> stmt A)
    : stmt A :=
  fun g => match body g with
           | (g', Ok x) => (g', Ok x)
           | (g', Raised e) => handler e g'
           end.

(** [config_data[key]] *)
Definition getitem (config_data : value) (key : str) : result value :=
  match config_data with
  | JDict d => match d !! key with
               | Some v => Ok v
               | None => Raised KeyError
               end
  | _ => Raised TypeError
  end.

(** [config_data.get(key, default)] *)
Definition get (config_data : value) (key : str) (default_value : value)
    : result value :=
  match config_data with
  | JDict d => Ok (default default_value (d !! key))
  | _ => Raised AttributeError
  end.

(** [isinstance(x, list)] *)
Definition is_list (x : value) : bool :=
  match x with JList _ => true | _ => false end.

Notation "'do' x <- m ;; k" := (bind m (fun x => k))
  (at level 10, x name, m at level 99, k at level 200, only parsing).
Notation "'exec' m ;; k" := (bind m (fun _ => k))
  (at level 10, m at level 99, k at level 200, only parsing).

(** [verify_and_load_config]; what it prints is left out, and with it
    the only use of [debug_cli_flag]. *)
Definition verify_and_load_config (config_data : value)
    (debug_cli_flag : bool) : stmt bool :=
  try_except
    (do url <- lift (getitem config_data (chars "PLEX_BASE_URL")) ;;
     exec assign (fun g => Globals url (PLEX_TOKEN g) (WORDS_TO_REMOVE g)
                             (SIMILARITY_AUTO g) (SIMILARITY_ASK g)
                             (YEAR_DIFF_AUTO g)) ;;
     do token <- lift (getitem config_data (chars "PLEX_TOKEN")) ;;
     exec assign (fun g => Globals (PLEX_BASE_URL g) token (WORDS_TO_REMOVE g)
                             (SIMILARITY_AUTO g) (SIMILARITY_ASK g)
                             (YEAR_DIFF_AUTO g)) ;;
     let default_words_to_remove :=
       JList (map JStr Renamer.default_words_to_remove) in
     do words <- lift (get config_data (chars "WORDS_TO_REMOVE_FROM_FILENAME")
                         default_words_to_remove) ;;
     exec assign (fun g => Globals (PLEX_BASE_URL g) (PLEX_TOKEN g) words
                             (SIMILARITY_AUTO g) (SIMILARITY_ASK g)
                             (YEAR_DIFF_AUTO g)) ;;
     do auto_raw <- lift (get config_data (chars "SIMILARITY_THRESHOLD_AUTO")
                            (JInt 100)) ;;
     do auto <- lift (int auto_raw) ;;
     exec assign (fun g => Globals (PLEX_BASE_URL g) (PLEX_TOKEN g)
                             (WORDS_TO_REMOVE g) auto (SIMILARITY_ASK g)
                             (YEAR_DIFF_AUTO g)) ;;
     do ask_raw <- lift (get config_data (chars "SIMILARITY_THRESHOLD_ASK")
                           (JInt 85)) ;;
     do ask <- lift (int ask_raw) ;;
     exec assign (fun g => Globals (PLEX_BASE_URL g) (PLEX_TOKEN g)
                             (WORDS_TO_REMOVE g) (SIMILARITY_AUTO g) ask
                             (YEAR_DIFF_AUTO g)) ;;
     do year_raw <- lift (get config_data (chars "YEAR_MATCH_DIFFERENCE_AUTO")
                            (JInt 1)) ;;
     do year_diff <- lift (int year_raw) ;;
     exec assign (fun g => Globals (PLEX_BASE_URL g) (PLEX_TOKEN g)
                             (WORDS_TO_REMOVE g) (SIMILARITY_AUTO g)
                             (SIMILARITY_ASK g) year_diff) ;;
     do g <- read ;;
     if negb ((0 <=? SIMILARITY_AUTO g)%Z && (SIMILARITY_AUTO g <=? 100)%Z
              && (0 <=? SIMILARITY_ASK g)%Z && (SIMILARITY_ASK g <=? 100)%Z)
     then ret false
     else if negb (is_list (WORDS_TO_REMOVE g)) then ret false
     else ret true)
    (fun e => match e with
              | KeyError => ret false
              | ValueError => ret false
              | _ => raise e
              end).

End Int.

End Settings.

(** ** The listing loop ([list_movie_files]) *)

Module Listing.
Import Py Re Renamer.

(** A [Directory] element of the answer to [/library/sections]: its
    attributes [type] and [key]. *)
Record directory : Type := Directory {
  d_type : option str;
  d_key : option str
}.

Section ListMovieFiles.
Context {FS : Type} `{OS FS}.

(** The settings and the server: the sections it lists ([None]: the
    request failed), the items of a section by its [key], and the
    metadata of an item by its [ratingKey]. *)
Variable cfg : config.
Variable fetch_plex_sections : option (list directory).
Variable fetch_plex_movies : option str -> option (list video).
Variable plex_request : option str -> option metadata_xml.

(** [for x in l: body(x)] *)
Fixpoint for_each {A : Type} (body : A -> cmd (FS:=FS) unit) (l : list A)
    : cmd (FS:=FS) unit :=
  match l with
  | [] => ret tt
  | x :: l' => bind (body x) (fun _ => for_each body l')
  end.

Definition list_movie_files : cmd (FS:=FS) unit :=
  match fetch_plex_sections with
  | None => ret tt
  | Some sections =>
      for_each
        (fun section =>
           if bool_decide (d_type section = Some (chars "movie")) then
             match fetch_plex_movies (d_key section) with
             | None => ret tt
             | Some movie_videos =>
                 for_each (handle_item cfg plex_request) movie_videos
             end
           else ret tt)
        sections
  end.

End ListMovieFiles.

End Listing.

Import Py Re Renamer.

(** * Properties of the model *)

(** ** Vocabulary of the statements *)

(** The block [best] lies inside the window. *)
Definition in_window (alo ahi blo bhi : nat) (best : nat * nat * nat) : Prop :=
  let '(i, j, k) := best in
  (alo <= i /\ i + k <= ahi /\ blo <= j /\ j + k <= bhi)%nat.

(** Before row [i]: a match ending at [a[i-1]], [b[j]] fits in the
    window. *)
Definition j2len_ok (alo blo i : nat) (j2len : gmap nat nat) : Prop :=
  map_Forall (fun j k => (k + alo <= i /\ k + blo <= S j)%nat) j2len.

(** The sum of the sizes of a list of blocks. *)
Definition total (l : list (nat * nat * nat)) : nat :=
  foldr (fun x acc => (snd x + acc)%nat) O l.

(** The windows still to be searched. *)
Definition window_ok (q : nat * nat * nat * nat) : Prop :=
  let '(alo, ahi, blo, bhi) := q in (alo <= ahi /\ blo <= bhi)%nat.

(** The widths of a window in [a] and in [b], and their sums over the
    work list. *)
Definition width_a (q : nat * nat * nat * nat) : nat :=
  let '(alo, ahi, _, _) := q in (ahi - alo)%nat.

Definition width_b (q : nat * nat * nat * nat) : nat :=
  let '(_, _, blo, bhi) := q in (bhi - blo)%nat.

Definition sum_of (f : nat * nat * nat * nat -> nat)
    (queue : list (nat * nat * nat * nat)) : nat :=
  foldr (fun q acc => (f q + acc)%nat) O queue.

(** One step of the work list: the windows pushed for a block found
    in the window [(alo, ahi, blo, bhi)]. *)
Definition pushed (alo ahi blo bhi i j k : nat)
    (queue : list (nat * nat * nat * nat)) : list (nat * nat * nat * nat) :=
  let queue := if (alo <? i)%nat && (blo <? j)%nat
               then queue ++ [(alo, i, blo, j)] else queue in
  if (i + k <? ahi)%nat && (j + k <? bhi)%nat
  then queue ++ [(i + k, ahi, j + k, bhi)%nat] else queue.

(** The work list is exhausted within [fuel] iterations when every
    window counts for twice its width plus one. *)
Definition weight (q : nat * nat * nat * nat) : nat := (2 * width_a q + 1)%nat.

(** The position [n] characters further on. *)
Definition advance (n : nat) (st : mstate) : mstate :=
  MState (rev (take n (ahead st)) ++ before st) (drop n (ahead st))
         (groups st).

(** The two TMDb markers. *)
Definition tmdbid : str := chars "tmdbid".
Definition tmdb_dash : str := chars "tmdb-".

(** The marker test of [process_movie], on the lowered name. *)
Definition has_tmdb_marker (name : str) : bool :=
  contains tmdbid (lower name) || contains tmdb_dash (lower name).

(** The path and the name [process_movie] reads off an item. *)
Definition file_of (v : video) : str := default (chars "N/A") (v_file v).
Definition name_of (v : video) : str := OsPath.basename (file_of v).

(** [c] does not occur in [s]; [r] matches nowhere in [s]. *)
Definition no_char (c : ascii) (s : str) : bool :=
  negb (existsb (Ascii.eqb c) s).


(** Every whitespace character is a single blank between two other
    characters or at an end. *)
Fixpoint single_spaced (s : str) : bool :=
  match s with
  | [] => true
  | c :: s' =>
      (if is_space c
       then Ascii.eqb c " "
            && match s' with x :: _ => negb (is_space x) | [] => true end
       else true)
      && single_spaced s'
  end.



(** ** Sample data *)

Definition heat_metadata : metadata_xml :=
  MetadataXml [chars "imdb://tt0113277"; chars "tmdb://949"]
              (Some (VideoAttrs (Some (chars "Heat")) (Some (chars "1995")))).

Definition heat_server (ratingKey : option str) : option metadata_xml :=
  Some heat_metadata.

Definition stamp : str := chars "2024-05-01 10:00:00".

Definition heat_plain : video :=
  Video (Some (chars "/movies/Heat.1995.1080p.mkv")) (Some (chars "101")).

Definition heat_plain_info : movie_info :=
  MovieInfo (chars "/movies/Heat.1995.1080p.mkv") (Some (chars "tt0113277"))
    (Some (chars "949")) (Some (chars "Heat")) (Some (chars "1995"))
    (chars "Heat") false (Similarity (800 # 8)).



Definition heat_marker_only : video :=
  Video (Some (chars "/movies/Heat.TMDBID.mkv")) (Some (chars "101")).

Definition scenario_A_file : str :=
  chars "Movie.Name.2019.1080p.BluRay.x264-GROUP.mkv".

Definition scenario_A_words : list str :=
  map chars ["1080p"; "bluray"; "x264"]%string.

Definition case_volume : world MapFS.t :=
  World (MapFS.of_list true [(chars "/m/movie.mkv", chars "data")])
        [] stamp true [].

Definition two_files : world MapFS.t :=
  World (MapFS.of_list false [(chars "/m/a.mkv", chars "one");
                              (chars "/m/Heat.mkv", chars "two")])
        [chars "x"; chars " N "; chars "later"] stamp true [].

(** The characters [sanitize_filename] deletes. *)
Definition illegal (c : ascii) : bool :=
  existsb (Ascii.eqb c) [":"; "\"; "/"; "*"; "?"; "034"; "<"; ">"; "|"]%char.

(** Every run of whitespace replaced by one blank; [in_run]: the
    character before was whitespace. *)
Fixpoint squeeze (in_run : bool) (s : str) : str :=
  match s with
  | [] => []
  | c :: s' =>
      if is_space c
      then if in_run then squeeze true s' else " "%char :: squeeze true s'
      else c :: squeeze false s'
  end.

(** Every digit of [s] comes right after a word character (a letter,
    a digit or an underscore); [prev] is the character before [s]. *)
Fixpoint digits_glued (prev : option ascii) (s : str) : bool :=
  match s with
  | [] => true
  | c :: s' =>
      (negb (is_digit c) || opt_word prev) && digits_glued (Some c) s'
  end.

(** The [Guid] elements of a Plex answer: the IMDb and TMDb ones in
    their standard form, and any other. *)
Inductive guid : Type :=
| ImdbGuid (digits : str)       (* [imdb://tt] and the digits *)
| TmdbGuid (digits : str)       (* [tmdb://] and the digits *)
| OtherGuid (text : str).

Definition guid_id (g : guid) : str :=
  match g with
  | ImdbGuid digits => chars "imdb://tt" ++ digits
  | TmdbGuid digits => chars "tmdb://" ++ digits
  | OtherGuid text => text
  end.

(** The numbers are not empty; another [Guid] mentions neither
    [imdb] nor [tmdb]. *)
Definition guid_ok (g : guid) : bool :=
  match g with
  | ImdbGuid digits | TmdbGuid digits =>
      negb (bool_decide (digits = [])) && forallb is_digit digits
  | OtherGuid text =>
      negb (contains (chars "imdb") text) && negb (contains (chars "tmdb") text)
  end.

(** The last IMDb and the last TMDb identifier of a list. *)
Definition last_ids (gs : list guid) : option str * option str :=
  fold_left
    (fun ids g =>
       match g with
       | ImdbGuid digits => (Some (chars "tt" ++ digits), snd ids)
       | TmdbGuid digits => (fst ids, Some digits)
       | OtherGuid _ => ids
       end)
    gs (None, None).

(** The shape of the identifiers [get_identifiers] finds: [tt] and
    digits, and digits. *)
Definition ids_shaped (ids : option str * option str) : Prop :=
  (forall s, fst ids = Some s ->
             exists ds, s = chars "tt" ++ ds /\ ds <> []
                        /\ forallb is_digit ds = true)
  /\ (forall s, snd ids = Some s -> s <> [] /\ forallb is_digit s = true).

(** A line the two prompts accept: [s] or [n] once trimmed and
    lowered. *)
Definition valid_answer (line : str) : bool :=
  str_eqb (lower (strip line)) (chars "s")
  || str_eqb (lower (strip line)) (chars "n").

(** The name carries one of the two standard tags, as the test of
    [process_movie] on the lowered name sees it. *)
Definition has_standard_tag (name : str) : bool :=
  is_Some_b (search false re_imdb_tag (lower name))
  || is_Some_b (search false re_tmdb_tag (lower name)).

(** What [rename_file] does once nothing stands in the way: the result
    of [os.replace] and of the write to the log. *)
Definition replace_and_log {FS : Type} `{OS FS} (w : world FS)
    (file_path new_path : str) : world FS * option bool :=
  match os_replace (fs w) file_path new_path with
  | Some fs' =>
      if log_writable w
      then (World fs' (stdin w) (now w) true
              (log w ++ [log_entry (now w) file_path new_path]),
            Some true)
      else (set_fs w fs', Some false)
  | None => (w, Some false)
  end.

(** The world after some lines of input were read. *)
Definition read_to {FS : Type} (w : world FS) (rest : list str) : world FS :=
  World (fs w) rest (now w) (log_writable w) (log w).

(** The items [list_movie_files] goes through: those of the sections
    of type [movie] whose list the server gives. *)
Definition listed (sections : list Listing.directory)
    (fetch_plex_movies : option str -> option (list video)) (v : video)
    : Prop :=
  exists section movie_videos,
    In section sections
    /\ Listing.d_type section = Some (chars "movie")
    /\ fetch_plex_movies (Listing.d_key section) = Some movie_videos
    /\ In v movie_videos.

(** A line of the log for a rename the decision asked for. *)
Definition logs_rename (cfg : config)
    (plex_request : option str -> option metadata_xml) (stamp : str)
    (v : video) (line : str) : Prop :=
  exists info,
    process_movie cfg plex_request v = Some info
    /\ skip_processing info = false
    /\ line = log_entry stamp (file_of v)
                (new_path (file_of v) (new_name_sanitized info)).

(** What a command leaves of the clock and the log: both as they
    were, but for lines added to the log that satisfy [P]. *)
Definition keeps_log {FS : Type} (P : str -> Prop) (w w' : world FS)
    : Prop :=
  now w' = now w /\ log_writable w' = log_writable w
  /\ exists entries, log w' = log w ++ entries /\ Forall P entries.

(** The body of the loop of [list_movie_files] over the sections. *)
Definition section_body {FS : Type} `{OS FS} (cfg : config)
    (fetch_plex_movies : option str -> option (list video))
    (plex_request : option str -> option metadata_xml)
    (section : Listing.directory) : cmd (FS:=FS) unit :=
  if bool_decide (Listing.d_type section = Some (chars "movie")) then
    match fetch_plex_movies (Listing.d_key section) with
    | None => ret tt
    | Some movie_videos =>
        Listing.for_each (handle_item cfg plex_request) movie_videos
    end
  else ret tt.

(** Two configurations: one with a threshold given as a string, one
    with the threshold for asking above the one for renaming and a
    negative tolerance. *)
Definition text_settings : gmap str Settings.value :=
  <[chars "PLEX_BASE_URL" := Settings.JStr (chars "http://plex:32400")]>
    (<[chars "PLEX_TOKEN" := Settings.JStr (chars "secret")]>
       (<[chars "SIMILARITY_THRESHOLD_AUTO" := Settings.JStr (chars " 95 ")]>
          ∅)).

Definition loose_settings : gmap str Settings.value :=
  <[chars "PLEX_BASE_URL" := Settings.JStr (chars "http://plex:32400")]>
    (<[chars "PLEX_TOKEN" := Settings.JStr (chars "secret")]>
       (<[chars "SIMILARITY_THRESHOLD_AUTO" := Settings.JInt 50]>
          (<[chars "SIMILARITY_THRESHOLD_ASK" := Settings.JInt 90]>
             (<[chars "YEAR_MATCH_DIFFERENCE_AUTO" := Settings.JInt (-1)]>
                ∅)))).

(** A text without whitespace that is not empty. *)
Definition solid (v : str) : Prop :=
  v <> [] /\ forallb (fun c => negb (is_space c)) v = true.

(** The block is a real match: [a[i+t] = b[j+t]] for every [t < k]. *)
Definition genuine (a b : str) (block : nat * nat * nat) : Prop :=
  let '(i, j, k) := block in
  forall t, (t < k)%nat -> Difflib.same_elt a b (i + t) (j + t) = true.

(** Before row [i]: an entry of [j2len] is the length of a real match
    that ends at [a[i-1]] and [b[j]]. *)
Definition j2len_genuine (a b : str) (i : nat) (j2len : gmap nat nat)
    : Prop :=
  map_Forall (fun j k => (k <= i /\ k <= S j)%nat
                         /\ genuine a b (i - k, S j - k, k)%nat) j2len.

(** The two sides of a window hold the same text. *)
Definition same_window (a b : str) (w : nat * nat * nat * nat) : Prop :=
  let '(alo, ahi, blo, bhi) := w in
  (ahi - alo = bhi - blo)%nat /\ genuine a b (alo, blo, (ahi - alo)%nat).

(** The places from [n] on where [x] stands in [l], counted from [n]. *)
Fixpoint positions (x : ascii) (l : str) (n : nat) : list nat :=
  match l with
  | [] => []
  | c :: l' =>
      if Ascii.eqb c x then n :: positions x l' (S n)
      else positions x l' (S n)
  end.

(** The element at [j] of [b] is indexed by [b2j]: it was not purged
    as popular. *)
Definition indexed_at (b : str) (j : nat) : bool :=
  match b !! j with
  | Some x => match Difflib.b2j b !! x with Some _ => true | None => false end
  | None => false
  end.

(** The number of indexed elements in a row right before [j]. *)
Fixpoint run_before (b : str) (j : nat) : nat :=
  match j with
  | O => O
  | S j' => if indexed_at b j' then S (run_before b j') else O
  end.

(** A list of indices that increases, from [lo] on. *)
Fixpoint ascending (lo : nat) (l : list nat) : Prop :=
  match l with
  | [] => True
  | j :: l' => (lo <= j)%nat /\ ascending (S j) l'
  end.

(** A text searched against itself, before row [i]: no entry of
    [j2len] is longer than the run of indexed elements it ends, in
    its column and in the row, and the entry on the diagonal is the
    whole run. *)
Definition diag_rows (s : str) (i : nat) (j2len : gmap nat nat) : Prop :=
  map_Forall (fun j k => (k <= run_before s (S j)
                          /\ k <= run_before s i)%nat) j2len
  /\ Difflib.j2lenget_pred j2len i = run_before s i.

(** The best block so far lies on the diagonal and is as long as
    every run of indexed elements seen. *)
Definition diag_best (s : str) (i : nat) (best : nat * nat * nat) : Prop :=
  let '(bi, bj, bk) := best in
  bi = bj /\ (bi + bk <= length s)%nat
  /\ forall i', (i' <= i)%nat -> (run_before s i' <= bk)%nat.

(** ** Facts about [difflib.SequenceMatcher] *)

Section DifflibFacts.
Import Difflib.
Variables a b : str.

Lemma j2lenget_pred_ok alo blo i j2len j :
  j2len_ok alo blo i j2len -> (alo <= i)%nat -> (blo <= j)%nat ->
  (S (j2lenget_pred j2len j) + alo <= S i
   /\ S (j2lenget_pred j2len j) + blo <= S j)%nat.
Proof.
  intros Hok Hi Hj. destruct j as [|j']; simpl; [lia|].
  destruct (j2len !! j') as [k0|] eqn:E; simpl; [|lia].
  destruct (Hok _ _ E). lia.
Qed.

Lemma scan_js_ok alo ahi blo bhi i j2len js :
  j2len_ok alo blo i j2len -> (alo <= i < ahi)%nat ->
  forall newj2len best,
    j2len_ok alo blo (S i) newj2len ->
    in_window alo ahi blo bhi best ->
    j2len_ok alo blo (S i) (fst (scan_js blo bhi i j2len js newj2len best))
    /\ in_window alo ahi blo bhi
         (snd (scan_js blo bhi i j2len js newj2len best)).
Proof.
  intros Hold Hi. induction js as [|j js IH]; intros new best Hnew Hbest;
    simpl; [done|].
  destruct (j <? blo)%nat eqn:Elo; [by apply IH|].
  destruct (bhi <=? j)%nat eqn:Ehi; [done|].
  apply Nat.ltb_ge in Elo. apply Nat.leb_gt in Ehi.
  destruct (j2lenget_pred_ok alo blo i j2len j Hold) as [Ka Kb]; [lia..|].
  apply IH.
  - apply map_Forall_insert_2; [lia|done].
  - destruct best as [[bi bj] bk]; simpl.
    destruct (bk <? S (j2lenget_pred j2len j))%nat; [|done].
    simpl. lia.
Qed.

Lemma scan_rows_ok alo ahi blo bhi n :
  forall i j2len best,
    (alo <= i)%nat -> (i + n <= ahi)%nat ->
    j2len_ok alo blo i j2len ->
    in_window alo ahi blo bhi best ->
    in_window alo ahi blo bhi
      (snd (fold_left (scan_i a b blo bhi) (seq i n) (j2len, best))).
Proof.
  induction n as [|n IH]; intros i j2len best Hi Hn Hok Hbest; simpl; [done|].
  pose proof (scan_js_ok alo ahi blo bhi i j2len
                (match a !! i with
                 | Some elt => default [] (b2j b !! elt)
                 | None => []
                 end) Hok ltac:(lia) ∅ best) as Hrow.
  destruct Hrow as [Hj Hb]; [apply map_Forall_empty|done|].
  destruct (scan_js blo bhi i j2len _ ∅ best) as [j2len' best'] eqn:E.
  simpl in *. apply IH; [lia|lia|done|done].
Qed.

Lemma extend_left_ok junk alo ahi blo bhi besti :
  forall bestj bestsize,
    in_window alo ahi blo bhi (besti, bestj, bestsize) ->
    in_window alo ahi blo bhi
      (extend_left a b junk alo blo besti bestj bestsize).
Proof.
  induction besti as [|i' IH]; intros bestj bestsize Hw; simpl; [done|].
  destruct bestj as [|j']; [done|].
  destruct (_ && _ && _ && _) eqn:E; [|done].
  apply IH. simpl in *.
  repeat (apply andb_prop in E as [E ?]).
  apply Nat.ltb_lt in E. rewrite Nat.ltb_lt in *. lia.
Qed.

Lemma extend_right_ok junk ahi bhi n :
  forall besti bestj bestsize,
    (besti + bestsize + n <= ahi)%nat -> (bestj + bestsize <= bhi)%nat ->
    let k := extend_right a b junk bhi n besti bestj bestsize in
    (bestsize <= k /\ besti + k <= ahi /\ bestj + k <= bhi)%nat.
Proof.
  induction n as [|n IH]; intros besti bestj bestsize Ha Hb; simpl; [lia|].
  destruct (_ && _ && _) eqn:E; [|lia].
  repeat (apply andb_prop in E as [E ?]). apply Nat.ltb_lt in E.
  specialize (IH besti bestj (S bestsize)). simpl in IH. lia.
Qed.

Lemma find_longest_match_ok alo ahi blo bhi :
  (alo <= ahi)%nat -> (blo <= bhi)%nat ->
  in_window alo ahi blo bhi (find_longest_match a b alo ahi blo bhi).
Proof.
  intros Ha Hb. unfold find_longest_match.
  pose proof (scan_rows_ok alo ahi blo bhi (ahi - alo) alo ∅ (alo, blo, O)
                ltac:(lia) ltac:(lia) ltac:(apply map_Forall_empty)
                ltac:(simpl; lia)) as H0.
  destruct (fold_left _ _ _) as [j2len [[i0 j0] k0]]. simpl in H0.
  pose proof (extend_left_ok false alo ahi blo bhi i0 j0 k0 H0) as H1.
  destruct (extend_left a b false alo blo i0 j0 k0) as [[i1 j1] k1].
  simpl in H1.
  pose proof (extend_right_ok false ahi bhi (ahi - (i1 + k1)) i1 j1 k1
                ltac:(lia) ltac:(lia)) as H2.
  simpl in H2.
  set (k2 := extend_right a b false bhi (ahi - (i1 + k1)) i1 j1 k1) in *.
  pose proof (extend_left_ok true alo ahi blo bhi i1 j1 k2
                ltac:(simpl; lia)) as H3.
  destruct (extend_left a b true alo blo i1 j1 k2) as [[i3 j3] k3].
  simpl in H3.
  pose proof (extend_right_ok true ahi bhi (ahi - (i3 + k3)) i3 j3 k3
                ltac:(lia) ltac:(lia)) as H4.
  simpl in *. lia.
Qed.

Lemma total_app l1 l2 : total (l1 ++ l2) = (total l1 + total l2)%nat.
Proof. induction l1 as [|x l1 IH]; simpl; [done|]. rewrite IH. lia. Qed.

Lemma sum_of_app f q1 q2 : sum_of f (q1 ++ q2) = (sum_of f q1 + sum_of f q2)%nat.
Proof. induction q1 as [|x q1 IH]; simpl; [done|]. rewrite IH. lia. Qed.

Lemma queue_pop (queue : list (nat * nat * nat * nat)) x :
  last queue = Some x -> queue = removelast queue ++ [x].
Proof.
  intros Hl. apply last_Some in Hl as [q' ->].
  by rewrite removelast_last.
Qed.

Lemma pushed_ok alo ahi blo bhi i j k queue :
  in_window alo ahi blo bhi (i, j, k) ->
  Forall window_ok queue ->
  Forall window_ok (pushed alo ahi blo bhi i j k queue)
  /\ (sum_of width_a (pushed alo ahi blo bhi i j k queue) + k
      <= sum_of width_a queue + (ahi - alo))%nat
  /\ (sum_of width_b (pushed alo ahi blo bhi i j k queue) + k
      <= sum_of width_b queue + (bhi - blo))%nat
  /\ (length (pushed alo ahi blo bhi i j k queue) <= length queue + 2)%nat.
Proof.
  intros Hw Hq. unfold pushed. simpl in Hw.
  destruct ((alo <? i)%nat && (blo <? j)%nat) eqn:E1;
    destruct ((i + k <? ahi)%nat && (j + k <? bhi)%nat) eqn:E2;
    rewrite ?andb_true_iff, ?Nat.ltb_lt in E1, E2;
    rewrite ?Forall_app, ?Forall_singleton, ?sum_of_app, ?length_app;
    simpl; repeat split; try done; try lia.
Qed.

(** The blocks found add up to no more than the windows allow. *)
Lemma blocks_loop_total fuel :
  forall queue acc r,
    Forall window_ok queue ->
    blocks_loop a b fuel queue acc = Some r ->
    (total r <= total acc + sum_of width_a queue
     /\ total r <= total acc + sum_of width_b queue)%nat.
Proof.
  induction fuel as [|fuel IH]; intros queue acc r Hq Hr; simpl in Hr;
    [done|].
  destruct (last queue) as [[[[alo ahi] blo] bhi]|] eqn:El.
  - pose proof (queue_pop _ _ El) as Hpop.
    set (rest := removelast queue) in *.
    assert (Hrest : Forall window_ok rest /\ window_ok (alo, ahi, blo, bhi)).
    { rewrite Hpop in Hq. apply Forall_app in Hq as [? Hx].
      split; [done|]. by eapply Forall_inv. }
    destruct Hrest as [Hrest [Ha Hb]].
    pose proof (find_longest_match_ok alo ahi blo bhi Ha Hb) as Hw.
    destruct (find_longest_match a b alo ahi blo bhi) as [[i j] k].
    assert (Hsum : sum_of width_a queue = (sum_of width_a rest + (ahi - alo))%nat
                 /\ sum_of width_b queue = (sum_of width_b rest + (bhi - blo))%nat).
    { rewrite Hpop, !sum_of_app. simpl. lia. }
    destruct Hsum as [Sa Sb].
    destruct k as [|k'].
    + apply IH in Hr; [lia|done].
    + destruct (pushed_ok alo ahi blo bhi i j (S k') rest Hw Hrest)
        as (Hq' & Ha' & Hb' & _).
      apply IH in Hr; [|exact Hq'].
      rewrite total_app in Hr. simpl in Hr. unfold pushed in Ha', Hb'. lia.
  - simplify_eq. lia.
Qed.

Lemma sum_of_snoc f queue q :
  sum_of f (queue ++ [q]) = (sum_of f queue + f q)%nat.
Proof. rewrite sum_of_app. simpl. lia. Qed.

Lemma weight_eq alo ahi blo bhi :
  weight (alo, ahi, blo, bhi) = (2 * (ahi - alo) + 1)%nat.
Proof. reflexivity. Qed.

Lemma blocks_loop_terminates fuel :
  forall queue acc,
    Forall window_ok queue ->
    (sum_of weight queue < fuel)%nat ->
    is_Some (blocks_loop a b fuel queue acc).
Proof.
  induction fuel as [|fuel IH]; intros queue acc Hq Hf; simpl; [lia|].
  destruct (last queue) as [[[[alo ahi] blo] bhi]|] eqn:El; [|done].
  pose proof (queue_pop _ _ El) as Hpop.
  set (rest := removelast queue) in *.
  assert (Hrest : Forall window_ok rest /\ window_ok (alo, ahi, blo, bhi)).
  { rewrite Hpop in Hq. apply Forall_app in Hq as [? Hx].
    split; [done|]. by eapply Forall_inv. }
  destruct Hrest as [Hrest [Ha Hb]].
  pose proof (find_longest_match_ok alo ahi blo bhi Ha Hb) as Hw.
  destruct (find_longest_match a b alo ahi blo bhi) as [[i j] k].
  assert (Hsum : sum_of weight queue
                 = (sum_of weight rest + (2 * (ahi - alo) + 1))%nat).
  { by rewrite Hpop, sum_of_snoc, weight_eq. }
  destruct k as [|k'].
  - apply IH; [done|lia].
  - apply IH.
    + by apply pushed_ok.
    + simpl in Hw. unfold pushed.
      destruct ((alo <? i)%nat && (blo <? j)%nat) eqn:E1;
        destruct ((i + S k' <? ahi)%nat && (j + S k' <? bhi)%nat) eqn:E2;
        rewrite ?andb_true_iff, ?Nat.ltb_lt in E1, E2;
        rewrite ?sum_of_snoc, ?weight_eq; lia.
Qed.

Lemma total_insert_block x l : total (insert_block x l) = (snd x + total l)%nat.
Proof.
  induction l as [|y l IH]; simpl; [done|].
  destruct (block_leb x y); simpl; [done|]. rewrite IH. lia.
Qed.

Lemma total_sort_blocks l : total (sort_blocks l) = total l.
Proof.
  induction l as [|x l IH]; [done|].
  change (sort_blocks (x :: l)) with (insert_block x (sort_blocks l)).
  by rewrite total_insert_block, IH.
Qed.

Lemma total_collapse l :
  forall i1 j1 k1, total (collapse i1 j1 k1 l) = (k1 + total l)%nat.
Proof.
  induction l as [|[[i2 j2] k2] l IH]; intros i1 j1 k1; simpl.
  - destruct k1; simpl; lia.
  - destruct (_ && _).
    + rewrite IH. lia.
    + destruct k1; simpl; rewrite IH; lia.
Qed.

(** [matches] is defined, and twice its value is at most
    [len(a) + len(b)]. *)
Lemma matches_bound :
  exists m, matches a b = Some m /\ (2 * m <= length a + length b)%nat.
Proof.
  unfold matches, get_matching_blocks.
  set (q0 := [(O, length a, O, length b)]).
  assert (Hq0 : Forall window_ok q0).
  { apply Forall_singleton. simpl. lia. }
  destruct (blocks_loop_terminates (2 * length a + 2) q0 [] Hq0) as [r Hr].
  { simpl. unfold weight. simpl. lia. }
  rewrite Hr. simpl. eexists. split; [done|].
  change (foldr _ O ?l) with (total l).
  rewrite total_app, total_collapse, total_sort_blocks. simpl.
  destruct (blocks_loop_total _ _ _ _ Hq0 Hr) as [Ta Tb].
  simpl in Ta, Tb. lia.
Qed.

End DifflibFacts.

(** ** The similarity score *)

Lemma calculate_ratio_range (m len : nat) :
  (2 * m <= len)%nat ->
  (0 <= Difflib.calculate_ratio m len /\ Difflib.calculate_ratio m len <= 1)%Q.
Proof.
  intros Hm. unfold Difflib.calculate_ratio.
  destruct len as [|n]; [split; discriminate|].
  assert (Hpos : (0 < inject_Z (Z.of_nat (S n)))%Q).
  { unfold Qlt, inject_Z. simpl. lia. }
  split.
  - apply Qle_shift_div_l; [exact Hpos|].
    unfold Qle, Qmult, inject_Z. simpl. lia.
  - apply Qle_shift_div_r; [exact Hpos|].
    unfold Qle, Qmult, inject_Z. simpl. lia.
Qed.

(** C6 (as amended).  The similarity score is defined for every pair
    of strings and lies between 0 and 100.  (It is not symmetric.) *)
Theorem calculate_similarity_range (a b : str) :
  exists q, calculate_similarity a b = Some q /\ (0 <= q /\ q <= 100)%Q.
Proof.
  destruct (matches_bound a b) as (m & Hm & Hle).
  unfold calculate_similarity, Difflib.ratio. rewrite Hm. simpl.
  eexists. split; [reflexivity|].
  destruct (calculate_ratio_range m (length a + length b) Hle) as [H0 H1].
  split.
  - apply Qmult_le_0_compat; [exact H0|discriminate].
  - apply Qle_trans with (1 * 100)%Q; [|discriminate].
    apply Qmult_le_compat_r; [exact H1|discriminate].
Qed.

(** The claim as stated fails: the score of [tide] against [diet] is
    25, the score of [diet] against [tide] is 50. *)
Lemma similarity_not_symmetric :
  exists q1 q2,
    calculate_similarity (chars "tide") (chars "diet") = Some q1
    /\ calculate_similarity (chars "diet") (chars "tide") = Some q2
    /\ (q1 == 25)%Q /\ (q2 == 50)%Q /\ ~ (q1 == q2)%Q.
Proof.
  eexists. eexists.
  split; [vm_compute; reflexivity|].
  split; [vm_compute; reflexivity|].
  repeat split; discriminate.
Qed.

(** ** The year pattern *)

Lemma digit_value (c : ascii) :
  is_digit c = true -> (0 <= Z.of_nat (code c - 48) <= 9)%Z.
Proof.
  unfold is_digit, in_range. rewrite andb_true_iff, !Nat.leb_le. lia.
Qed.

Lemma consumed_four (c1 c2 c3 c4 : ascii) (rest bef bef' : str) gs gs' :
  consumed (MState bef (c1 :: c2 :: c3 :: c4 :: rest) gs)
           (MState bef' rest gs') = [c1; c2; c3; c4].
Proof.
  unfold consumed. simpl ahead.
  replace (length (c1 :: c2 :: c3 :: c4 :: rest) - length rest)%nat with 4%nat
    by (simpl; lia).
  reflexivity.
Qed.

Ltac split_chars :=
  repeat match goal with
  | |- context [Ascii.eqb ?x ?y] =>
      destruct (Ascii.eqb_spec x y); subst; cbn -[Ascii.eqb at_boundary is_digit]
  | |- context [is_digit ?c] =>
      let E := fresh "Hd" in
      destruct (is_digit c) eqn:E; cbn -[Ascii.eqb at_boundary is_digit]
  | |- context [at_boundary ?s] =>
      destruct (at_boundary s); cbn -[Ascii.eqb at_boundary is_digit]
  end.

Lemma year_token_here (bef ahd : str) (m : match_obj) :
  match_here false re_year_token bef ahd = Some m ->
  exists text, group m 1 = Some text
               /\ (1900 <= int_of_digits text <= 2200)%Z.
Proof.
  unfold match_here, start_state.
  destruct ahd as [|c1 [|c2 [|c3 [|c4 rest]]]];
    cbn -[Ascii.eqb at_boundary is_digit];
    split_chars; try discriminate.
  all: intros [= <-]; unfold group; cbn -[consumed int_of_digits].
  all: rewrite consumed_four; eexists; split; [reflexivity|].
  all: unfold int_of_digits; cbn -[Z.mul Z.add Z.of_nat code Nat.sub].
  all: repeat match goal with
         | H : is_digit _ = true |- _ => apply digit_value in H
         end.
  all: try (change (code "1" - 48)%nat with 1%nat);
       try (change (code "9" - 48)%nat with 9%nat);
       try (change (code "2" - 48)%nat with 2%nat);
       try (change (code "0" - 48)%nat with 0%nat); lia.
Qed.

(** ** Facts about the matcher *)

Section ReFacts.




(** A match somewhere ahead is found by the scan. *)
Lemma search_from_app icase r (pre : str) :
  forall bef ahd,
    is_Some (match_here icase r (rev pre ++ bef) ahd) ->
    is_Some (search_from icase r bef (pre ++ ahd)).
Proof.
  induction pre as [|x pre IH]; intros bef ahd Hm; simpl in *.
  - destruct ahd; simpl; destruct (match_here _ _ _ _); done.
  - destruct (match_here icase r bef (x :: pre ++ ahd)); [done|].
    apply IH. by rewrite <- app_assoc in Hm.
Qed.

Lemma run_lit_icase (p : str) :
  forall st,
    run true (lit p) st =
    if startswith (lower p) (lower (ahead st))
    then [advance (length p) st] else [].
Proof.
  induction p as [|c p IH]; intros [bef ahd gs]; simpl.
  - done.
  - unfold step. simpl. destruct ahd as [|x xs]; simpl; [done|].
    destruct (Ascii.eqb (lower_char c) (lower_char x)); simpl; [|done].
    rewrite IH. simpl. rewrite app_nil_r.
    destruct (startswith (lower p) (lower xs)); [|done].
    unfold advance. simpl. by rewrite <- app_assoc.
Qed.

Lemma run_lit (p : str) :
  forall st,
    run false (lit p) st =
    if startswith p (ahead st) then [advance (length p) st] else [].
Proof.
  induction p as [|c p IH]; intros [bef ahd gs]; simpl.
  - done.
  - unfold step. simpl. destruct ahd as [|x xs]; simpl; [done|].
    destruct (Ascii.eqb c x); simpl; [|done].
    rewrite IH. simpl. rewrite app_nil_r.
    destruct (startswith p xs); [|done].
    unfold advance. simpl. by rewrite <- app_assoc.
Qed.

(** *** The TMDb marker patterns *)

Lemma presence_here bef ahd :
  is_Some_b (match_here true re_tmdb_presence bef ahd) =
  startswith tmdbid (lower ahd) || startswith tmdb_dash (lower ahd).
Proof.
  unfold match_here, re_tmdb_presence, start_state.
  cbn [run]. rewrite !run_lit_icase. cbn [ahead].
  change (lower (chars "tmdbid")) with tmdbid.
  change (lower (chars "tmdb-")) with tmdb_dash.
  destruct (startswith tmdbid (lower ahd));
    destruct (startswith tmdb_dash (lower ahd)); reflexivity.
Qed.

Lemma presence_search_from (ahd : str) :
  forall bef,
    is_Some_b (search_from true re_tmdb_presence bef ahd) =
    has_tmdb_marker ahd.
Proof.
  unfold has_tmdb_marker.
  induction ahd as [|x xs IH]; intros bef.
  - cbn [search_from].
    pose proof (presence_here bef []) as Hh.
    destruct (match_here true re_tmdb_presence bef []); done.
  - cbn [search_from].
    pose proof (presence_here bef (x :: xs)) as Hh.
    destruct (match_here true re_tmdb_presence bef (x :: xs)).
    + cbn [is_Some_b] in *. cbn [lower map contains].
      change (map lower_char xs) with (lower xs).
      change (lower_char x :: lower xs) with (lower (x :: xs)).
      symmetry in Hh. apply orb_true_iff in Hh as [-> | ->]; cbn [orb].
      * done.
      * by rewrite !orb_true_r.
    + rewrite IH. cbn [is_Some_b] in Hh. symmetry in Hh.
      apply orb_false_iff in Hh as [Ha Hb].
      cbn [lower map contains].
      change (map lower_char xs) with (lower xs).
      change (lower_char x :: lower xs) with (lower (x :: xs)).
      by rewrite Ha, Hb.
Qed.

(** [re.search(r'tmdbid|tmdb-', name, re.IGNORECASE)] finds a match
    exactly when the lowered name contains one of the two markers. *)
Lemma presence_spec (name : str) :
  is_Some_b (search true re_tmdb_presence name) = has_tmdb_marker name.
Proof. apply presence_search_from. Qed.

(** The explicit pattern starts with a marker. *)
Lemma explicit_here bef ahd :
  startswith tmdbid (lower ahd) = false ->
  startswith tmdb_dash (lower ahd) = false ->
  match_here true re_tmdb_explicit bef ahd = None.
Proof.
  intros Ha Hb. unfold match_here, re_tmdb_explicit, start_state.
  cbn [run cats fold_right]. rewrite !run_lit_icase. cbn [ahead].
  change (lower (chars "tmdbid")) with tmdbid.
  change (lower (chars "tmdb-")) with tmdb_dash.
  by rewrite Ha, Hb.
Qed.

Lemma explicit_search_from (ahd : str) :
  forall bef,
    has_tmdb_marker ahd = false ->
    search_from true re_tmdb_explicit bef ahd = None.
Proof.
  unfold has_tmdb_marker.
  induction ahd as [|x xs IH]; intros bef Hm; cbn [search_from].
  - by rewrite explicit_here.
  - cbn [lower map contains] in Hm.
    change (map lower_char xs) with (lower xs) in Hm.
    change (lower_char x :: lower xs) with (lower (x :: xs)) in Hm.
    apply orb_false_iff in Hm as [Ha Hb].
    apply orb_false_iff in Ha as [Ha1 Ha2].
    apply orb_false_iff in Hb as [Hb1 Hb2].
    rewrite explicit_here by done.
    apply IH. by rewrite Ha2, Hb2.
Qed.

Lemma no_marker_no_match (name : str) :
  has_tmdb_marker name = false ->
  search true re_tmdb_explicit name = None
  /\ search true re_tmdb_presence name = None.
Proof.
  intros Hm. split.
  - by apply explicit_search_from.
  - pose proof (presence_spec name) as Hp. rewrite Hm in Hp.
    by destruct (search true re_tmdb_presence name).
Qed.

(** *** The standard identifier tags *)

Lemma lower_app (s1 s2 : str) : lower (s1 ++ s2) = lower s1 ++ lower s2.
Proof. apply map_app. Qed.

Lemma lower_digits (ds : str) : forallb is_digit ds = true -> lower ds = ds.
Proof.
  induction ds as [|d ds IH]; simpl; [done|].
  rewrite andb_true_iff. intros [Hd Hds]. rewrite (IH Hds). f_equal.
  unfold lower_char, is_upper, is_digit, in_range in *.
  apply andb_true_iff in Hd as [_ Hd]. apply Nat.leb_le in Hd.
  replace (65 <=? code d)%nat with false; [done|].
  symmetry. apply Nat.leb_gt. lia.
Qed.

(** The greedy [\d*] first takes the whole run of digits. *)
Lemma star_greedy_digits (ds : str) (c : ascii) (post : str) gs :
  forallb is_digit ds = true -> is_digit c = false ->
  forall bef,
    exists tl, star_greedy false Digit bef (ds ++ c :: post) gs
               = MState (rev ds ++ bef) (c :: post) gs :: tl.
Proof.
  intros Hds Hc. induction ds as [|d ds IH]; intros bef; simpl in *.
  - rewrite Hc. by eexists.
  - apply andb_true_iff in Hds as [Hd Hds]. rewrite Hd.
    destruct (IH Hds (d :: bef)) as [tl ->].
    rewrite <- app_assoc. simpl. by eexists.
Qed.

Lemma startswith_app (p s : str) : startswith p (p ++ s) = true.
Proof.
  induction p as [|c p IH]; simpl; [done|].
  by rewrite Ascii.eqb_refl, IH.
Qed.

Lemma advance_app (p rest bef : str) gs :
  advance (length p) (MState bef (p ++ rest) gs)
  = MState (rev p ++ bef) rest gs.
Proof.
  unfold advance. simpl. by rewrite take_app_length, drop_app_length.
Qed.

(** A literal at the head of the text is passed over. *)
Lemma run_lit_app (p rest bef : str) gs :
  run false (lit p) (MState bef (p ++ rest) gs)
  = [MState (rev p ++ bef) rest gs].
Proof.
  rewrite run_lit. cbn [ahead]. by rewrite startswith_app, advance_app.
Qed.

(** A name that carries [{imdb-ttNNNN}] matches the tag pattern. *)
Lemma imdb_tag_found (pre ds post : str) :
  ds <> [] -> forallb is_digit ds = true ->
  is_Some (search false re_imdb_tag
             (lower (pre ++ chars "{imdb-tt" ++ ds ++ chars "}" ++ post))).
Proof.
  intros Hne Hds.
  rewrite !lower_app, (lower_digits ds Hds).
  change (lower (chars "{imdb-tt")) with (chars "{imdb-tt").
  change (lower (chars "}")) with (chars "}").
  apply search_from_app.
  destruct ds as [|d ds]; [done|]. simpl in Hds.
  apply andb_true_iff in Hds as [Hd Hds].
  unfold match_here, start_state, re_imdb_tag.
  cbn [run cats fold_right]. rewrite run_lit_app.
  cbn [map concat app]. unfold step at 2. cbn [ahead app atom_ok].
  rewrite Hd. cbn [before ahead groups].
  change (chars "}" ++ lower post) with ("}"%char :: lower post).
  destruct (star_greedy_digits ds "}"%char (lower post) [] Hds eq_refl
              (d :: rev (chars "{imdb-tt") ++ rev (lower pre) ++ []))
    as [tl ->].
  cbn. done.
Qed.

Lemma contains_startswith (p s : str) :
  startswith p s = true -> contains p s = true.
Proof. intros Hs. destruct s; simpl; by rewrite Hs. Qed.



End ReFacts.

Section ProcessMovieFacts.
Variable cfg : config.
Variable plex_request : option str -> option metadata_xml.

(** With a marker in the name and an answer of the server,
    [process_movie] returns from the TMDb branch. *)
Lemma process_movie_marker (v : video) (md : metadata_xml)
    (attrs : video_attrs) :
  has_tmdb_marker (name_of v) = true ->
  plex_request (v_ratingKey v) = Some md ->
  md_video md = Some attrs ->
  exists info,
    process_movie cfg plex_request v = Some info
    /\ file_path info = file_of v
    /\ imdb_id info = fst (get_identifiers md)
    /\ (search true re_tmdb_explicit (name_of v) = None ->
        tmdb_id info = snd (get_identifiers md))
    /\ (if usable_id (imdb_id info) || usable_id (tmdb_id info)
        then status_or_similarity info = TMDB_DIRECT_RENAME
             /\ skip_processing info = false
        else status_or_similarity info = NO_ID_FOR_TMDB_DIRECT_RENAME
             /\ skip_processing info = true).
Proof.
  intros Hm Hp Hv. rewrite <- presence_spec in Hm.
  unfold process_movie. fold (file_of v). fold (name_of v). cbv zeta.
  rewrite Hp, Hv. cbn [mbind option_bind].
  destruct (get_identifiers md) as [pi pt] eqn:Eid.
  destruct (search true re_tmdb_explicit (name_of v)) as [me|] eqn:E1;
    [|destruct (search true re_tmdb_presence (name_of v)) as [mp|] eqn:E2;
      [|discriminate Hm]].
  all: match goal with
       | |- context [negb (usable_id ?x) && negb (usable_id ?y)] =>
           destruct (usable_id x) eqn:Ux; destruct (usable_id y) eqn:Uy
       end; cbn [negb andb]; eexists; split; try reflexivity; cbn.
  all: rewrite ?Ux, ?Uy; cbn; repeat split; try done.
Qed.


(** An item that carries a similarity went through the comparison:
    it is not skipped, has a title and a year from the server, and a
    usable identifier. *)
Lemma process_movie_similarity (v : video) (info : movie_info) (q : Q) :
  process_movie cfg plex_request v = Some info ->
  status_or_similarity info = Similarity q ->
  skip_processing info = false
  /\ (exists t, title info = Some t)
  /\ (exists y, year info = Some y)
  /\ usable_id (imdb_id info) || usable_id (tmdb_id info) = true
  /\ file_path info = file_of v
  /\ base_name_from_file info
     = extract_basename (WORDS_TO_REMOVE cfg) (file_of v)
  /\ calculate_similarity (lower (base_name_from_file info))
                          (lower (default [] (title info))) = Some q.
Proof.
  unfold process_movie. fold (file_of v). fold (name_of v). cbv zeta.
  destruct (search true re_tmdb_explicit (name_of v)) as [me|] eqn:E1;
    [|destruct (search true re_tmdb_presence (name_of v)) as [mp|] eqn:E2].
  1, 2: destruct (plex_request (v_ratingKey v)) as [md|];
    [|by intros [= <-]];
    destruct (get_identifiers md) as [pi pt];
    destruct (md_video md) as [attrs|]; [|discriminate];
    cbn [mbind option_bind];
    match goal with
    | |- context [negb (usable_id ?x) && negb (usable_id ?y)] =>
        destruct (negb (usable_id x) && negb (usable_id y))
    end; by intros [= <-].
  destruct (_ || _); [by intros [= <-]|].
  destruct (plex_request (v_ratingKey v)) as [md|]; [|by intros [= <-]].
  destruct (get_identifiers md) as [pi pt].
  destruct (usable_id pi) eqn:Ux; destruct (usable_id pt) eqn:Uy;
    cbn [negb andb]; try (by intros [= <-]).
  all: destruct (md_video md) as [attrs|]; [|discriminate];
    cbn [mbind option_bind].
  all: destruct (calculate_similarity _ _) as [sim|] eqn:Es; [|discriminate].
  all: intros [= <-] [= <-]; cbn.
  all: rewrite ?Ux, ?Uy; repeat split; eauto.
Qed.

Lemma tag_nonempty (info : movie_info) :
  usable_id (imdb_id info) || usable_id (tmdb_id info) = true ->
  exists c s, id_for_filename_tag info = c :: s.
Proof.
  unfold id_for_filename_tag.
  destruct (usable_id (imdb_id info)); [intros _; by eexists _, _|].
  destruct (usable_id (tmdb_id info)); [intros _; by eexists _, _|].
  discriminate.
Qed.

(** The direct rename does not look at the similarity, the years or
    the thresholds. *)
Lemma decide_item_direct (cfg' : config) (info : movie_info) :
  skip_processing info = false ->
  status_or_similarity info = TMDB_DIRECT_RENAME ->
  usable_id (imdb_id info) || usable_id (tmdb_id info) = true ->
  decide_item cfg' info = Some (AUTO_RENAME (new_name_sanitized info)).
Proof.
  intros Hs Hst Hid. unfold decide_item. rewrite Hs, Hst.
  by destruct (tag_nonempty info Hid) as (c & s & ->).
Qed.

(** A name with a standard IMDb tag and no TMDb marker is skipped
    before the server is asked. *)
Lemma process_movie_tagged (v : video) :
  has_tmdb_marker (name_of v) = false ->
  is_Some (search false re_imdb_tag (lower (name_of v))) ->
  process_movie cfg plex_request v =
  Some (MovieInfo (file_of v) None None None None
          (extract_basename (WORDS_TO_REMOVE cfg) (file_of v)) true
          ALREADY_FORMATTED_ID_TAG).
Proof.
  intros Hm [m Ht]. apply no_marker_no_match in Hm as [He Hp].
  unfold process_movie. fold (file_of v). fold (name_of v). cbv zeta.
  by rewrite He, Hp, Ht.
Qed.

End ProcessMovieFacts.

(** ** Titles on which the normaliser has nothing left to do *)

Section Idempotence.


Lemma split_after_last_None c (s : str) :
  no_char c s = true -> OsPath.split_after_last c s = None.
Proof.
  unfold no_char. induction s as [|x xs IH]; simpl; [done|].
  rewrite negb_orb, andb_true_iff. intros [Hx Hxs].
  rewrite (IH Hxs). rewrite Ascii.eqb_sym.
  by destruct (Ascii.eqb c x).
Qed.





(** On a single-spaced text [\s+] only finds single blanks, and
    replacing each by a blank gives the text back. *)
Lemma sub_spaces_single (t : str) :
  single_spaced t = true ->
  forall bef, sub_go false re_spaces (fun (u : unit) _ => (u, chars " "))
                0 tt bef t = (tt, t).
Proof.
  induction t as [|c s IH]; intros Hs bef.
  - reflexivity.
  - simpl in Hs. apply andb_true_iff in Hs as [Hc Hs].
    cbn [sub_go]. unfold sub_here, match_here, start_state, re_spaces.
    cbn [run]. unfold step. cbn [ahead before groups atom_ok].
    destruct (is_space c) eqn:Ec.
    + apply andb_true_iff in Hc as [Hb Hn].
      apply Ascii.eqb_eq in Hb. subst c.
      assert (Hstar : star_greedy false Space (" "%char :: bef) s []
                      = [MState (" "%char :: bef) s []]).
      { destruct s as [|x xs]; [done|]. simpl.
        apply negb_true_iff in Hn. by rewrite Hn. }
      cbn [before ahead groups]. rewrite Hstar.
      cbn [head fmap option_fmap option_map].
      unfold to_match, consumed. cbn [ahead length m_text groups].
      replace (S (length s) - length s)%nat with 1%nat by lia.
      cbn [take length]. change (Plus Space) with re_spaces.
      rewrite (IH Hs). reflexivity.
    + cbn [head fmap option_fmap option_map].
      change (Plus Space) with re_spaces. by rewrite (IH Hs).
Qed.

Lemma sub_spaces_plain (t : str) :
  single_spaced t = true -> sub false re_spaces (chars " ") t = t.
Proof.
  intros Hs. unfold sub, sub_with. by rewrite sub_spaces_single.
Qed.



End Idempotence.

(** ** The rename executor *)

Section RenameFacts.
Context {FS : Type} `{OS FS}.

Ltac run_cmd :=
  unfold rename_file, bind, try_except, when, ret, raise, os_call,
    path_exists, log_rename, ask, set_fs; simpl.

(** C7 (as amended).  A rename attempt that succeeds appends exactly
    one line to the audit log, with the time stamp, the old path and
    the new path; an attempt that fails, is declined or finds the
    name already right appends nothing.  The lines already in the
    log are kept as they are. *)
Theorem rename_file_log (w : world FS) (file_path new_name : str) :
  log (fst (rename_file file_path new_name w)) =
  log w ++
    match snd (rename_file file_path new_name w) with
    | Some true => [log_entry (now w) file_path (new_path file_path new_name)]
    | _ => []
    end.
Proof.
  run_cmd.
  repeat (case_match; simpl in *; simplify_eq; try done);
    by rewrite app_nil_r.
Qed.



(** C10.  When the destination exists, is not a case-only variant of
    the source, and the user answers [n], [rename_file] returns
    [False]; the file system and the audit log are as before. *)
Theorem declined_overwrite_changes_nothing (w : world FS)
    (file_path new_name : str) (rest : list str) :
  os_path_exists (fs w) (new_path file_path new_name) = true ->
  lower file_path <> lower (new_path file_path new_name) ->
  ask_s_n (stdin w) = Some (chars "n", rest) ->
  rename_file file_path new_name w =
  (World (fs w) rest (now w) (log_writable w) (log w), Some false).
Proof.
  intros Hex Hlow Hask.
  assert (Hneb : str_eqb file_path (new_path file_path new_name) = false).
  { unfold str_eqb. apply bool_decide_eq_false.
    intros Heq. apply Hlow. by rewrite <- Heq. }
  assert (Hlowb : str_eqb (lower file_path)
                    (lower (new_path file_path new_name)) = false).
  { unfold str_eqb. by apply bool_decide_eq_false. }
  unfold rename_file, bind, path_exists, ask, ret. cbv zeta beta.
  rewrite Hneb. cbv beta iota. rewrite Hex, Hlowb. cbn [andb].
  by rewrite Hask.
Qed.

End RenameFacts.

(** ** The year extractor *)

Lemma year_token_search (ahd : str) :
  forall bef m,
    search_from false re_year_token bef ahd = Some m ->
    exists text, group m 1 = Some text
                 /\ (1900 <= int_of_digits text <= 2200)%Z.
Proof.
  induction ahd as [|x xs IH]; intros bef m; cbn [search_from];
    destruct (match_here false re_year_token bef _) as [m0|] eqn:E;
    try discriminate.
  - intros [= <-]. by eapply year_token_here.
  - intros [= <-]. by eapply year_token_here.
  - apply IH.
Qed.

(** The year read from a file name lies between 1900 and 2200. *)
Lemma extract_year_range (filename_str : str) (y : Z) :
  extract_year_from_filename filename_str = Some y ->
  (1900 <= y <= 2200)%Z.
Proof.
  unfold extract_year_from_filename, search.
  destruct (search_from false re_year_token [] filename_str) as [m|] eqn:E;
    [|discriminate].
  destruct (year_token_search _ _ _ E) as (text & -> & Hr).
  by intros [= <-].
Qed.

(** ** The model on known values *)

Example sub_replaces_empty_matches :
  sub false (Star (Lit "x")) (chars "-") (chars "abxd") = chars "-a-b--d-".
Proof. vm_compute. reflexivity. Qed.

Example matching_blocks_of_abxcd :
  Difflib.get_matching_blocks (chars "abxcd") (chars "abcd")
  = Some [(0, 0, 2); (3, 2, 2); (5, 4, 0)]%nat.
Proof. vm_compute. reflexivity. Qed.

Example splitext_values :
  OsPath.splitext (chars "..a.b") = (chars "..a", chars ".b")
  /\ OsPath.splitext (chars ".bashrc") = (chars ".bashrc", [])
  /\ OsPath.splitext (chars "a/b.c/d") = (chars "a/b.c/d", [])
  /\ OsPath.splitext (chars "/x/film.mkv") = (chars "/x/film", chars ".mkv").
Proof. vm_compute. repeat split; reflexivity. Qed.

Example normalise_brackets_parens_years :
  extract_basename default_words_to_remove
    (chars "/a/b/The.Film [grp] (1999) (uncut) 2001 720p.mkv")
  = chars "The Film".
Proof. vm_compute. reflexivity. Qed.

Example identifiers_of_heat :
  get_identifiers heat_metadata
  = (Some (chars "tt0113277"), Some (chars "949")).
Proof. vm_compute. reflexivity. Qed.

(** ** The decision engine *)

(** C3 (as amended).  [year_match] is false when the file name has no
    year, when the metadata has none, and when the metadata year is
    the number 0; with a year in the file name and a metadata year
    other than 0 it holds exactly when the two differ by at most
    [YEAR_DIFF_AUTO]. *)
Theorem year_match_policy (cfg : config) (info : movie_info) :
  (filename_year_val info = None \/ metadata_year_val info = None
   \/ metadata_year_val info = Some 0%Z ->
   year_match cfg info = false)
  /\ (forall f m,
        filename_year_val info = Some f ->
        metadata_year_val info = Some m -> m <> 0%Z ->
        (year_match cfg info = true
         <-> (Z.abs (f - m) <= YEAR_DIFF_AUTO cfg)%Z)).
Proof.
  unfold year_match. split.
  - intros [-> | [-> | ->]]; cbn; [done| |];
      by destruct (truthy (filename_year_val info)).
  - intros f m Hf Hm Hm0. pose proof Hf as Hr.
    apply extract_year_range in Hr. rewrite Hf, Hm. cbn.
    destruct (Z.eqb_spec f 0); [lia|].
    destruct (Z.eqb_spec m 0); [done|]. cbn.
    apply Z.leb_le.
Qed.

Lemma year_match_policy_witness :
  year_match default_config
    (MovieInfo (chars "/movies/Heat.1996.mkv") (Some (chars "tt0113277"))
       None (Some (chars "Heat")) (Some (chars "1995")) (chars "Heat")
       false (Similarity 100)) = true.
Proof.
  apply (proj2 (year_match_policy default_config _) 1996%Z 1995%Z);
    [vm_compute; reflexivity | vm_compute; reflexivity | lia
    | vm_compute; discriminate].
Defined.

(** The claim as stated fails for a metadata year of 0: both years
    are there and differ by no more than the tolerance, but
    [year_match] is false. *)
Lemma year_zero_not_matched :
  let cfg := Config [] 100 85 1900 in
  let info :=
    MovieInfo (chars "/movies/Old.Film.1900.mkv") (Some (chars "tt0000001"))
      None (Some (chars "Old Film")) (Some (chars "0")) (chars "Old Film")
      false (Similarity 100) in
  filename_year_val info = Some 1900%Z
  /\ metadata_year_val info = Some 0%Z
  /\ (Z.abs (1900 - 0) <= YEAR_DIFF_AUTO cfg)%Z
  /\ year_match cfg info = false.
Proof. vm_compute. repeat split; try reflexivity. discriminate. Qed.






(** C9.  A file name with the marker [tmdbid] or [tmdb-] (in any
    letter case), with or without a number after it, is handled by the
    TMDb branch: once the server has answered, the item is renamed at
    once whenever an identifier is usable, whatever the similarity, the
    years and the thresholds are, and it is skipped for want of an
    identifier otherwise; without a number in the name the TMDb
    identifier is the one the server supplied. *)
Theorem tmdb_marker_direct (cfg : config)
    (plex_request : option str -> option metadata_xml) (v : video)
    (md : metadata_xml) (attrs : video_attrs) :
  has_tmdb_marker (name_of v) = true ->
  plex_request (v_ratingKey v) = Some md ->
  md_video md = Some attrs ->
  exists info,
    process_movie cfg plex_request v = Some info
    /\ imdb_id info = fst (get_identifiers md)
    /\ (search true re_tmdb_explicit (name_of v) = None ->
        tmdb_id info = snd (get_identifiers md))
    /\ (if usable_id (imdb_id info) || usable_id (tmdb_id info)
        then status_or_similarity info = TMDB_DIRECT_RENAME
             /\ forall cfg' : config,
                  decide_item cfg' info
                  = Some (AUTO_RENAME (new_name_sanitized info))
        else status_or_similarity info = NO_ID_FOR_TMDB_DIRECT_RENAME
             /\ forall cfg' : config,
                  decide_item cfg' info
                  = Some (SKIP (ByStatus NO_ID_FOR_TMDB_DIRECT_RENAME))).
Proof.
  intros Hm Hp Hv.
  destruct (process_movie_marker cfg plex_request v md attrs Hm Hp Hv)
    as (info & Hinfo & _ & Himdb & Htmdb & Hcase).
  exists info. repeat split; try done.
  destruct (usable_id (imdb_id info) || usable_id (tmdb_id info)) eqn:Hid;
    destruct Hcase as [Hst Hskip]; split; try done; intros cfg'.
  - by apply decide_item_direct.
  - unfold decide_item. by rewrite Hskip, Hst.
Qed.

Lemma tmdb_marker_direct_witness :
  has_tmdb_marker (chars "Heat.TMDBID.mkv") = true
  /\ exists info,
       process_movie default_config heat_server heat_marker_only = Some info
       /\ imdb_id info = fst (get_identifiers heat_metadata)
       /\ (search true re_tmdb_explicit (chars "Heat.TMDBID.mkv") = None ->
           tmdb_id info = snd (get_identifiers heat_metadata))
       /\ (if usable_id (imdb_id info) || usable_id (tmdb_id info)
           then status_or_similarity info = TMDB_DIRECT_RENAME
                /\ forall cfg' : config,
                     decide_item cfg' info
                     = Some (AUTO_RENAME (new_name_sanitized info))
           else status_or_similarity info = NO_ID_FOR_TMDB_DIRECT_RENAME
                /\ forall cfg' : config,
                     decide_item cfg' info
                     = Some (SKIP (ByStatus NO_ID_FOR_TMDB_DIRECT_RENAME))).
Proof.
  split; [vm_compute; reflexivity|].
  apply (tmdb_marker_direct default_config heat_server heat_marker_only
           heat_metadata
           (VideoAttrs (Some (chars "Heat")) (Some (chars "1995"))));
    [vm_compute; reflexivity | reflexivity | reflexivity].
Defined.

(** ** The normaliser *)




(** C5 (as amended).  For [Movie.Name.2019.1080p.BluRay.x264-GROUP.mkv]
    and the noise words [1080p], [bluray], [x264] (or the default
    list) the normaliser returns [Movie Name -GROUP]: the release
    group after the hyphen is kept.  The year extractor returns 2019. *)
Theorem scenario_A :
  extract_basename scenario_A_words scenario_A_file
  = chars "Movie Name -GROUP"
  /\ extract_basename default_words_to_remove scenario_A_file
     = chars "Movie Name -GROUP"
  /\ extract_year_from_filename scenario_A_file = Some 2019%Z.
Proof. vm_compute. repeat split; reflexivity. Qed.

(** The claim as stated fails: the result is not [Movie Name]. *)
Lemma scenario_A_keeps_group :
  extract_basename scenario_A_words scenario_A_file
  = chars "Movie Name -GROUP"
  /\ extract_basename scenario_A_words scenario_A_file <> chars "Movie Name".
Proof. vm_compute. split; [reflexivity | discriminate]. Qed.

(** ** The rename executor on a sample volume *)

(** The claim as stated fails for an attempt that fails: the source
    is not there, [os.replace] raises, [rename_file] returns [False]
    and no line is written. *)
Lemma failed_rename_not_logged :
  let w := World (MapFS.of_list false []) [] stamp true [] in
  let r := rename_file (chars "/movies/Heat.mkv")
             (chars "Heat (1995) {imdb-tt0113277}") w in
  snd r = Some false
  /\ ~ exists line, log (fst r) = log w ++ [line].
Proof.
  cbv zeta. split; [vm_compute; reflexivity|].
  intros [line Hline]. vm_compute in Hline. discriminate Hline.
Qed.


Lemma declined_overwrite_changes_nothing_witness :
  rename_file (chars "/m/a.mkv") (chars "Heat") two_files =
  (World (fs two_files) [chars "later"] stamp true [], Some false).
Proof.
  apply (@declined_overwrite_changes_nothing MapFS.t MapFS.os two_files
           (chars "/m/a.mkv") (chars "Heat") [chars "later"]);
    [vm_compute; reflexivity | vm_compute; discriminate
    | vm_compute; reflexivity].
Defined.

(** * Further properties of the code *)

(** ** [strip] and [re.sub] on whole strings *)

Section StringFacts.

Lemma lstrip_length (s : str) : (length (lstrip s) <= length s)%nat.
Proof.
  induction s as [|c s IH]; simpl; [lia|].
  destruct (is_space c); simpl; lia.
Qed.

Lemma lstrip_lstrip (s : str) : lstrip (lstrip s) = lstrip s.
Proof.
  induction s as [|c s IH]; simpl; [done|].
  destruct (is_space c) eqn:E; [done|]. simpl. by rewrite E.
Qed.

(** A text that [lstrip] leaves alone is empty or starts with a
    character that is not whitespace. *)
Lemma lstrip_fixed_head (s : str) :
  lstrip s = s ->
  match s with c :: _ => is_space c = false | [] => True end.
Proof.
  destruct s as [|c s]; simpl; [done|].
  destruct (is_space c); [|done].
  intros Heq. pose proof (lstrip_length s) as Hl.
  rewrite Heq in Hl. simpl in Hl. lia.
Qed.

Lemma lstrip_snoc (u : str) (c : ascii) :
  is_space c = false -> lstrip (u ++ [c]) = lstrip u ++ [c].
Proof.
  intros Hc. induction u as [|x u IH]; simpl; [by rewrite Hc|].
  by destruct (is_space x).
Qed.

Lemma rstrip_cons (c : ascii) (t : str) :
  is_space c = false -> rstrip (c :: t) = c :: rstrip t.
Proof.
  intros Hc. unfold rstrip. simpl.
  by rewrite lstrip_snoc, rev_app_distr.
Qed.

Lemma rstrip_rstrip (t : str) : rstrip (rstrip t) = rstrip t.
Proof. unfold rstrip. by rewrite rev_involutive, lstrip_lstrip. Qed.

Lemma strip_strip (s : str) : strip (strip s) = strip s.
Proof.
  unfold strip.
  pose proof (lstrip_fixed_head (lstrip s) (lstrip_lstrip s)) as Hh.
  destruct (lstrip s) as [|c t]; [done|].
  rewrite (rstrip_cons c t Hh). cbn [lstrip]. rewrite Hh.
  by rewrite (rstrip_cons c _ Hh), rstrip_rstrip.
Qed.

(** What [lstrip] and [rstrip] return is a part of the text. *)
Lemma lstrip_suffix (s : str) : exists p, s = p ++ lstrip s.
Proof.
  induction s as [|c s [p Hp]]; simpl; [by exists []|].
  destruct (is_space c); [|by exists []].
  exists (c :: p). simpl. by f_equal.
Qed.

Lemma rstrip_prefix (s : str) : exists t, s = rstrip s ++ t.
Proof.
  unfold rstrip. destruct (lstrip_suffix (rev s)) as [p Hp].
  exists (rev p). rewrite <- rev_app_distr, <- Hp. by rewrite rev_involutive.
Qed.

Lemma strip_parts (s : str) : exists p t, s = p ++ strip s ++ t.
Proof.
  unfold strip. destruct (lstrip_suffix s) as [p Hp].
  destruct (rstrip_prefix (lstrip s)) as [t Ht].
  exists p, t. by rewrite <- Ht.
Qed.

Lemma single_spaced_suffix (p s : str) :
  single_spaced (p ++ s) = true -> single_spaced s = true.
Proof.
  induction p as [|c p IH]; simpl; [done|].
  rewrite andb_true_iff. intros [_ Hs]. by apply IH.
Qed.

Lemma single_spaced_prefix (p t : str) :
  single_spaced (p ++ t) = true -> single_spaced p = true.
Proof.
  induction p as [|c p IH]; simpl; [done|].
  rewrite !andb_true_iff. intros [Hc Hs]. split; [|by apply IH].
  destruct (is_space c); [|done].
  apply andb_true_iff in Hc as [Hb Hn]. rewrite Hb. simpl.
  destruct p as [|x p]; [done|]. exact Hn.
Qed.

Lemma single_spaced_strip (s : str) :
  single_spaced s = true -> single_spaced (strip s) = true.
Proof.
  destruct (strip_parts s) as (p & t & Hs). intros H.
  rewrite Hs in H. apply single_spaced_suffix in H.
  by apply single_spaced_prefix in H.
Qed.

Lemma strip_In (s : str) (c : ascii) : In c (strip s) -> In c s.
Proof.
  destruct (strip_parts s) as (p & t & Hs). intros H.
  rewrite Hs, !in_app_iff. auto.
Qed.

(** [re.sub] skips the characters of a match. *)
Lemma sub_go_skip {S : Type} icase r (repl : S -> match_obj -> S * str)
    (p : str) :
  forall (s : S) (bef rest : str),
    sub_go icase r repl (length p) s bef (p ++ rest)
    = sub_go icase r repl 0 s (rev p ++ bef) rest.
Proof.
  induction p as [|x p IH]; intros s bef rest; [done|].
  cbn [length app sub_go]. rewrite IH. simpl. by rewrite <- app_assoc.
Qed.

(** Deleting a class of characters is filtering. *)
Lemma sub_go_illegal (s : str) :
  forall bef,
    sub_go false re_illegal (fun (u : unit) _ => (u, [])) 0 tt bef s
    = (tt, List.filter (fun c => negb (illegal c)) s).
Proof.
  induction s as [|x xs IH]; intros bef.
  - reflexivity.
  - cbn [sub_go]. unfold sub_here, match_here, start_state, re_illegal.
    cbn [run]. unfold step. cbn [ahead before groups atom_ok].
    cbn [List.filter]. fold (illegal x). destruct (illegal x); cbn [negb].
    + cbn [head fmap option_fmap option_map].
      unfold to_match, consumed. cbn [ahead length m_text groups].
      replace (S (length xs) - length xs)%nat with 1%nat by lia.
      cbn [take length]. change (One _) with re_illegal.
      by rewrite IH.
    + cbn [head fmap option_fmap option_map].
      change (One _) with re_illegal. by rewrite IH.
Qed.

Lemma sub_illegal (s : str) :
  sub false re_illegal [] s = List.filter (fun c => negb (illegal c)) s.
Proof. unfold sub, sub_with. by rewrite sub_go_illegal. Qed.

(** The greedy [\s*] first takes the whole run of whitespace. *)
Lemma star_greedy_spaces (ahd : str) :
  forall bef gs,
    exists p rest tl,
      ahd = p ++ rest
      /\ forallb is_space p = true
      /\ lstrip ahd = rest
      /\ star_greedy false Space bef ahd gs
         = MState (rev p ++ bef) rest gs :: tl.
Proof.
  induction ahd as [|x xs IH]; intros bef gs.
  - exists [], [], []. by repeat split.
  - cbn [star_greedy atom_ok lstrip]. destruct (is_space x) eqn:Ex.
    + destruct (IH (x :: bef) gs) as (p & rest & tl & Hp & Hsp & Hl & ->).
      exists (x :: p), rest, (tl ++ [MState bef (x :: xs) gs]).
      repeat split; [by rewrite Hp | by simpl; rewrite Ex | done |].
      simpl. by rewrite <- app_assoc.
    + exists [], (x :: xs), []. by repeat split.
Qed.

Lemma squeeze_true (s : str) : squeeze true s = squeeze false (lstrip s).
Proof.
  induction s as [|c s IH]; simpl; [done|].
  destruct (is_space c) eqn:E; [done|]. simpl. by rewrite E.
Qed.

(** Replacing [\s+] by a blank squeezes every run of whitespace. *)
Lemma sub_go_spaces (n : nat) :
  forall (s bef : str),
    (length s <= n)%nat ->
    sub_go false re_spaces (fun (u : unit) _ => (u, chars " ")) 0 tt bef s
    = (tt, squeeze false s).
Proof.
  induction n as [|n IH]; intros s bef Hn.
  - destruct s; [done|simpl in Hn; lia].
  - destruct s as [|x xs]; [done|]. simpl in Hn.
    cbn [sub_go]. unfold sub_here, match_here, start_state, re_spaces.
    cbn [run]. unfold step. cbn [ahead before groups atom_ok squeeze].
    destruct (is_space x) eqn:Ex.
    + cbn [before ahead groups].
      destruct (star_greedy_spaces xs (x :: bef) [])
        as (p & rest & tl & Hp & Hsp & Hl & ->).
      subst xs. rewrite length_app in Hn.
      cbn [head fmap option_fmap option_map].
      unfold to_match, consumed. cbn [ahead length m_text groups].
      replace (S (length (p ++ rest)) - length rest)%nat with (S (length p))
        by (rewrite length_app; lia).
      cbn [take length]. rewrite take_app_length.
      change (Plus Space) with re_spaces.
      rewrite sub_go_skip, IH by lia.
      by rewrite squeeze_true, Hl.
    + cbn [head fmap option_fmap option_map].
      change (Plus Space) with re_spaces. by rewrite IH by lia.
Qed.

Lemma sub_spaces (s : str) :
  sub false re_spaces (chars " ") s = squeeze false s.
Proof. unfold sub, sub_with. by rewrite (sub_go_spaces (length s)). Qed.

Lemma squeeze_single_spaced (s : str) :
  single_spaced (squeeze false s) = true
  /\ single_spaced (squeeze true s) = true
  /\ match squeeze true s with
     | x :: _ => is_space x = false
     | [] => True
     end.
Proof.
  induction s as [|c s (IH1 & IH2 & IH3)]; simpl; [done|].
  destruct (is_space c) eqn:E.
  - repeat split; try done. simpl. rewrite IH2, andb_true_r.
    destruct (squeeze true s) as [|x t]; [done|]. by rewrite IH3.
  - simpl. rewrite E, IH1. done.
Qed.

Lemma squeeze_In (s : str) (c : ascii) :
  forall f, In c (squeeze f s) -> c = " "%char \/ In c s.
Proof.
  induction s as [|x s IH]; intros f; simpl; [done|].
  destruct (is_space x); [destruct f|]; simpl; intros Hin.
  - destruct (IH _ Hin); auto.
  - destruct Hin as [<-|Hin]; [auto|]. destruct (IH _ Hin); auto.
  - destruct Hin as [<-|Hin]; [auto|]. destruct (IH _ Hin); auto.
Qed.

Lemma filter_fixed (s : str) :
  forallb (fun c => negb (illegal c)) s = true ->
  List.filter (fun c => negb (illegal c)) s = s.
Proof.
  induction s as [|c s IH]; simpl; [done|].
  rewrite andb_true_iff. intros [-> Hs]. by rewrite IH.
Qed.

(** Every character of a sanitized name is a legal one. *)
Lemma sanitized_In (name : str) (c : ascii) :
  In c (sanitize_filename name) -> illegal c = false.
Proof.
  unfold sanitize_filename. intros Hin. apply strip_In in Hin.
  rewrite sub_spaces, sub_illegal in Hin.
  apply squeeze_In in Hin as [-> | Hin]; [reflexivity|].
  apply filter_In in Hin as [_ Hc]. by apply negb_true_iff.
Qed.

Lemma sanitized_single_spaced (name : str) :
  single_spaced (sanitize_filename name) = true.
Proof.
  unfold sanitize_filename. apply single_spaced_strip.
  rewrite sub_spaces. apply squeeze_single_spaced.
Qed.

End StringFacts.

(** ** [sanitize_filename] *)

(** X1.  The name [sanitize_filename] returns holds none of the nine
    characters it deletes: colon, backslash, slash, star, question
    mark, double quote, angle brackets and bar. *)
Theorem sanitize_filename_legal (name : str) :
  forallb (fun c => negb (illegal c)) (sanitize_filename name) = true.
Proof.
  apply forallb_forall. intros c Hin.
  apply negb_true_iff. by apply sanitized_In in Hin.
Qed.

(** X2.  The name [sanitize_filename] returns has no whitespace at either
    end, and inside only single blanks: every run of whitespace of
    any kind has become one blank. *)
Theorem sanitize_filename_spacing (name : str) :
  strip (sanitize_filename name) = sanitize_filename name
  /\ single_spaced (sanitize_filename name) = true.
Proof.
  split; [|apply sanitized_single_spaced].
  unfold sanitize_filename. apply strip_strip.
Qed.

(** X3.  [sanitize_filename] changes nothing in a name that has no illegal
    character, is trimmed and single-spaced; hence sanitizing twice
    is sanitizing once. *)
Theorem sanitize_filename_idempotent (name : str) :
  (forallb (fun c => negb (illegal c)) name = true ->
   strip name = name -> single_spaced name = true ->
   sanitize_filename name = name)
  /\ sanitize_filename (sanitize_filename name) = sanitize_filename name.
Proof.
  assert (Hfix : forall n,
             forallb (fun c => negb (illegal c)) n = true ->
             strip n = n -> single_spaced n = true ->
             sanitize_filename n = n).
  { intros n Hl Hs Hsp. unfold sanitize_filename.
    rewrite sub_illegal, (filter_fixed n Hl).
    by rewrite (sub_spaces_plain n Hsp). }
  split; [apply Hfix|].
  apply Hfix.
  - apply forallb_forall. intros c Hin.
    apply negb_true_iff. by apply sanitized_In in Hin.
  - unfold sanitize_filename. apply strip_strip.
  - apply sanitized_single_spaced.
Qed.

Lemma sanitize_filename_idempotent_witness :
  sanitize_filename (chars "Heat (1995) {imdb-tt0113277}")
  = chars "Heat (1995) {imdb-tt0113277}".
Proof.
  apply (proj1 (sanitize_filename_idempotent
                  (chars "Heat (1995) {imdb-tt0113277}")));
    vm_compute; reflexivity.
Defined.

(** ** Paths *)

Section PathFacts.
Import OsPath.

Lemma no_char_app (c : ascii) (s t : str) :
  no_char c (s ++ t) = no_char c s && no_char c t.
Proof.
  unfold no_char. by rewrite existsb_app, negb_orb.
Qed.

Lemma no_char_cons (c x : ascii) (s : str) :
  no_char c (x :: s) = negb (Ascii.eqb c x) && no_char c s.
Proof. unfold no_char. simpl. by rewrite negb_orb. Qed.

Lemma split_after_last_None_inv (c : ascii) (s : str) :
  split_after_last c s = None -> no_char c s = true.
Proof.
  induction s as [|x xs IH]; simpl; [done|].
  destruct (split_after_last c xs) as [[h t]|]; [done|].
  destruct (Ascii.eqb_spec x c) as [->|Hne]; [done|]. intros _.
  rewrite no_char_cons, IH by done.
  destruct (Ascii.eqb_spec c x); [congruence|done].
Qed.

(** Where the last [c] of a text is. *)
Lemma split_after_last_Some (c : ascii) (s h t : str) :
  split_after_last c s = Some (h, t) ->
  s = h ++ t /\ no_char c t = true /\ last h = Some c.
Proof.
  revert h t. induction s as [|x xs IH]; intros h t; simpl; [done|].
  destruct (split_after_last c xs) as [[h' t']|] eqn:E.
  - intros [= <- <-]. destruct (IH h' t' eq_refl) as (-> & Hn & Hl).
    repeat split; [done|].
    destruct h' as [|y h']; [done|]. exact Hl.
  - destruct (Ascii.eqb_spec x c) as [->|Hne]; [|done].
    intros [= <- <-]. repeat split.
    by apply split_after_last_None_inv.
Qed.

Lemma split_after_last_snoc (c : ascii) (h t : str) :
  no_char c t = true ->
  split_after_last c (h ++ c :: t) = Some (h ++ [c], t).
Proof.
  intros Ht. induction h as [|x h IH]; simpl.
  - rewrite (split_after_last_None c t Ht). by rewrite Ascii.eqb_refl.
  - by rewrite IH.
Qed.

Lemma lstrip_char_head (c : ascii) (s : str) :
  head (lstrip_char c s) <> Some c.
Proof.
  induction s as [|x s IH]; simpl; [done|].
  destruct (Ascii.eqb_spec x c) as [->|Hne]; [done|].
  simpl. congruence.
Qed.

Lemma last_rev (l : str) : last (rev l) = head l.
Proof. destruct l as [|x l]; [done|]. simpl. by rewrite last_snoc. Qed.

Lemma rstrip_char_last (c : ascii) (s : str) :
  last (rstrip_char c s) <> Some c.
Proof. unfold rstrip_char. rewrite last_rev. apply lstrip_char_head. Qed.

Lemma rstrip_char_fixed (c : ascii) (s : str) :
  last s <> Some c -> rstrip_char c s = s.
Proof.
  intros Hl. unfold rstrip_char.
  rewrite <- (rev_involutive s) in Hl. rewrite last_rev in Hl.
  rewrite <- (rev_involutive s) at 2. f_equal.
  destruct (rev s) as [|x l]; [done|]. simpl in *.
  destruct (Ascii.eqb_spec x c) as [->|Hne]; [done|done].
Qed.

Lemma rstrip_char_snoc (c : ascii) (s : str) :
  rstrip_char c (s ++ [c]) = rstrip_char c s.
Proof.
  unfold rstrip_char. rewrite rev_app_distr. simpl.
  by rewrite Ascii.eqb_refl.
Qed.

(** The directory [dirname] returns is made of slashes only, or does
    not end with one. *)
Lemma dirname_shape (p : str) :
  forallb (Ascii.eqb sep) (dirname p) = true
  \/ last (dirname p) <> Some sep.
Proof.
  unfold dirname.
  destruct (split_after_last sep p) as [[h t]|]; [|by left].
  destruct (forallb (Ascii.eqb sep) h) eqn:E; [by left|].
  right. apply rstrip_char_last.
Qed.

(** The extension [splitext] returns holds no slash. *)
Lemma splitext_ext_no_sep (p : str) :
  no_char sep (snd (splitext p)) = true.
Proof.
  unfold splitext.
  assert (Hbase : forall base,
             no_char sep base = true ->
             forall dir,
               no_char sep
                 (snd match split_after_last extsep base with
                      | Some (pre_dot, after) =>
                          if forallb (Ascii.eqb extsep) (removelast pre_dot)
                          then (p, [])
                          else (dir ++ removelast pre_dot, extsep :: after)
                      | None => (p, [])
                      end) = true).
  { intros base Hb dir.
    destruct (split_after_last extsep base) as [[pre_dot after]|] eqn:E;
      [|done].
    destruct (forallb _ _); [done|]. cbn [snd].
    apply split_after_last_Some in E as (-> & _ & _).
    rewrite no_char_app in Hb. apply andb_true_iff in Hb as [_ Hb].
    rewrite no_char_cons. by rewrite Hb. }
  destruct (split_after_last sep p) as [[h t]|] eqn:E.
  - apply split_after_last_Some in E as (_ & Ht & _). by apply Hbase.
  - by apply Hbase, split_after_last_None_inv.
Qed.

(** [join] of a directory and a name without slash. *)
Lemma join_plain (d b : str) :
  no_char sep b = true ->
  join d b = match last d with
             | None => b
             | Some y => if Ascii.eqb y sep then d ++ b else d ++ sep :: b
             end.
Proof.
  intros Hb. unfold join.
  assert (Hnil : last d = None -> d ++ b = b).
  { intros ->%last_None. done. }
  destruct b as [|x b].
  - destruct (last d) eqn:E; [done|]. by apply Hnil.
  - rewrite no_char_cons in Hb. apply andb_true_iff in Hb as [Hx _].
    rewrite Ascii.eqb_sym in Hx. apply negb_true_iff in Hx. rewrite Hx.
    destruct (last d) eqn:E; [done|]. by apply Hnil.
Qed.

Lemma last_not_all (d : str) (y : ascii) :
  last d = Some y -> y <> sep -> forallb (Ascii.eqb sep) d = false.
Proof.
  intros (d' & ->)%last_Some Hy. rewrite forallb_app. cbn [forallb].
  destruct (Ascii.eqb_spec sep y); [congruence|].
  by rewrite andb_false_l, andb_false_r.
Qed.

(** [basename] and [dirname] undo [join]. *)
Lemma join_split (d b : str) :
  no_char sep b = true ->
  (forallb (Ascii.eqb sep) d = true \/ last d <> Some sep) ->
  basename (join d b) = b /\ dirname (join d b) = d.
Proof.
  intros Hb Hd. rewrite (join_plain d b Hb).
  unfold basename, dirname.
  destruct (last d) as [y|] eqn:E.
  - destruct (Ascii.eqb_spec y sep) as [->|Hne].
    + destruct Hd as [Hall|Hd]; [|done].
      apply last_Some in E as [d' ->].
      rewrite <- app_assoc. cbn [app].
      rewrite (split_after_last_snoc sep d' b Hb). by rewrite Hall.
    + rewrite (split_after_last_snoc sep d b Hb).
      rewrite forallb_app, (last_not_all d y E Hne). cbn [andb].
      split; [done|]. rewrite rstrip_char_snoc.
      apply rstrip_char_fixed. congruence.
  - apply last_None in E as ->.
    by rewrite (split_after_last_None sep b Hb).
Qed.

Lemma legal_no_sep (s : str) :
  (forall c, In c s -> illegal c = false) -> no_char sep s = true.
Proof.
  intros Hs. unfold no_char. apply negb_true_iff.
  apply not_true_is_false. intros Hex.
  apply existsb_exists in Hex as (x & Hin & Hx).
  apply Ascii.eqb_eq in Hx as <-. by specialize (Hs _ Hin).
Qed.

(** The new path of [rename_file] for a name without slash. *)
Lemma new_path_parts (file_path n : str) :
  no_char sep n = true ->
  dirname (new_path file_path n) = dirname file_path
  /\ basename (new_path file_path n) = n ++ snd (splitext file_path).
Proof.
  intros Hn. unfold new_path.
  destruct (join_split (dirname file_path) (n ++ snd (splitext file_path)))
    as [Hb Hd].
  - rewrite no_char_app. by rewrite Hn, splitext_ext_no_sep.
  - apply dirname_shape.
  - by split.
Qed.

End PathFacts.

(** ** Where a renamed file goes *)

(** X4.  The path [rename_file] renames to lies in the directory of the
    file and ends with the extension of the file, whenever the new
    name holds no slash; a name from [sanitize_filename], as
    [list_movie_files] passes it, never does. *)
Theorem new_path_same_directory (file_path new_name : str) :
  (no_char "/" new_name = true ->
   OsPath.dirname (new_path file_path new_name) = OsPath.dirname file_path
   /\ OsPath.basename (new_path file_path new_name)
      = new_name ++ snd (OsPath.splitext file_path))
  /\ OsPath.dirname (new_path file_path (sanitize_filename new_name))
     = OsPath.dirname file_path
  /\ OsPath.basename (new_path file_path (sanitize_filename new_name))
     = sanitize_filename new_name ++ snd (OsPath.splitext file_path).
Proof.
  split; [apply new_path_parts|].
  apply new_path_parts, legal_no_sep. intros c. apply sanitized_In.
Qed.

Lemma new_path_same_directory_witness :
  OsPath.dirname (new_path (chars "/movies/Heat.1995.mkv") (chars "Heat (1995)"))
  = chars "/movies"
  /\ OsPath.basename
       (new_path (chars "/movies/Heat.1995.mkv") (chars "Heat (1995)"))
     = chars "Heat (1995).mkv".
Proof.
  destruct (proj1 (new_path_same_directory (chars "/movies/Heat.1995.mkv")
                     (chars "Heat (1995)"))) as [Hd Hb];
    [vm_compute; reflexivity|].
  rewrite Hd, Hb. vm_compute. split; reflexivity.
Defined.

(** ** Where [re.search] finds its match *)

Section SearchFacts.

Lemma search_from_Some icase r (ahd : str) :
  forall bef m,
    search_from icase r bef ahd = Some m ->
    exists p rest,
      ahd = p ++ rest /\ match_here icase r (rev p ++ bef) rest = Some m.
Proof.
  induction ahd as [|x xs IH]; intros bef m; cbn [search_from];
    destruct (match_here icase r bef _) as [m0|] eqn:E; try discriminate.
  - intros [= <-]. by exists [], [].
  - intros [= <-]. by exists [], (x :: xs).
  - intros Hs. destruct (IH _ _ Hs) as (p & rest & -> & Hm).
    exists (x :: p), rest. split; [done|].
    simpl. by rewrite <- app_assoc.
Qed.

(** Positions without a match are passed over. *)
Lemma search_from_skip icase r (pre : str) :
  forall bef rest,
    (forall p1 x p2, pre = p1 ++ x :: p2 ->
                     match_here icase r (rev p1 ++ bef) (x :: p2 ++ rest)
                     = None) ->
    search_from icase r bef (pre ++ rest)
    = search_from icase r (rev pre ++ bef) rest.
Proof.
  induction pre as [|x pre IH]; intros bef rest Hnone; [done|].
  cbn [app search_from].
  pose proof (Hnone [] x pre eq_refl) as H0. simpl in H0.
  rewrite H0, IH.
  - simpl. by rewrite <- app_assoc.
  - intros p1 y p2 ->. specialize (Hnone (x :: p1) y p2 eq_refl).
    simpl in Hnone. by rewrite <- app_assoc in Hnone.
Qed.

End SearchFacts.

(** ** The year token *)

Section YearFacts.

Ltac split_year :=
  repeat match goal with
  | |- context [Ascii.eqb ?x ?y] =>
      destruct (Ascii.eqb_spec x y); subst; cbn -[Ascii.eqb at_boundary is_digit]
  | |- context [is_digit ?c] =>
      let E := fresh "Hd" in
      destruct (is_digit c) eqn:E; cbn -[Ascii.eqb at_boundary is_digit]
  | |- context [at_boundary ?s] =>
      let E := fresh "Hb" in
      destruct (at_boundary s) eqn:E; cbn -[Ascii.eqb at_boundary is_digit]
  end.

Lemma digit_is_word (c : ascii) : is_digit c = true -> is_word c = true.
Proof. unfold is_word. by intros ->. Qed.

Lemma boundary_before (bef rest : str) (c : ascii) gs :
  at_boundary (MState bef (c :: rest) gs) = true ->
  is_digit c = true -> opt_word (head bef) = false.
Proof.
  unfold at_boundary. cbn [before ahead head opt_word].
  intros Hb Hc. rewrite (digit_is_word c Hc) in Hb.
  by destruct (opt_word (head bef)).
Qed.

Lemma boundary_after (bef rest : str) (c : ascii) gs :
  at_boundary (MState (c :: bef) rest gs) = true ->
  is_digit c = true -> opt_word (head rest) = false.
Proof.
  unfold at_boundary. cbn [before ahead head opt_word].
  intros Hb Hc. rewrite (digit_is_word c Hc) in Hb.
  by destruct (opt_word (head rest)).
Qed.

(** A match of the year token: four digits that make a number from
    1900 to 2200, with no word character on either side. *)
Lemma year_token_at (bef ahd : str) (m : match_obj) :
  match_here false re_year_token bef ahd = Some m ->
  exists c1 c2 c3 c4 rest,
    ahd = c1 :: c2 :: c3 :: c4 :: rest
    /\ group m 1 = Some [c1; c2; c3; c4]
    /\ forallb is_digit [c1; c2; c3; c4] = true
    /\ (1900 <= int_of_digits [c1; c2; c3; c4] <= 2200)%Z
    /\ opt_word (head bef) = false
    /\ opt_word (head rest) = false.
Proof.
  unfold match_here, start_state.
  destruct ahd as [|c1 [|c2 [|c3 [|c4 rest]]]];
    cbn -[Ascii.eqb at_boundary is_digit];
    split_year; try discriminate.
  all: intros [= <-]; unfold group; cbn -[consumed int_of_digits is_digit].
  all: rewrite consumed_four.
  all: eexists _, _, _, _, _; split; [reflexivity|]; split; [reflexivity|].
  all: unfold set_group in *; cbn [before ahead groups] in *.
  all: repeat match goal with
         | H : at_boundary (MState _ (?c :: _) _) = true |- _ =>
             apply boundary_before in H; [|first [assumption|reflexivity]]
         | H : at_boundary (MState (?c :: _) _ _) = true |- _ =>
             apply boundary_after in H; [|first [assumption|reflexivity]]
         end.
  all: split; [cbn [forallb]; rewrite ?Hd, ?Hd0; reflexivity|].
  all: split; [|split; assumption].
  all: unfold int_of_digits; cbn -[Z.mul Z.add Z.of_nat code Nat.sub].
  all: repeat match goal with
         | H : is_digit _ = true |- _ => apply digit_value in H
         end.
  all: try (change (code "1" - 48)%nat with 1%nat);
       try (change (code "9" - 48)%nat with 9%nat);
       try (change (code "2" - 48)%nat with 2%nat);
       try (change (code "0" - 48)%nat with 0%nat); lia.
Qed.

(** No match starts at a character that is not a digit, at a digit
    that follows a word character, or at the end of the text. *)
Lemma year_token_not_here (bef ahd : str) :
  match ahd with
  | c :: _ => is_digit c = false \/ opt_word (head bef) = true
  | [] => True
  end ->
  match_here false re_year_token bef ahd = None.
Proof.
  unfold match_here, start_state.
  destruct ahd as [|c rest].
  - intros _. cbn -[at_boundary]. by destruct (at_boundary _).
  - intros Hc. cbn [re_year_token cats fold_right run].
    destruct (at_boundary (MState bef (c :: rest) [])) eqn:Hb.
    + assert (Hnd : is_digit c = false).
      { destruct Hc as [Hc|Hc]; [done|].
        unfold at_boundary in Hb. cbn [before ahead head opt_word] in Hb.
        rewrite Hc in Hb. destruct (is_digit c) eqn:Hd; [|done].
        by rewrite (digit_is_word c Hd) in Hb. }
      cbn -[Ascii.eqb at_boundary is_digit].
      destruct (Ascii.eqb_spec "1" c) as [<-|]; [done|].
      destruct (Ascii.eqb_spec "2" c) as [<-|]; [done|].
      reflexivity.
    + reflexivity.
Qed.

Lemma digit_cases (c : ascii) :
  is_digit c = true ->
  In c ["0"; "1"; "2"; "3"; "4"; "5"; "6"; "7"; "8"; "9"]%char.
Proof.
  unfold is_digit, in_range, code.
  rewrite andb_true_iff, !Nat.leb_le. intros [Hlo Hhi].
  rewrite <- (ascii_nat_embedding c).
  assert (Hn : In (nat_of_ascii c) [48; 49; 50; 51; 52; 53; 54; 55; 56; 57]%nat)
    by (simpl; lia).
  simpl in Hn. simpl.
  repeat (destruct Hn as [<-|Hn]; [tauto|]). done.
Qed.

Lemma at_boundary_start (bef rest : str) (c : ascii) gs :
  opt_word (head bef) = false -> is_digit c = true ->
  at_boundary (MState bef (c :: rest) gs) = true.
Proof.
  intros Hb Hc. unfold at_boundary. cbn [before ahead head opt_word].
  by rewrite Hb, (digit_is_word c Hc).
Qed.

Lemma at_boundary_end (bef rest : str) (c : ascii) gs :
  opt_word (head rest) = false -> is_digit c = true ->
  at_boundary (MState (c :: bef) rest gs) = true.
Proof.
  intros Hb Hc. unfold at_boundary. cbn [before ahead head opt_word].
  by rewrite Hb, (digit_is_word c Hc).
Qed.

(** Four digits that make a number from 1900 to 2200, with no word
    character on either side, are a match of the year token. *)
Lemma year_token_match (bef rest : str) (c1 c2 c3 c4 : ascii) :
  forallb is_digit [c1; c2; c3; c4] = true ->
  (1900 <= int_of_digits [c1; c2; c3; c4] <= 2200)%Z ->
  opt_word (head bef) = false ->
  opt_word (head rest) = false ->
  exists m,
    match_here false re_year_token bef (c1 :: c2 :: c3 :: c4 :: rest) = Some m
    /\ group m 1 = Some [c1; c2; c3; c4].
Proof.
  cbn [forallb]. rewrite !andb_true_iff.
  intros (H1 & H2 & H3 & H4 & _) Hr Hbef Hrest.
  pose proof (digit_value c3 H3) as V3.
  pose proof (digit_value c4 H4) as V4.
  unfold int_of_digits in Hr. cbn -[Z.mul Z.add Z.of_nat code Nat.sub] in Hr.
  assert (Hcases :
    ((c1 = "1" /\ c2 = "9") \/ (c1 = "2" /\ c2 = "0")
     \/ (c1 = "2" /\ c2 = "1")
     \/ (c1 = "2" /\ c2 = "2" /\ c3 = "0" /\ c4 = "0"))%char).
  { remember (Z.of_nat (code c1 - 48)) as d1 eqn:E1.
    remember (Z.of_nat (code c2 - 48)) as d2 eqn:E2.
    remember (Z.of_nat (code c3 - 48)) as d3 eqn:E3.
    remember (Z.of_nat (code c4 - 48)) as d4 eqn:E4.
    apply digit_cases in H1, H2. simpl in H1, H2.
    repeat (destruct H1 as [<-|H1]); try done;
      repeat (destruct H2 as [<-|H2]); try done;
      vm_compute in E1, E2; try (exfalso; lia); auto.
    right. right. right. split; [done|]. split; [done|].
    assert (d3 = 0 /\ d4 = 0)%Z as [-> ->] by lia.
    apply digit_cases in H3, H4. simpl in H3, H4.
    repeat (destruct H3 as [<-|H3]); try done;
      repeat (destruct H4 as [<-|H4]); try done;
      vm_compute in E3, E4; try discriminate; auto. }
  unfold match_here, start_state.
  destruct Hcases as [[-> ->]|[[-> ->]|[[-> ->]|(-> & -> & -> & ->)]]].
  all: cbn -[Ascii.eqb at_boundary is_digit consumed].
  all: rewrite (at_boundary_start bef _ _ [] Hbef H1).
  all: cbn -[at_boundary is_digit consumed].
  all: rewrite ?H3; cbn -[at_boundary is_digit consumed].
  all: rewrite ?H4; cbn -[at_boundary is_digit consumed].
  all: unfold set_group; cbn [before ahead groups].
  all: rewrite at_boundary_end by done.
  all: cbn -[consumed]; eexists; split; [reflexivity|].
  all: unfold group; cbn -[consumed]; by rewrite consumed_four.
Qed.

End YearFacts.

(** ** [extract_year_from_filename] *)

(** X5.  The year read from a file name stands in the name as four digits
    with no letter, digit or underscore next to them on either side,
    and it is a number from 1900 to 2200. *)
Theorem extract_year_sound (filename_str : str) (y : Z) :
  extract_year_from_filename filename_str = Some y ->
  exists pre text post,
    filename_str = pre ++ text ++ post
    /\ length text = 4%nat
    /\ forallb is_digit text = true
    /\ int_of_digits text = y
    /\ (1900 <= y <= 2200)%Z
    /\ opt_word (last pre) = false
    /\ opt_word (head post) = false.
Proof.
  unfold extract_year_from_filename, search.
  destruct (search_from false re_year_token [] filename_str) as [m|] eqn:E;
    [|discriminate].
  apply search_from_Some in E as (p & rest & -> & Hm).
  apply year_token_at in Hm
    as (c1 & c2 & c3 & c4 & post & -> & -> & Hd & Hr & Hb & Ha).
  intros [= <-]. exists p, [c1; c2; c3; c4], post.
  rewrite app_nil_r, <- last_rev, rev_involutive in Hb.
  repeat split; try done; lia.
Qed.

Lemma extract_year_sound_witness :
  exists pre text post,
    chars "Heat.1995.1080p.mkv" = pre ++ text ++ post
    /\ length text = 4%nat
    /\ forallb is_digit text = true
    /\ int_of_digits text = 1995%Z
    /\ (1900 <= 1995 <= 2200)%Z
    /\ opt_word (last pre) = false
    /\ opt_word (head post) = false.
Proof.
  apply (extract_year_sound (chars "Heat.1995.1080p.mkv") 1995%Z).
  vm_compute. reflexivity.
Defined.

(** X6.  A year is only read where it starts at a word boundary: in a
    name whose every digit comes right after a letter, a digit or an
    underscore (as in [Movie_2019_x]) no year is found. *)
Theorem extract_year_needs_boundary (filename_str : str) :
  digits_glued None filename_str = true ->
  extract_year_from_filename filename_str = None.
Proof.
  intros Hg. unfold extract_year_from_filename, search.
  assert (Hs : forall ahd bef,
             digits_glued (head bef) ahd = true ->
             search_from false re_year_token bef ahd = None).
  { induction ahd as [|c ahd IH]; intros bef Hgl; cbn [search_from].
    - by rewrite year_token_not_here.
    - cbn [digits_glued] in Hgl. apply andb_true_iff in Hgl as [Hc Hgl].
      rewrite year_token_not_here.
      + by apply IH.
      + apply orb_true_iff in Hc as [Hc|Hc]; [left|by right].
        by apply negb_true_iff. }
  by rewrite Hs.
Qed.

Lemma extract_year_needs_boundary_witness :
  extract_year_from_filename (chars "Movie_2019_x264.mkv") = None.
Proof.
  apply (extract_year_needs_boundary (chars "Movie_2019_x264.mkv")).
  vm_compute. reflexivity.
Defined.

(** X7.  Four digits that make a number from 1900 to 2200 and have no
    letter, digit or underscore next to them are read as the year
    whenever no digit comes before them in the name; whatever comes
    before them, some year is found. *)
Theorem extract_year_complete (pre text post : str) :
  length text = 4%nat ->
  forallb is_digit text = true ->
  (1900 <= int_of_digits text <= 2200)%Z ->
  opt_word (last pre) = false ->
  opt_word (head post) = false ->
  is_Some (extract_year_from_filename (pre ++ text ++ post))
  /\ (forallb (fun c => negb (is_digit c)) pre = true ->
      extract_year_from_filename (pre ++ text ++ post)
      = Some (int_of_digits text)).
Proof.
  intros Hlen Hd Hr Hb Ha.
  destruct text as [|c1 [|c2 [|c3 [|c4 [|]]]]]; try discriminate Hlen.
  rewrite <- (rev_involutive pre), last_rev in Hb.
  destruct (year_token_match (rev pre) post c1 c2 c3 c4 Hd Hr Hb Ha)
    as (m & Hm & Hg).
  unfold extract_year_from_filename, search. split.
  - assert (Hsome : is_Some (search_from false re_year_token []
                               (pre ++ [c1; c2; c3; c4] ++ post))).
    { apply search_from_app. rewrite app_nil_r. cbn [app]. by rewrite Hm. }
    destruct Hsome as [m' Hm']. rewrite Hm'.
    apply search_from_Some in Hm' as (p & rest & _ & Hm').
    apply year_token_at in Hm' as (? & ? & ? & ? & ? & _ & -> & _).
    done.
  - intros Hnd. rewrite search_from_skip.
    + rewrite app_nil_r. cbn [app search_from]. rewrite Hm.
      by rewrite Hg.
    + intros p1 x p2 ->. apply year_token_not_here. left.
      rewrite forallb_app in Hnd. apply andb_true_iff in Hnd as [_ Hnd].
      simpl in Hnd. apply andb_true_iff in Hnd as [Hx _].
      by apply negb_true_iff.
Qed.

Lemma extract_year_complete_witness :
  extract_year_from_filename (chars "Heat." ++ chars "1995" ++ chars ".mkv")
  = Some 1995%Z.
Proof.
  apply (proj2 (extract_year_complete (chars "Heat.") (chars "1995")
                  (chars ".mkv") eq_refl eq_refl
                  ltac:(vm_compute; split; discriminate) eq_refl eq_refl)).
  reflexivity.
Defined.

(** ** The identifiers of the server's answer *)

Section IdentifierFacts.

(** The greedy [a*] first takes the whole run of characters [a]
    matches. *)
Lemma star_greedy_first icase (a : atom) (ahd : str) :
  forall bef gs,
    exists p rest tl,
      ahd = p ++ rest
      /\ forallb (atom_ok icase a) p = true
      /\ match rest with
         | x :: _ => atom_ok icase a x = false
         | [] => True
         end
      /\ star_greedy icase a bef ahd gs
         = MState (rev p ++ bef) rest gs :: tl.
Proof.
  induction ahd as [|x xs IH]; intros bef gs.
  - exists [], [], []. by repeat split.
  - cbn [star_greedy]. destruct (atom_ok icase a x) eqn:Ex.
    + destruct (IH (x :: bef) gs) as (p & rest & tl & Hp & Hok & Hr & ->).
      exists (x :: p), rest, (tl ++ [MState bef (x :: xs) gs]).
      repeat split; [by rewrite Hp | by simpl; rewrite Ex | done |].
      simpl. by rewrite <- app_assoc.
    + exists [], (x :: xs), []. by repeat split.
Qed.

(** The run that [a*] takes from a text made of such a run and a
    rest that does not go on with it. *)
Lemma star_greedy_run icase (a : atom) (p rest : str) :
  forallb (atom_ok icase a) p = true ->
  match rest with
  | x :: _ => atom_ok icase a x = false
  | [] => True
  end ->
  forall bef gs,
    exists tl, star_greedy icase a bef (p ++ rest) gs
               = MState (rev p ++ bef) rest gs :: tl.
Proof.
  intros Hp Hr. induction p as [|x p IH]; intros bef gs.
  - destruct rest as [|y rest]; cbn [app star_greedy]; [by eexists|].
    rewrite Hr. by eexists.
  - cbn [forallb] in Hp. apply andb_true_iff in Hp as [Hx Hp].
    cbn [app star_greedy]. rewrite Hx.
    destruct (IH Hp (x :: bef) gs) as [tl ->].
    eexists. simpl. by rewrite <- app_assoc.
Qed.

Lemma consumed_app (p rest bef bef' : str) gs gs' :
  consumed (MState bef (p ++ rest) gs) (MState bef' rest gs') = p.
Proof.
  unfold consumed. cbn [ahead].
  replace (length (p ++ rest) - length rest)%nat with (length p)
    by (rewrite length_app; lia).
  by rewrite take_app_length.
Qed.

Lemma startswith_inv (p s : str) :
  startswith p s = true -> exists rest, s = p ++ rest.
Proof.
  revert s. induction p as [|c p IH]; intros s; [by exists s|].
  destruct s as [|x s]; [done|]. cbn [startswith].
  rewrite andb_true_iff. intros [->%Ascii.eqb_eq Hs].
  destruct (IH s Hs) as [rest ->]. by exists rest.
Qed.

(** What [(\d+)] captures where it matches. *)
Lemma digits_here (bef ahd : str) (m : match_obj) :
  match_here false re_digits bef ahd = Some m ->
  exists d ds, group m 1 = Some (d :: ds)
               /\ forallb is_digit (d :: ds) = true.
Proof.
  unfold match_here, start_state, re_digits. cbn [run]. unfold step.
  cbn [ahead before groups atom_ok].
  destruct ahd as [|d rest]; [done|].
  destruct (is_digit d) eqn:Hd; [|done].
  cbn [ahead before groups].
  destruct (star_greedy_first false Digit rest (d :: bef) [])
    as (p & rest' & tl & -> & Hp & _ & ->).
  cbn [map head fmap option_fmap option_map]. intros [= <-].
  exists d, p. unfold to_match, set_group, group.
  cbn [groups m_groups find Nat.eqb fst snd fmap option_fmap option_map].
  change (d :: p ++ rest') with ((d :: p) ++ rest').
  rewrite consumed_app. split; [done|]. cbn [forallb atom_ok] in *.
  by rewrite Hd.
Qed.

(** What [(tt\d+)] captures where it matches. *)
Lemma imdb_id_here (bef ahd : str) (m : match_obj) :
  match_here false re_imdb_id bef ahd = Some m ->
  exists ds, group m 1 = Some (chars "tt" ++ ds)
             /\ ds <> [] /\ forallb is_digit ds = true.
Proof.
  unfold match_here, start_state, re_imdb_id. cbn [run].
  destruct (startswith (chars "tt") ahd) eqn:Ht;
    [|by rewrite run_lit; cbn [ahead]; rewrite Ht].
  apply startswith_inv in Ht as [rest ->].
  rewrite run_lit_app. cbn [map concat app].
  unfold step. cbn [ahead before groups atom_ok].
  destruct rest as [|d rest]; [done|].
  destruct (is_digit d) eqn:Hd; [|done].
  cbn [ahead before groups rev app chars list_ascii_of_string].
  destruct (star_greedy_first false Digit rest
              (d :: "t"%char :: "t"%char :: bef) [])
    as (p & rest' & tl & -> & Hp & _ & ->).
  cbn [app map head fmap option_fmap option_map]. intros [= <-].
  exists (d :: p). unfold to_match, set_group, group.
  cbn [groups m_groups find Nat.eqb fst snd fmap option_fmap option_map].
  change ("t"%char :: "t"%char :: d :: p ++ rest')
    with (("t"%char :: "t"%char :: d :: p) ++ rest').
  rewrite consumed_app. split; [done|]. split; [done|].
  cbn [forallb atom_ok] in *. by rewrite Hd.
Qed.

Lemma lower_digit_text (s : str) :
  forallb is_digit s = true -> lower s = s.
Proof. apply lower_digits. Qed.

(** An identifier of either form is usable: it is not empty and not
    [na] or [n/a]. *)
Lemma usable_digits (d : ascii) (ds : str) :
  forallb is_digit (d :: ds) = true -> usable_id (Some (d :: ds)) = true.
Proof.
  intros Hd. unfold usable_id. rewrite (lower_digits _ Hd).
  cbn [forallb] in Hd. apply andb_true_iff in Hd as [Hd _].
  unfold str_eqb. rewrite !bool_decide_eq_false_2; [done| |].
  all: intros [= -> _]; discriminate Hd.
Qed.

Lemma usable_imdb (ds : str) :
  forallb is_digit ds = true -> usable_id (Some (chars "tt" ++ ds)) = true.
Proof.
  intros Hd. unfold usable_id. rewrite lower_app, (lower_digits _ Hd).
  cbn. unfold str_eqb. by rewrite !bool_decide_eq_false_2.
Qed.

Lemma get_identifiers_step_shaped ids guid_id :
  ids_shaped ids -> ids_shaped (get_identifiers_step ids guid_id).
Proof.
  intros [Hi Ht]. unfold get_identifiers_step.
  destruct (contains (chars "imdb") guid_id).
  - destruct (search false re_imdb_id guid_id) as [m|] eqn:E; [|done].
    apply search_from_Some in E as (p & rest & _ & Hm).
    apply imdb_id_here in Hm as (ds & Hg & Hne & Hd).
    split; cbn [fst snd]; [|done].
    intros s. rewrite Hg. intros [= <-]. by exists ds.
  - destruct (contains (chars "tmdb") guid_id); [|done].
    destruct (search false re_digits guid_id) as [m|] eqn:E; [|done].
    apply search_from_Some in E as (p & rest & _ & Hm).
    apply digits_here in Hm as (d & ds & Hg & Hd).
    split; cbn [fst snd]; [done|].
    intros s. rewrite Hg. by intros [= <-].
Qed.

Lemma get_identifiers_shaped (md : metadata_xml) :
  ids_shaped (get_identifiers md).
Proof.
  unfold get_identifiers.
  assert (Hfold : forall gs ids,
             ids_shaped ids ->
             ids_shaped (fold_left get_identifiers_step gs ids)).
  { induction gs as [|g gs IH]; intros ids Hs; [done|].
    simpl. by apply IH, get_identifiers_step_shaped. }
  apply Hfold. by split.
Qed.

Lemma imdb_id_not_here (bef ahd : str) :
  startswith (chars "tt") ahd = false ->
  match_here false re_imdb_id bef ahd = None.
Proof.
  intros Ht. unfold match_here, start_state, re_imdb_id. cbn [run].
  rewrite run_lit. cbn [ahead]. by rewrite Ht.
Qed.

Lemma imdb_id_match (bef ds : str) :
  ds <> [] -> forallb is_digit ds = true ->
  exists m, match_here false re_imdb_id bef (chars "tt" ++ ds) = Some m
            /\ group m 1 = Some (chars "tt" ++ ds).
Proof.
  intros Hne Hd. destruct ds as [|d ds]; [done|].
  cbn [forallb] in Hd. apply andb_true_iff in Hd as [Hd Hds].
  unfold match_here, start_state, re_imdb_id. cbn [run].
  rewrite run_lit_app. cbn [map concat app].
  unfold step. cbn [ahead before groups atom_ok]. rewrite Hd.
  cbn [ahead before groups].
  destruct (star_greedy_run false Digit ds [] Hds I
              (d :: rev (chars "tt") ++ bef) []) as [tl Hs].
  rewrite app_nil_r in Hs. rewrite Hs.
  cbn [app map head fmap option_fmap option_map].
  eexists. split; [reflexivity|].
  unfold to_match, set_group, group.
  cbn [groups m_groups find Nat.eqb fst snd fmap option_fmap option_map].
  rewrite <- (app_nil_r (chars "tt" ++ d :: ds)) at 1.
  by rewrite consumed_app.
Qed.

Lemma digits_not_here (bef ahd : str) :
  match ahd with x :: _ => is_digit x = false | [] => True end ->
  match_here false re_digits bef ahd = None.
Proof.
  unfold match_here, start_state, re_digits. cbn [run]. unfold step.
  cbn [ahead before groups atom_ok].
  destruct ahd as [|x rest]; [done|]. by intros ->.
Qed.

Lemma digits_match (bef ds : str) :
  ds <> [] -> forallb is_digit ds = true ->
  exists m, match_here false re_digits bef ds = Some m
            /\ group m 1 = Some ds.
Proof.
  intros Hne Hd. destruct ds as [|d ds]; [done|].
  cbn [forallb] in Hd. apply andb_true_iff in Hd as [Hd Hds].
  unfold match_here, start_state, re_digits. cbn [run].
  unfold step. cbn [ahead before groups atom_ok]. rewrite Hd.
  cbn [ahead before groups].
  destruct (star_greedy_run false Digit ds [] Hds I (d :: bef) [])
    as [tl Hs].
  rewrite app_nil_r in Hs. rewrite Hs.
  cbn [app map head fmap option_fmap option_map].
  eexists. split; [reflexivity|].
  unfold to_match, set_group, group.
  cbn [groups m_groups find Nat.eqb fst snd fmap option_fmap option_map].
  rewrite <- (app_nil_r (d :: ds)) at 1.
  by rewrite consumed_app.
Qed.

(** A text without the first letter of [needle] does not contain it. *)
Lemma contains_no_head (c : ascii) (needle s : str) :
  no_char c s = true -> contains (c :: needle) s = false.
Proof.
  induction s as [|x s IH]; [done|].
  rewrite no_char_cons, andb_true_iff. intros [Hx Hs].
  cbn [contains startswith]. apply negb_true_iff in Hx.
  by rewrite Hx, IH.
Qed.

Lemma digits_no_char (c : ascii) (ds : str) :
  is_digit c = false -> forallb is_digit ds = true -> no_char c ds = true.
Proof.
  intros Hc. induction ds as [|d ds IH]; [done|].
  cbn [forallb]. rewrite andb_true_iff, no_char_cons. intros [Hd Hds].
  rewrite (IH Hds), andb_true_r.
  destruct (Ascii.eqb_spec c d) as [->|]; [congruence|done].
Qed.

(** Skipping a prefix in which no character can start a match. *)
Lemma search_skip_prefix icase r (pre rest : str) (ok : ascii -> bool) :
  (forall bef x s, ok x = false -> match_here icase r bef (x :: s) = None) ->
  forallb (fun x => negb (ok x)) pre = true ->
  search icase r (pre ++ rest) = search_from icase r (rev pre) rest.
Proof.
  intros Hnone Hpre. unfold search. rewrite search_from_skip.
  - by rewrite app_nil_r.
  - intros p1 x p2 ->. apply Hnone.
    rewrite forallb_app in Hpre. apply andb_true_iff in Hpre as [_ Hpre].
    cbn [forallb] in Hpre. apply andb_true_iff in Hpre as [Hx _].
    by apply negb_true_iff.
Qed.

Lemma search_from_here icase r (bef ahd : str) (m : match_obj) :
  match_here icase r bef ahd = Some m ->
  search_from icase r bef ahd = Some m.
Proof. intros Hm. destruct ahd; cbn [search_from]; by rewrite Hm. Qed.

(** One step of [get_identifiers] on a [Guid] in standard form. *)
Lemma get_identifiers_step_guid ids (g : guid) :
  guid_ok g = true ->
  get_identifiers_step ids (guid_id g) =
  match g with
  | ImdbGuid digits => (Some (chars "tt" ++ digits), snd ids)
  | TmdbGuid digits => (fst ids, Some digits)
  | OtherGuid _ => ids
  end.
Proof.
  destruct g as [ds|ds|text]; cbn [guid_ok guid_id];
    rewrite andb_true_iff, ?negb_true_iff; intros [H1 H2].
  - apply bool_decide_eq_false in H1.
    unfold get_identifiers_step.
    change (chars "imdb://tt" ++ ds) with (chars "imdb" ++ chars "://tt" ++ ds).
    rewrite (contains_startswith _ _ (startswith_app _ _)).
    change (chars "imdb" ++ chars "://tt" ++ ds)
      with (chars "imdb://" ++ chars "tt" ++ ds).
    rewrite (search_skip_prefix false re_imdb_id (chars "imdb://") _
               (fun x => Ascii.eqb x "t")).
    + destruct (imdb_id_match (rev (chars "imdb://")) ds H1 H2)
        as (m & Hm & Hg).
      by rewrite (search_from_here _ _ _ _ _ Hm), Hg.
    + intros bef x s Hx. apply imdb_id_not_here.
      cbn [startswith chars list_ascii_of_string].
      rewrite Ascii.eqb_sym. by rewrite Hx.
    + reflexivity.
  - apply bool_decide_eq_false in H1.
    unfold get_identifiers_step.
    assert (Hi : contains (chars "imdb") (chars "tmdb://" ++ ds) = false).
    { apply (contains_no_head "i" (chars "mdb")).
      rewrite no_char_app. by rewrite (digits_no_char "i" ds). }
    assert (Ht : contains (chars "tmdb") (chars "tmdb://" ++ ds) = true).
    { apply contains_startswith.
      apply (startswith_app (chars "tmdb") (chars "://" ++ ds)). }
    rewrite Hi, Ht.
    rewrite (search_skip_prefix false re_digits (chars "tmdb://") _ is_digit).
    + destruct (digits_match (rev (chars "tmdb://")) ds H1 H2)
        as (m & Hm & Hg).
      by rewrite (search_from_here _ _ _ _ _ Hm), Hg.
    + intros bef x s Hx. by apply digits_not_here.
    + reflexivity.
  - unfold get_identifiers_step. by rewrite H1, H2.
Qed.

End IdentifierFacts.

(** ** [get_identifiers] *)

(** X8.  What [get_identifiers] returns as the IMDb identifier is [tt]
    followed by digits, and as the TMDb identifier a string of
    digits; hence an identifier it found is always usable (it is
    never empty, [na] or [n/a]). *)
Theorem get_identifiers_shape (md : metadata_xml) :
  (forall s, fst (get_identifiers md) = Some s ->
             exists ds, s = chars "tt" ++ ds /\ ds <> []
                        /\ forallb is_digit ds = true)
  /\ (forall s, snd (get_identifiers md) = Some s ->
                s <> [] /\ forallb is_digit s = true)
  /\ usable_id (fst (get_identifiers md))
     = is_Some_b (fst (get_identifiers md))
  /\ usable_id (snd (get_identifiers md))
     = is_Some_b (snd (get_identifiers md)).
Proof.
  destruct (get_identifiers_shaped md) as [Hi Ht].
  split; [exact Hi|]. split; [exact Ht|].
  destruct (get_identifiers md) as [[i|] [t|]]; cbn [fst snd] in *.
  all: repeat match goal with
         | H : forall s, Some ?x = Some s -> _ |- _ =>
             specialize (H x eq_refl)
         | H : forall s, None = Some s -> _ |- _ => clear H
         end.
  all: try destruct Hi as (ds & -> & _ & Hds).
  all: try destruct Ht as [Hne Hd].
  all: try (destruct t as [|d t]; [done|]).
  all: rewrite ?(usable_imdb _ Hds), ?(usable_digits _ _ Hd); done.
Qed.

(** X9.  From a Plex answer whose [Guid] elements are in standard form
    ([imdb://tt] and digits, [tmdb://] and digits, others that mention
    neither [imdb] nor [tmdb]) [get_identifiers] reads the identifiers
    back: those of the last IMDb and the last TMDb [Guid]. *)
Theorem get_identifiers_reads_guids (gs : list guid)
    (attrs : option video_attrs) :
  forallb guid_ok gs = true ->
  get_identifiers (MetadataXml (map guid_id gs) attrs) = last_ids gs.
Proof.
  unfold get_identifiers, last_ids. cbn [md_guids].
  generalize (@None str, @None str).
  induction gs as [|g gs IH]; intros ids Hok; [done|].
  cbn [forallb] in Hok. apply andb_true_iff in Hok as [Hg Hok].
  cbn [map fold_left]. rewrite (get_identifiers_step_guid ids g Hg).
  by apply IH.
Qed.

Lemma get_identifiers_reads_guids_witness :
  get_identifiers
    (MetadataXml (map guid_id [TmdbGuid (chars "1"); OtherGuid (chars "tvdb://7");
                               ImdbGuid (chars "0113277");
                               TmdbGuid (chars "949")]) None)
  = (Some (chars "tt0113277"), Some (chars "949")).
Proof.
  apply (get_identifiers_reads_guids
           [TmdbGuid (chars "1"); OtherGuid (chars "tvdb://7");
            ImdbGuid (chars "0113277"); TmdbGuid (chars "949")] None).
  vm_compute. reflexivity.
Defined.

(** ** What [process_movie] returns *)

Section ProcessMovieCases.
Variable cfg : config.
Variable plex_request : option str -> option metadata_xml.

Lemma calculate_similarity_defined (a b : str) :
  exists q, calculate_similarity a b = Some q.
Proof.
  destruct (matches_bound a b) as (m & Hm & _).
  unfold calculate_similarity, Difflib.ratio. rewrite Hm. by eexists.
Qed.

(** The marker test, as [process_movie] makes it. *)
Lemma marker_test (name : str) :
  match search true re_tmdb_explicit name,
        match search true re_tmdb_explicit name with
        | None => search true re_tmdb_presence name
        | Some _ => None
        end with
  | Some _, _ => true
  | None, Some _ => true
  | None, None => false
  end = has_tmdb_marker name.
Proof.
  rewrite <- presence_spec.
  destruct (search true re_tmdb_explicit name) as [m|] eqn:E.
  - destruct (search true re_tmdb_presence name) eqn:Ep; [done|].
    pose proof (presence_spec name) as Hp. rewrite Ep in Hp.
    symmetry in Hp. cbn in Hp.
    apply explicit_search_from with (bef := []) in Hp.
    unfold search in E. congruence.
  - by destruct (search true re_tmdb_presence name).
Qed.


End ProcessMovieCases.

(** ** [process_movie] and the decision *)



(** ** The number after a TMDb marker *)

Section ExplicitFacts.

(** Every way [a*] matches takes a run of characters [a] matches. *)
Lemma star_greedy_In icase (a : atom) (ahd : str) :
  forall bef gs st,
    In st (star_greedy icase a bef ahd gs) ->
    exists p, ahd = p ++ ahead st
              /\ forallb (atom_ok icase a) p = true
              /\ groups st = gs.
Proof.
  induction ahd as [|x xs IH]; intros bef gs st; cbn [star_greedy].
  - intros [<-|[]]. by exists [].
  - destruct (atom_ok icase a x) eqn:Ex.
    + rewrite in_app_iff. intros [Hin|[<-|[]]].
      * destruct (IH _ _ _ Hin) as (p & Hp & Hok & Hg).
        exists (x :: p). split; [by rewrite Hp at 1|].
        split; [by cbn; rewrite Ex|done].
      * by exists [].
    + intros [<-|[]]. by exists [].
Qed.

(** Whatever [(\d+)] captures is a run of digits that is not empty. *)
Lemma group_digits_In icase (st x : mstate) :
  In x (run icase (Group 1 (Plus Digit)) st) ->
  exists d ds, find (fun g => (fst g =? 1)%nat) (groups x)
               = Some (1%nat, d :: ds)
               /\ forallb is_digit (d :: ds) = true.
Proof.
  cbn [run]. unfold step. destruct st as [bef ahd gs].
  cbn [ahead before groups atom_ok].
  destruct ahd as [|d rest]; [done|].
  destruct (is_digit d) eqn:Hd; [|done].
  cbn [ahead before groups]. rewrite in_map_iff.
  intros (st' & <- & Hin).
  apply star_greedy_In in Hin as (p & Hp & Hok & Hg).
  exists d, p. unfold set_group.
  cbn [groups find fst Nat.eqb].
  destruct st' as [bef' ahd' gs']. cbn [ahead] in *. subst rest.
  change (d :: p ++ ahd') with ((d :: p) ++ ahd').
  rewrite consumed_app. split; [done|].
  cbn [forallb atom_ok] in *. by rewrite Hd.
Qed.

Lemma explicit_here_digits (bef ahd : str) (m : match_obj) :
  match_here true re_tmdb_explicit bef ahd = Some m ->
  exists d ds, group m 1 = Some (d :: ds)
               /\ forallb is_digit (d :: ds) = true.
Proof.
  unfold match_here, re_tmdb_explicit.
  set (st := start_state bef ahd).
  destruct (head (run true _ st)) as [x|] eqn:E; [|done].
  intros [= <-].
  assert (Hin : In x (run true
                        (Cat (Alt (cats [lit (chars "tmdbid"); Star Space;
                                         One (Lit "="); Star Space])
                                  (lit (chars "tmdb-")))
                             (Group 1 (Plus Digit))) st)).
  { destruct (run true _ st) as [|y l]; [done|].
    injection E as ->. by left. }
  clear E. rename Hin into E. cbn [run] in E. apply in_concat in E as (l & Hl & Hx).
  apply in_map_iff in Hl as (st' & <- & _).
  apply group_digits_In in Hx as (d & ds & Hf & Hd).
  exists d, ds. unfold group, to_match. cbn [m_groups]. by rewrite Hf.
Qed.

Lemma explicit_search_digits (name : str) (m : match_obj) :
  search true re_tmdb_explicit name = Some m ->
  exists d ds, group m 1 = Some (d :: ds)
               /\ forallb is_digit (d :: ds) = true.
Proof.
  intros Hs. apply search_from_Some in Hs as (p & rest & _ & Hm).
  by eapply explicit_here_digits.
Qed.

Lemma usable_found (md : metadata_xml) :
  usable_id (fst (get_identifiers md)) = is_Some_b (fst (get_identifiers md))
  /\ usable_id (snd (get_identifiers md))
     = is_Some_b (snd (get_identifiers md)).
Proof.
  destruct (get_identifiers_shaped md) as [Hi Ht].
  destruct (get_identifiers md) as [[i|] [t|]]; cbn [fst snd] in *.
  all: repeat match goal with
         | H : forall s, Some ?x = Some s -> _ |- _ =>
             specialize (H x eq_refl)
         | H : forall s, None = Some s -> _ |- _ => clear H
         end.
  all: try destruct Hi as (ds & -> & _ & Hds).
  all: try destruct Ht as [Hne Hd].
  all: try (destruct t as [|d t]; [done|]).
  all: rewrite ?(usable_imdb _ Hds), ?(usable_digits _ _ Hd); done.
Qed.

End ExplicitFacts.

(** ** Items without an identifier *)

(** X11.  [process_movie] gives up for want of an identifier
    ([NO_ID_FOUND], [NO_ID_FOR_TMDB_DIRECT_RENAME]) exactly when the
    server answered, its answer holds no IMDb and no TMDb identifier,
    and the name holds no number after a TMDb marker (and is not
    skipped before as already tagged).  The tests for [na] and [n/a]
    never decide; a number in the name is always enough. *)
Theorem no_identifier_statuses (cfg : config)
    (plex_request : option str -> option metadata_xml) (v : video)
    (info : movie_info) :
  process_movie cfg plex_request v = Some info ->
  (status_or_similarity info = NO_ID_FOUND
   \/ status_or_similarity info = NO_ID_FOR_TMDB_DIRECT_RENAME)
  <-> (exists md,
         plex_request (v_ratingKey v) = Some md
         /\ get_identifiers md = (None, None)
         /\ search true re_tmdb_explicit (name_of v) = None
         /\ (has_tmdb_marker (name_of v) = true
             \/ has_standard_tag (name_of v) = false)).
Proof.
  unfold process_movie, has_standard_tag.
  fold (file_of v). fold (name_of v). cbv zeta.
  rewrite <- (presence_spec (name_of v)).
  destruct (search true re_tmdb_explicit (name_of v)) as [me|] eqn:E1;
    [|destruct (search true re_tmdb_presence (name_of v)) as [mp|] eqn:E2].
  - (* a number after the marker *)
    destruct (explicit_search_digits _ _ E1) as (d & ds & Hg & Hd).
    rewrite Hg.
    destruct (plex_request (v_ratingKey v)) as [md|].
    + destruct (get_identifiers md) as [pi pt].
      destruct (md_video md) as [attrs|]; [|discriminate].
      cbn [mbind option_bind]. rewrite (usable_digits d ds Hd).
      rewrite andb_false_r. intros [= <-]. cbn.
      split; [by intros [|]|]. by intros (md' & _ & _ & ? & _).
    + intros [= <-]. cbn.
      split; [by intros [|]|]. by intros (md' & ? & _).
  - (* a marker without number *)
    destruct (plex_request (v_ratingKey v)) as [md|].
    + pose proof (usable_found md) as [Ui Ut].
      destruct (get_identifiers md) as [pi pt] eqn:Eid. cbn [fst snd] in *.
      destruct (md_video md) as [attrs|]; [|discriminate].
      cbn [mbind option_bind]. rewrite Ui, Ut.
      destruct pi, pt; cbn [is_Some_b negb andb]; intros [= <-];
        cbn [status_or_similarity].
      4: { split; [|by right]. intros _. exists md. repeat split; auto. }
      all: split; [by intros [|]|].
      all: intros (md' & [= <-] & Hid & _); rewrite Eid in Hid;
        discriminate Hid.
    + intros [= <-]. cbn.
      split; [by intros [|]|]. by intros (md' & ? & _).
  - (* no marker *)
    destruct (is_Some_b _ || is_Some_b _) eqn:Etag.
    + intros [= <-]. cbn. split; [by intros [|]|].
      by intros (md' & _ & _ & _ & [|]).
    + destruct (plex_request (v_ratingKey v)) as [md|].
      * pose proof (usable_found md) as [Ui Ut].
        destruct (get_identifiers md) as [pi pt] eqn:Eid.
        cbn [fst snd] in *. rewrite Ui, Ut.
        destruct pi, pt; cbn [is_Some_b negb andb].
        4: { intros [= <-]. cbn. split; [|by left].
             intros _. exists md. repeat split; auto. }
        all: destruct (md_video md) as [attrs|]; [|discriminate];
          cbn [mbind option_bind];
          destruct (calculate_similarity _ _); [|discriminate];
          intros [= <-]; cbn [status_or_similarity].
        all: split; [by intros [|]|].
        all: intros (md' & [= <-] & Hid & _); rewrite Eid in Hid;
          discriminate Hid.
      * intros [= <-]. cbn.
        split; [by intros [|]|]. by intros (md' & ? & _).
Qed.

Lemma no_identifier_statuses_witness :
  let v := Video (Some (chars "/movies/Heat.1995.mkv")) (Some (chars "7")) in
  let server := fun _ : option str =>
    Some (MetadataXml [chars "tvdb://12"]
            (Some (VideoAttrs (Some (chars "Heat")) (Some (chars "1995"))))) in
  exists info,
    process_movie default_config server v = Some info
    /\ (status_or_similarity info = NO_ID_FOUND
        \/ status_or_similarity info = NO_ID_FOR_TMDB_DIRECT_RENAME).
Proof.
  cbv zeta. eexists. split; [vm_compute; reflexivity|].
  apply (no_identifier_statuses default_config
           (fun _ => Some (MetadataXml [chars "tvdb://12"]
              (Some (VideoAttrs (Some (chars "Heat")) (Some (chars "1995"))))))
           (Video (Some (chars "/movies/Heat.1995.mkv")) (Some (chars "7"))));
    [vm_compute; reflexivity|].
  eexists. split; [reflexivity|]. split; [vm_compute; reflexivity|].
  split; [vm_compute; reflexivity|]. right. vm_compute. reflexivity.
Defined.

(** ** The two prompts *)

(** X12.  The loop of a prompt passes over every line that is not [s] or
    [n] (after trimming and lowering) and returns the first that is,
    so its answer is always [s] or [n]; when the input ends before
    such a line, [input] raises. *)
Theorem ask_first_valid (bad : list str) :
  forallb (fun l => negb (valid_answer l)) bad = true ->
  ask_s_n bad = None
  /\ (forall line rest,
        valid_answer line = true ->
        ask_s_n (bad ++ line :: rest) = Some (lower (strip line), rest)
        /\ (lower (strip line) = chars "s" \/ lower (strip line) = chars "n")).
Proof.
  unfold valid_answer.
  induction bad as [|b bad IH]; cbn [forallb app ask_s_n].
  - intros _. split; [done|]. intros line rest Hv. rewrite Hv.
    split; [done|]. apply orb_true_iff in Hv as [Hv|Hv];
      apply bool_decide_eq_true in Hv; auto.
  - rewrite andb_true_iff, negb_true_iff. intros [Hb Hbad].
    rewrite Hb. by apply IH.
Qed.

Lemma ask_first_valid_witness :
  ask_s_n ([chars "yes"; chars ""] ++ chars " S " :: [chars "later"])
  = Some (chars "s", [chars "later"]).
Proof.
  apply (proj2 (ask_first_valid [chars "yes"; chars ""] eq_refl)
           (chars " S ") [chars "later"] eq_refl).
Defined.

(** ** [rename_file] with nothing or something in the way *)

Section RenamePlain.
Context {FS : Type} `{OS FS}.

Lemma str_eqb_false (a b : str) : a <> b -> str_eqb a b = false.
Proof. intros Hne. unfold str_eqb. by apply bool_decide_eq_false. Qed.

Lemma str_eqb_true (a b : str) : a = b -> str_eqb a b = true.
Proof. intros Heq. unfold str_eqb. by apply bool_decide_eq_true. Qed.

Lemma s_not_n : str_eqb (chars "s") (chars "n") = false.
Proof. reflexivity. Qed.

(** X13.  When no file has the new path, [rename_file] asks nothing and
    never raises: it calls [os.replace] and returns [True] once the
    rename is logged.  If the log cannot be written the file is
    renamed all the same, but the call returns [False]. *)
Theorem rename_without_prompt (w : world FS) (file_path new_name : str) :
  file_path <> new_path file_path new_name ->
  os_path_exists (fs w) (new_path file_path new_name) = false ->
  rename_file file_path new_name w
  = replace_and_log w file_path (new_path file_path new_name)
  /\ stdin (fst (rename_file file_path new_name w)) = stdin w
  /\ is_Some (snd (rename_file file_path new_name w))
  /\ (forall fs',
        os_replace (fs w) file_path (new_path file_path new_name) = Some fs' ->
        log_writable w = false ->
        rename_file file_path new_name w = (set_fs w fs', Some false)).
Proof.
  intros Hne Hex.
  assert (Heq : rename_file file_path new_name w
                = replace_and_log w file_path (new_path file_path new_name)).
  { unfold rename_file, replace_and_log. cbv zeta.
    generalize dependent (new_path file_path new_name). intros np Hne Hex.
    rewrite (str_eqb_false _ _ Hne).
    unfold bind, path_exists, try_except, os_call, log_rename, ret, set_fs.
    rewrite Hex. destruct w as [f si nw lw lg]. cbn.
    destruct (os_replace f file_path np); [|done]. cbn.
    by destruct lw. }
  rewrite Heq. unfold replace_and_log.
  split; [done|].
  destruct (os_replace (fs w) file_path _) as [f'|];
    [destruct (log_writable w) eqn:Hl|];
    cbn; repeat split; try done;
    intros fs' Hr; try discriminate Hr; injection Hr as <-; done.
Qed.

(** X14.  When a file has the new path (and the two do not differ by
    letter case only) and the user answers [s], the file is renamed
    over it; when the input ends without an answer, [rename_file]
    raises and nothing is renamed. *)
Theorem overwrite_confirmed (w : world FS) (file_path new_name : str) :
  os_path_exists (fs w) (new_path file_path new_name) = true ->
  lower file_path <> lower (new_path file_path new_name) ->
  (forall rest,
      ask_s_n (stdin w) = Some (chars "s", rest) ->
      rename_file file_path new_name w
      = replace_and_log (read_to w rest) file_path
          (new_path file_path new_name))
  /\ (ask_s_n (stdin w) = None ->
      rename_file file_path new_name w = (read_to w [], None)).
Proof.
  intros Hex Hlow.
  assert (Hne : file_path <> new_path file_path new_name)
    by (intros Heq; apply Hlow; by rewrite <- Heq).
  unfold rename_file, replace_and_log, read_to. cbv zeta.
  generalize dependent (new_path file_path new_name).
  intros np Hex Hlow Hne.
  rewrite (str_eqb_false _ _ Hne), (str_eqb_false _ _ Hlow).
  unfold bind, path_exists, try_except, os_call, log_rename, ret, set_fs, ask.
  rewrite Hex. cbn [andb]. destruct w as [f si nw lw lg].
  cbn [stdin fs now log_writable log].
  split.
  - intros rest ->. rewrite s_not_n. cbn.
    destruct (os_replace f file_path np); cbn; [by destruct lw|done].
  - by intros ->.
Qed.

End RenamePlain.

Lemma rename_without_prompt_witness :
  let w := World (MapFS.of_list false [(chars "/m/a.mkv", chars "one")])
             [] stamp false [] in
  rename_file (chars "/m/a.mkv") (chars "Heat") w
  = (World (MapFS.of_list false [(chars "/m/Heat.mkv", chars "one")])
       [] stamp false [],
     Some false).
Proof.
  cbv zeta.
  destruct (@rename_without_prompt MapFS.t MapFS.os
              (World (MapFS.of_list false [(chars "/m/a.mkv", chars "one")])
                 [] stamp false [])
              (chars "/m/a.mkv") (chars "Heat"))
    as (_ & _ & _ & Hunlogged);
    [vm_compute; discriminate | vm_compute; reflexivity |].
  eapply eq_trans; [eapply Hunlogged; vm_compute; reflexivity|].
  vm_compute. reflexivity.
Defined.

Lemma overwrite_confirmed_witness :
  let w := World (MapFS.of_list false [(chars "/m/a.mkv", chars "one");
                                       (chars "/m/Heat.mkv", chars "two")])
             [chars "x"; chars "S"; chars "later"] stamp true [] in
  rename_file (chars "/m/a.mkv") (chars "Heat") w
  = (World (MapFS.of_list false [(chars "/m/Heat.mkv", chars "one")])
       [chars "later"] stamp true
       [log_entry stamp (chars "/m/a.mkv") (chars "/m/Heat.mkv")],
     Some true).
Proof.
  cbv zeta.
  destruct (@overwrite_confirmed MapFS.t MapFS.os
              (World (MapFS.of_list false [(chars "/m/a.mkv", chars "one");
                                           (chars "/m/Heat.mkv", chars "two")])
                 [chars "x"; chars "S"; chars "later"] stamp true [])
              (chars "/m/a.mkv") (chars "Heat"))
    as [Hs _];
    [vm_compute; reflexivity | vm_compute; discriminate |].
  eapply eq_trans; [eapply (Hs [chars "later"]); vm_compute; reflexivity|].
  vm_compute. reflexivity.
Defined.

(** ** Items the server says nothing about *)

Section Unanswered.
Context {FS : Type} `{OS FS}.
Variable cfg : config.
Variable plex_request : option str -> option metadata_xml.

Lemma unanswered_skipped (v : video) :
  plex_request (v_ratingKey v) = None
  \/ (exists md, plex_request (v_ratingKey v) = Some md
                 /\ md_video md = None) ->
  process_movie cfg plex_request v = None
  \/ exists info, process_movie cfg plex_request v = Some info
                  /\ skip_processing info = true.
Proof.
  intros Hreq. unfold process_movie. cbv zeta.
  destruct Hreq as [->|(md & -> & ->)].
  - right. repeat case_match; eexists; split; try reflexivity; done.
  - destruct (get_identifiers md) as [pi pt]. cbn [mbind option_bind].
    repeat case_match; simplify_eq; auto;
      right; eexists; split; try reflexivity; done.
Qed.

(** X15.  When the server gives no metadata for an item, or metadata
    without a [Video] element, the item is left alone: nothing is
    asked, renamed or logged, and the listing goes on. *)
Theorem unanswered_item_untouched (v : video) (w : world FS) :
  plex_request (v_ratingKey v) = None
  \/ (exists md, plex_request (v_ratingKey v) = Some md
                 /\ md_video md = None) ->
  handle_item cfg plex_request v w = (w, Some tt).
Proof.
  intros Hreq. unfold handle_item, try_except.
  destruct (unanswered_skipped v Hreq) as [->|(info & -> & Hs)]; [done|].
  unfold decide_item. by rewrite Hs.
Qed.

End Unanswered.

Lemma unanswered_item_untouched_witness :
  handle_item default_config (fun _ => None) heat_plain two_files
  = (two_files, Some tt).
Proof.
  apply (@unanswered_item_untouched MapFS.t MapFS.os default_config
           (fun _ => None) heat_plain two_files).
  left. reflexivity.
Defined.

(** ** The listing loop *)

Section ListingFacts.
Import Listing.
Context {FS : Type} `{OS FS}.
Variable cfg : config.
Variable fetch_plex_movies : option str -> option (list video).
Variable plex_request : option str -> option metadata_xml.

Lemma keeps_log_refl P (w : world FS) : keeps_log P w w.
Proof. repeat split. exists []. by rewrite app_nil_r. Qed.

Lemma keeps_log_trans P (w1 w2 w3 : world FS) :
  keeps_log P w1 w2 -> keeps_log P w2 w3 -> keeps_log P w1 w3.
Proof.
  intros (Hn1 & Hl1 & e1 & He1 & Hf1) (Hn2 & Hl2 & e2 & He2 & Hf2).
  split; [congruence|]. split; [congruence|].
  exists (e1 ++ e2). split; [by rewrite He2, He1, app_assoc|].
  by apply Forall_app.
Qed.

Lemma keeps_log_weaken (P Q : str -> Prop) (w w' : world FS) :
  (forall line, P line -> Q line) -> keeps_log P w w' -> keeps_log Q w w'.
Proof.
  intros HPQ (Hn & Hl & e & He & Hf). repeat split; try done.
  exists e. split; [done|]. eapply Forall_impl; eauto.
Qed.

(** [rename_file] keeps the clock and writes at most its own line. *)
Lemma rename_file_keeps (file_path new_name : str) (w : world FS) :
  keeps_log
    (fun line => line = log_entry (now w) file_path
                          (new_path file_path new_name))
    w (fst (rename_file file_path new_name w)).
Proof.
  unfold keeps_log.
  unfold rename_file, bind, try_except, when, ret, raise, os_call,
    path_exists, log_rename, ask, set_fs; simpl.
  repeat (case_match; simpl in *; simplify_eq; try done);
    repeat split; try done;
    first [ by eexists [_]; split; [reflexivity|]; repeat constructor
          | by exists []; rewrite app_nil_r ].
Qed.

Lemma process_movie_file_path (v : video) (info : movie_info) :
  process_movie cfg plex_request v = Some info -> file_path info = file_of v.
Proof.
  unfold process_movie. fold (file_of v). fold (name_of v). cbv zeta.
  destruct (search true re_tmdb_explicit (name_of v)) as [me|] eqn:E1;
    [|destruct (search true re_tmdb_presence (name_of v)) as [mp|] eqn:E2].
  1, 2: destruct (plex_request (v_ratingKey v)) as [md|];
    [|by intros [= <-]];
    destruct (get_identifiers md) as [pi pt];
    destruct (md_video md) as [attrs|]; [|discriminate];
    cbn [mbind option_bind];
    match goal with
    | |- context [negb (usable_id ?x) && negb (usable_id ?y)] =>
        destruct (negb (usable_id x) && negb (usable_id y))
    end; by intros [= <-].
  destruct (_ || _); [by intros [= <-]|].
  destruct (plex_request (v_ratingKey v)) as [md|]; [|by intros [= <-]].
  destruct (get_identifiers md) as [pi pt].
  destruct (negb (usable_id pi) && negb (usable_id pt));
    [by intros [= <-]|].
  destruct (md_video md) as [attrs|]; [|discriminate].
  cbn [mbind option_bind].
  destruct (calculate_similarity _ _) as [sim|]; [|discriminate].
  by intros [= <-].
Qed.

Lemma decide_item_name (cfg' : config) (info : movie_info) (a : action) :
  decide_item cfg' info = Some a ->
  match a with
  | AUTO_RENAME n | ASK_CONFIRM n =>
      n = new_name_sanitized info /\ skip_processing info = false
  | SKIP _ => True
  end.
Proof.
  unfold decide_item.
  repeat case_match; simplify_eq; try done; intros [= <-]; done.
Qed.

(** One item: nothing raises, and the log gets at most the line of
    its rename. *)
Lemma handle_item_keeps (v : video) (w : world FS) :
  snd (handle_item cfg plex_request v w) = Some tt
  /\ keeps_log (logs_rename cfg plex_request (now w) v)
       w (fst (handle_item cfg plex_request v w)).
Proof.
  unfold handle_item, try_except.
  destruct (process_movie cfg plex_request v) as [info|] eqn:Ep;
    [|split; [done|apply keeps_log_refl]].
  pose proof (process_movie_file_path v info Ep) as Hfp.
  destruct (decide_item cfg info) as [a|] eqn:Ed;
    [|split; [done|apply keeps_log_refl]].
  pose proof (decide_item_name cfg info a Ed) as Hname.
  assert (Hren : forall w0 : world FS,
             now w0 = now w ->
             keeps_log (logs_rename cfg plex_request (now w) v) w0
               (fst (rename_file (file_path info)
                       (new_name_sanitized info) w0))
             \/ skip_processing info = true).
  { intros w0 Hn. destruct (skip_processing info) eqn:Hs; [by right|left].
    eapply keeps_log_weaken; [|apply rename_file_keeps].
    intros line ->. exists info. rewrite Hn, Hfp. by repeat split. }
  destruct a as [n|n|why]; cbn [perform].
  - destruct Hname as [-> Hs]. unfold bind, ret.
    destruct (Hren w eq_refl) as [Hk|Hk]; [|congruence].
    destruct (rename_file _ _ w) as [w' [b|]]; cbn in *; by split.
  - destruct Hname as [-> Hs]. unfold bind, ret, ask.
    destruct (ask_s_n (stdin w)) as [[answer rest]|].
    + destruct (str_eqb answer (chars "s")).
      * destruct (Hren (World (fs w) rest (now w) (log_writable w) (log w))
                    eq_refl) as [Hk|Hk]; [|congruence].
        destruct (rename_file _ _ _) as [w' [b|]]; cbn in *;
          (split; [done|]);
          (eapply keeps_log_trans; [|exact Hk]);
          repeat split; exists []; by rewrite app_nil_r.
      * split; [done|]. cbn. repeat split. exists [].
        by rewrite app_nil_r.
    + split; [done|]. cbn. repeat split. exists []. by rewrite app_nil_r.
  - split; [done|]. apply keeps_log_refl.
Qed.

(** The items of a section, one after the other. *)
Lemma for_each_items_keeps (vs : list video) :
  forall (w : world FS) (P : str -> Prop),
    (forall v line, In v vs ->
                    logs_rename cfg plex_request (now w) v line -> P line) ->
    snd (for_each (handle_item cfg plex_request) vs w) = Some tt
    /\ keeps_log P w
         (fst (for_each (handle_item cfg plex_request) vs w)).
Proof.
  induction vs as [|v vs IH]; intros w P HP; cbn [for_each].
  - split; [done|apply keeps_log_refl].
  - unfold bind.
    destruct (handle_item_keeps v w) as [Hs Hk].
    destruct (handle_item cfg plex_request v w) as [w1 r]. cbn in Hs, Hk.
    subst r.
    assert (Hn : now w1 = now w) by apply Hk.
    destruct (IH w1 P) as [Hs' Hk'].
    { intros v' line Hin. rewrite Hn. apply HP. by right. }
    split; [done|].
    eapply keeps_log_trans; [|exact Hk'].
    eapply keeps_log_weaken; [|exact Hk]. intros line. apply HP. by left.
Qed.

Lemma for_each_sections_keeps (sections : list directory) :
  forall (w : world FS) (P : str -> Prop),
    (forall v line, listed sections fetch_plex_movies v ->
                    logs_rename cfg plex_request (now w) v line -> P line) ->
    snd (for_each (section_body cfg fetch_plex_movies plex_request)
           sections w) = Some tt
    /\ keeps_log P w (fst (for_each (section_body cfg fetch_plex_movies plex_request)
                 sections w)).
Proof.
  induction sections as [|s ss IH]; intros w P HP; cbn [for_each].
  - split; [done|apply keeps_log_refl].
  - unfold bind.
    set (body := section_body cfg fetch_plex_movies plex_request).
    assert (Hbody : snd (body s w) = Some tt
                    /\ keeps_log P w (fst (body s w))).
    { unfold body, section_body. case_bool_decide as Ht;
        [|split; [done|apply keeps_log_refl]].
      destruct (fetch_plex_movies (d_key s)) as [vs|] eqn:Ef;
        [|split; [done|apply keeps_log_refl]].
      apply for_each_items_keeps. intros v line Hin. apply HP.
      exists s, vs. repeat split; try done. by left. }
    destruct Hbody as [Hs Hk].
    destruct (body s w) as [w1 r]. cbn in Hs, Hk. subst r.
    assert (Hn : now w1 = now w) by apply Hk.
    destruct (IH w1 P) as [Hs' Hk'].
    { intros v line (s' & vs & Hin & Hrest). rewrite Hn. apply HP.
      exists s', vs. split; [by right|done]. }
    split; [done|].
    eapply keeps_log_trans; [exact Hk|exact Hk'].
Qed.

Lemma for_each_app {A : Type} (body : A -> cmd (FS:=FS) unit)
    (l1 l2 : list A) (w : world FS) :
  snd (for_each body l1 w) = Some tt ->
  for_each body (l1 ++ l2) w = for_each body l2 (fst (for_each body l1 w)).
Proof.
  revert w. induction l1 as [|x l1 IH]; intros w; cbn [for_each app].
  - done.
  - unfold bind. destruct (body x w) as [w1 [[]|]]; [|done].
    apply IH.
Qed.

End ListingFacts.

(** ** [list_movie_files] *)

Section ListMovieFilesTheorems.
Import Listing.
Context {FS : Type} `{OS FS}.
Variable cfg : config.
Variable fetch_plex_movies : option str -> option (list video).
Variable plex_request : option str -> option metadata_xml.

(** X16.  [list_movie_files] never raises, whatever the server answers and
    whatever is typed: an exception while an item is handled (the end
    of the input included) stops that item only.  The clock and the
    log stay as they are but for the lines added, and every line added
    is the line of the rename of an item of a movie section to the
    name [title (year) {tag}] (sanitized) of that item. *)
Theorem list_movie_files_log (fetch_plex_sections : option (list directory))
    (w : world FS) :
  let r := list_movie_files cfg fetch_plex_sections fetch_plex_movies
             plex_request w in
  snd r = Some tt
  /\ now (fst r) = now w
  /\ log_writable (fst r) = log_writable w
  /\ exists entries,
       log (fst r) = log w ++ entries
       /\ Forall
            (fun line =>
               exists v,
                 listed (default [] fetch_plex_sections) fetch_plex_movies v
                 /\ logs_rename cfg plex_request (now w) v line)
            entries.
Proof.
  cbv zeta. unfold list_movie_files.
  destruct fetch_plex_sections as [sections|]; cbn [default].
  - destruct (for_each_sections_keeps cfg fetch_plex_movies plex_request
                sections w
                (fun line =>
                   exists v, listed sections fetch_plex_movies v
                             /\ logs_rename cfg plex_request (now w) v line))
      as [Hs (Hn & Hl & e & He & Hf)].
    { intros v line Hv Hline. by exists v. }
    unfold section_body in *. by repeat split; [..|exists e].
  - cbn. repeat split. exists []. by rewrite app_nil_r.
Qed.

(** X17.  The sections are handled one after the other, each from the world
    the ones before left; a section that is not of type [movie], or
    whose items the server does not give, changes nothing. *)
Theorem list_movie_files_sections (sections1 sections2 : list directory)
    (section : directory) (w : world FS) :
  list_movie_files cfg (Some (sections1 ++ sections2)) fetch_plex_movies
    plex_request w
  = list_movie_files cfg (Some sections2) fetch_plex_movies plex_request
      (fst (list_movie_files cfg (Some sections1) fetch_plex_movies
              plex_request w))
  /\ (d_type section <> Some (chars "movie")
      \/ fetch_plex_movies (d_key section) = None ->
      list_movie_files cfg (Some (section :: sections2)) fetch_plex_movies
        plex_request w
      = list_movie_files cfg (Some sections2) fetch_plex_movies
          plex_request w).
Proof.
  split.
  - unfold list_movie_files. apply for_each_app.
    apply (for_each_sections_keeps cfg fetch_plex_movies plex_request
             sections1 w (fun _ => True)).
    done.
  - intros Hskip. unfold list_movie_files. cbn [for_each]. unfold bind.
    case_bool_decide as Ht.
    + destruct Hskip as [Hskip| ->]; [done|]. done.
    + done.
Qed.

End ListMovieFilesTheorems.

Lemma list_movie_files_sections_witness :
  Listing.list_movie_files default_config
    (Some [Listing.Directory (Some (chars "show")) (Some (chars "2"))])
    (fun _ => Some [heat_plain]) heat_server case_volume
  = Listing.list_movie_files default_config (Some [])
      (fun _ => Some [heat_plain]) heat_server case_volume.
Proof.
  apply (proj2 (@list_movie_files_sections MapFS.t MapFS.os default_config
                  (fun _ => Some [heat_plain]) heat_server [] []
                  (Listing.Directory (Some (chars "show")) (Some (chars "2")))
                  case_volume)).
  left. discriminate.
Defined.

(** ** The check of the configuration *)

Section SettingsFacts.
Import Settings.
Variable max_str_digits : nat.

Ltac run_stmt :=
  unfold verify_and_load_config, Settings.try_except, Settings.bind, lift,
    assign, read, Settings.ret, Settings.raise, getitem, get.

(** [verify_and_load_config], statement by statement, on a dictionary
    that has the two required keys. *)
Lemma verify_run (d : gmap str value) (debug : bool) (g : globals)
    (url token : value) :
  d !! chars "PLEX_BASE_URL" = Some url ->
  d !! chars "PLEX_TOKEN" = Some token ->
  let words := default (JList (map JStr default_words_to_remove))
                 (d !! chars "WORDS_TO_REMOVE_FROM_FILENAME") in
  let caught (g' : globals) (e : exn) : globals * result bool :=
    match e with
    | KeyError | ValueError => (g', Ok false)
    | _ => (g', Raised e)
    end in
  verify_and_load_config max_str_digits (JDict d) debug g =
  match int max_str_digits
          (default (JInt 100) (d !! chars "SIMILARITY_THRESHOLD_AUTO")) with
  | Raised e =>
      caught (Globals url token words (SIMILARITY_AUTO g) (SIMILARITY_ASK g)
                (YEAR_DIFF_AUTO g)) e
  | Ok auto =>
      match int max_str_digits
              (default (JInt 85) (d !! chars "SIMILARITY_THRESHOLD_ASK")) with
      | Raised e =>
          caught (Globals url token words auto (SIMILARITY_ASK g)
                    (YEAR_DIFF_AUTO g)) e
      | Ok ask =>
          match int max_str_digits
                  (default (JInt 1)
                     (d !! chars "YEAR_MATCH_DIFFERENCE_AUTO")) with
          | Raised e =>
              caught (Globals url token words auto ask (YEAR_DIFF_AUTO g)) e
          | Ok year_diff =>
              (Globals url token words auto ask year_diff,
               Ok ((0 <=? auto)%Z && (auto <=? 100)%Z
                   && (0 <=? ask)%Z && (ask <=? 100)%Z
                   && is_list words))
          end
      end
  end.
Proof.
  intros Hu Ht. cbv zeta. run_stmt. rewrite Hu, Ht. cbn.
  destruct (int max_str_digits (default (JInt 100) _)) as [auto|e1];
    [|by destruct e1].
  destruct (int max_str_digits (default (JInt 85) _)) as [ask|e2];
    [|by destruct e2].
  destruct (int max_str_digits (default (JInt 1) _)) as [yd|e3];
    [|by destruct e3].
  cbn.
  destruct ((0 <=? auto)%Z && (auto <=? 100)%Z
            && (0 <=? ask)%Z && (ask <=? 100)%Z); cbn; [|done].
  by destruct (is_list _).
Qed.

(** Without one of the required keys the answer is [False]. *)
Lemma verify_missing (d : gmap str value) (debug : bool) (g : globals) :
  d !! chars "PLEX_BASE_URL" = None \/ d !! chars "PLEX_TOKEN" = None ->
  snd (verify_and_load_config max_str_digits (JDict d) debug g) = Ok false.
Proof.
  run_stmt. destruct (d !! chars "PLEX_BASE_URL") as [url|] eqn:Eu.
  - intros [|Ht]; [done|]. by rewrite Ht.
  - done.
Qed.

Lemma verify_not_dict (config_data : value) (debug : bool) (g : globals) :
  match config_data with JDict _ => False | _ => True end ->
  verify_and_load_config max_str_digits config_data debug g
  = (g, Raised TypeError).
Proof. run_stmt. by destruct config_data. Qed.

Lemma int_raises (x : value) (e : exn) :
  int max_str_digits x = Raised e ->
  e = ValueError \/ e = TypeError \/ e = OverflowError.
Proof.
  destruct x as [|b|z|[q|neg|]|s|l|d]; cbn [int];
    try (intros [= <-]; by auto); try discriminate.
  unfold int_of_str.
    destruct (match strip_c s with
              | [] => (false, strip_c s)
              | c :: r =>
                  if Ascii.eqb c "+" then (false, r)
                  else if Ascii.eqb c "-" then (true, r)
                  else (false, strip_c s)
              end) as [negative digits].
  destruct (unsigned_value digits) as [[v n]|]; [|intros [= <-]; auto].
  destruct (too_many_digits max_str_digits n); [intros [= <-]; auto|].
  discriminate.
Qed.

End SettingsFacts.

(** ** [verify_and_load_config] *)

(** X18.  When [verify_and_load_config] returns [True], the configuration
    is a dictionary with the two required keys, both similarity
    thresholds lie between 0 and 100, and the words to remove are a
    list; the settings hold the values of the dictionary. *)
Theorem verify_accepts_sound (max_str_digits : nat)
    (config_data : Settings.value) (debug_cli_flag : bool)
    (g g' : Settings.globals) :
  Settings.verify_and_load_config max_str_digits config_data debug_cli_flag g
  = (g', Settings.Ok true) ->
  (0 <= Settings.SIMILARITY_AUTO g' <= 100)%Z
  /\ (0 <= Settings.SIMILARITY_ASK g' <= 100)%Z
  /\ Settings.is_list (Settings.WORDS_TO_REMOVE g') = true
  /\ exists d,
       config_data = Settings.JDict d
       /\ d !! chars "PLEX_BASE_URL" = Some (Settings.PLEX_BASE_URL g')
       /\ d !! chars "PLEX_TOKEN" = Some (Settings.PLEX_TOKEN g').
Proof.
  destruct config_data as [|b|z|f|s|l|d];
    try (rewrite verify_not_dict by done; discriminate).
  destruct (d !! chars "PLEX_BASE_URL") as [url|] eqn:Eu.
  2: { intros Hv. pose proof (verify_missing max_str_digits d debug_cli_flag g
                                (or_introl Eu)) as Hm.
       rewrite Hv in Hm. discriminate Hm. }
  destruct (d !! chars "PLEX_TOKEN") as [token|] eqn:Et.
  2: { intros Hv. pose proof (verify_missing max_str_digits d debug_cli_flag g
                                (or_intror Et)) as Hm.
       rewrite Hv in Hm. discriminate Hm. }
  rewrite (verify_run max_str_digits d debug_cli_flag g url token Eu Et).
  cbv zeta.
  destruct (Settings.int _ (default (Settings.JInt 100) _)) as [auto|e1];
    [|by destruct e1].
  destruct (Settings.int _ (default (Settings.JInt 85) _)) as [ask|e2];
    [|by destruct e2].
  destruct (Settings.int _ (default (Settings.JInt 1) _)) as [yd|e3];
    [|by destruct e3].
  intros [= <- Hok]. cbn.
  rewrite !andb_true_iff, !Z.leb_le in Hok.
  repeat split; try lia; try tauto. by exists d.
Qed.

Lemma verify_accepts_sound_witness :
  let g' := fst (Settings.verify_and_load_config 4300
                   (Settings.JDict text_settings) false
                   Settings.initial_globals) in
  (0 <= Settings.SIMILARITY_AUTO g' <= 100)%Z
  /\ (0 <= Settings.SIMILARITY_ASK g' <= 100)%Z
  /\ Settings.is_list (Settings.WORDS_TO_REMOVE g') = true
  /\ exists d',
       Settings.JDict text_settings = Settings.JDict d'
       /\ d' !! chars "PLEX_BASE_URL" = Some (Settings.PLEX_BASE_URL g')
       /\ d' !! chars "PLEX_TOKEN" = Some (Settings.PLEX_TOKEN g').
Proof.
  cbv zeta.
  apply (verify_accepts_sound 4300 (Settings.JDict text_settings) false
           Settings.initial_globals).
  vm_compute. reflexivity.
Defined.

(** X19.  Neither the order of the two thresholds nor the year tolerance is
    checked: a dictionary with the two required keys, thresholds that
    are integers between 0 and 100 and a list of words is accepted
    whatever integer the tolerance is and even when the threshold for
    asking exceeds the one for renaming (a key left out counts with
    its default).  With a negative tolerance the years of no item
    match. *)
Theorem verify_unchecked_settings (max_str_digits : nat)
    (d : gmap str Settings.value) (debug_cli_flag : bool)
    (g : Settings.globals) (url token : Settings.value)
    (words : list Settings.value) (auto ask year_diff : Z) :
  d !! chars "PLEX_BASE_URL" = Some url ->
  d !! chars "PLEX_TOKEN" = Some token ->
  default (Settings.JList (map Settings.JStr default_words_to_remove))
    (d !! chars "WORDS_TO_REMOVE_FROM_FILENAME") = Settings.JList words ->
  default (Settings.JInt 100) (d !! chars "SIMILARITY_THRESHOLD_AUTO")
  = Settings.JInt auto ->
  default (Settings.JInt 85) (d !! chars "SIMILARITY_THRESHOLD_ASK")
  = Settings.JInt ask ->
  default (Settings.JInt 1) (d !! chars "YEAR_MATCH_DIFFERENCE_AUTO")
  = Settings.JInt year_diff ->
  (0 <= auto <= 100)%Z ->
  (0 <= ask <= 100)%Z ->
  Settings.verify_and_load_config max_str_digits (Settings.JDict d)
    debug_cli_flag g
  = (Settings.Globals url token (Settings.JList words) auto ask year_diff,
     Settings.Ok true)
  /\ ((year_diff < 0)%Z ->
      forall (words_to_remove : list str) (info : movie_info),
        year_match (Config words_to_remove auto ask year_diff) info = false).
Proof.
  intros Hu Ht Hw Ha Hk Hy Hra Hrk. split.
  - rewrite (verify_run max_str_digits d debug_cli_flag g url token Hu Ht).
    cbv zeta. rewrite Hw, Ha, Hk, Hy. cbn [Settings.int Settings.is_list].
    repeat f_equal. rewrite !andb_true_r, !andb_true_iff, !Z.leb_le. lia.
  - intros Hneg ws info. unfold year_match.
    destruct (truthy _ && truthy _); [|done].
    destruct (filename_year_val info), (metadata_year_val info); try done.
    cbn [YEAR_DIFF_AUTO]. apply Z.leb_gt. lia.
Qed.

Lemma verify_unchecked_settings_witness :
  Settings.verify_and_load_config 4300 (Settings.JDict loose_settings) false
    Settings.initial_globals
  = (Settings.Globals (Settings.JStr (chars "http://plex:32400"))
       (Settings.JStr (chars "secret"))
       (Settings.JList (map Settings.JStr default_words_to_remove))
       50 90 (-1),
     Settings.Ok true).
Proof.
  apply (proj1 (verify_unchecked_settings 4300 loose_settings false
                  Settings.initial_globals
                  (Settings.JStr (chars "http://plex:32400"))
                  (Settings.JStr (chars "secret"))
                  (map Settings.JStr default_words_to_remove) 50 90 (-1)
                  ltac:(vm_compute; reflexivity) ltac:(vm_compute; reflexivity)
                  ltac:(vm_compute; reflexivity) ltac:(vm_compute; reflexivity)
                  ltac:(vm_compute; reflexivity) ltac:(vm_compute; reflexivity)
                  ltac:(lia) ltac:(lia))).
Defined.

(** X20.  The exceptions of [verify_and_load_config].  A missing required
    key ([KeyError]) and a threshold that is no number ([ValueError])
    give [False]; nothing else is caught.  So the only exceptions
    that leave the function are [TypeError] (the configuration is no
    dictionary, or a threshold is [null], a list or a dictionary) and
    [OverflowError] (a threshold is an infinite float). *)
Theorem verify_exceptions (max_str_digits : nat)
    (config_data : Settings.value) (debug_cli_flag : bool)
    (g : Settings.globals) :
  (forall g' e,
      Settings.verify_and_load_config max_str_digits config_data
        debug_cli_flag g = (g', Settings.Raised e) ->
      e = Settings.TypeError \/ e = Settings.OverflowError)
  /\ (match config_data with Settings.JDict _ => False | _ => True end ->
      Settings.verify_and_load_config max_str_digits config_data
        debug_cli_flag g = (g, Settings.Raised Settings.TypeError))
  /\ (forall d,
        config_data = Settings.JDict d ->
        d !! chars "PLEX_BASE_URL" = None \/ d !! chars "PLEX_TOKEN" = None ->
        snd (Settings.verify_and_load_config max_str_digits config_data
               debug_cli_flag g) = Settings.Ok false)
  /\ (forall d url token,
        config_data = Settings.JDict d ->
        d !! chars "PLEX_BASE_URL" = Some url ->
        d !! chars "PLEX_TOKEN" = Some token ->
        d !! chars "SIMILARITY_THRESHOLD_AUTO" = Some Settings.JNull ->
        snd (Settings.verify_and_load_config max_str_digits config_data
               debug_cli_flag g) = Settings.Raised Settings.TypeError).
Proof.
  split; [|split; [|split]].
  - intros g' e.
    destruct config_data as [|b|z|f|s|l|d];
      try (rewrite verify_not_dict by done; intros [= _ <-]; by left).
    destruct (d !! chars "PLEX_BASE_URL") as [url|] eqn:Eu.
    2: { intros Hv.
         pose proof (verify_missing max_str_digits d debug_cli_flag g
                       (or_introl Eu)) as Hm.
         rewrite Hv in Hm. discriminate Hm. }
    destruct (d !! chars "PLEX_TOKEN") as [token|] eqn:Et.
    2: { intros Hv.
         pose proof (verify_missing max_str_digits d debug_cli_flag g
                       (or_intror Et)) as Hm.
         rewrite Hv in Hm. discriminate Hm. }
    rewrite (verify_run max_str_digits d debug_cli_flag g url token Eu Et).
    cbv zeta.
    destruct (Settings.int _ (default (Settings.JInt 100) _))
      as [auto|e1] eqn:E1.
    2: { apply int_raises in E1. destruct E1 as [->|[->| ->]];
           intros [= _ <-] || discriminate; auto. }
    destruct (Settings.int _ (default (Settings.JInt 85) _))
      as [ask|e2] eqn:E2.
    2: { apply int_raises in E2. destruct E2 as [->|[->| ->]];
           intros [= _ <-] || discriminate; auto. }
    destruct (Settings.int _ (default (Settings.JInt 1) _))
      as [yd|e3] eqn:E3.
    2: { apply int_raises in E3. destruct E3 as [->|[->| ->]];
           intros [= _ <-] || discriminate; auto. }
    discriminate.
  - apply verify_not_dict.
  - intros d -> Hmiss. by apply verify_missing.
  - intros d url token -> Hu Ht Ha.
    rewrite (verify_run max_str_digits d debug_cli_flag g url token Hu Ht).
    cbv zeta. by rewrite Ha.
Qed.

Lemma verify_exceptions_witness :
  Settings.verify_and_load_config 4300 (Settings.JList []) false
    Settings.initial_globals
  = (Settings.initial_globals, Settings.Raised Settings.TypeError).
Proof.
  apply (proj1 (proj2 (verify_exceptions 4300 (Settings.JList []) false
                         Settings.initial_globals))).
  exact I.
Defined.

(** ** The shape of a normalised title *)

Section ShapeFacts.

Lemma no_char_In (c : ascii) (s : str) :
  no_char c s = true <-> ~ In c s.
Proof.
  unfold no_char. rewrite negb_true_iff. split.
  - intros Hn Hin. apply not_true_iff_false in Hn. apply Hn.
    apply existsb_exists. exists c. by rewrite Ascii.eqb_refl.
  - intros Hn. apply not_true_is_false. intros Hex.
    apply existsb_exists in Hex as (x & Hin & ->%Ascii.eqb_eq). done.
Qed.

(** [s.replace(c, new)] leaves no [c] when [new] holds none. *)
Lemma replace_char_gone (c : ascii) (new s : str) :
  no_char c new = true -> no_char c (replace [c] new s) = true.
Proof.
  intros Hnew. unfold replace. induction s as [|x s IH]; [done|].
  cbn [replace_go startswith length Nat.sub].
  destruct (Ascii.eqb_spec c x) as [->|Hne]; cbn [andb].
  - by rewrite no_char_app, Hnew, IH.
  - rewrite no_char_cons, IH.
    destruct (Ascii.eqb_spec c x); [congruence|done].
Qed.

Lemma strip_no_char (c : ascii) (s : str) :
  no_char c s = true -> no_char c (strip s) = true.
Proof.
  rewrite !no_char_In. intros Hn Hin. by apply Hn, strip_In.
Qed.

(** The last two steps of [extract_basename]. *)
Lemma final_cleaning (name : str) :
  let cleaned :=
    strip (sub false re_spaces (chars " ")
             (strip (replace (chars ".") (chars " ") name))) in
  no_char "." cleaned = true
  /\ single_spaced cleaned = true
  /\ strip cleaned = cleaned.
Proof.
  cbv zeta. rewrite sub_spaces. split; [|split].
  - apply strip_no_char. apply no_char_In. intros Hin.
    apply squeeze_In in Hin as [Hin|Hin]; [discriminate Hin|].
    revert Hin. apply no_char_In, strip_no_char.
    by apply (replace_char_gone "." (chars " ")).
  - apply single_spaced_strip, squeeze_single_spaced.
  - apply strip_strip.
Qed.

End ShapeFacts.

(** ** [extract_basename] *)

(** X21.  What [extract_basename] returns is either the whole name without
    its extension (when the cleaning leaves nothing), or a text that
    is not empty, holds no dot, has no whitespace at either end and
    only single blanks inside.  It is empty only when the name
    without its extension is. *)
Theorem extract_basename_shape (words : list str) (file_path : str) :
  let stem := fst (OsPath.splitext (OsPath.basename file_path)) in
  let name := extract_basename words file_path in
  (name = stem
   \/ (name <> [] /\ no_char "." name = true
       /\ single_spaced name = true /\ strip name = name))
  /\ (stem <> [] -> name <> []).
Proof.
  cbv zeta. unfold extract_basename.
  destruct (sub_with false re_paren_group replace_year_in_paren [] _)
    as [years name3].
  match goal with
  | |- context [strip (sub false re_spaces (chars " ")
                         (strip (replace (chars ".") (chars " ") ?n)))] =>
      pose proof (final_cleaning n) as Hc; cbv zeta in Hc;
      destruct (strip (sub false re_spaces (chars " ")
                         (strip (replace (chars ".") (chars " ") n))))
        as [|c cleaned]
  end.
  - split; [by left|done].
  - split; [right; by split|done].
Qed.

Lemma extract_basename_shape_witness :
  extract_basename default_words_to_remove (chars "/m/1999.2001.mkv")
  <> [].
Proof.
  apply (proj2 (extract_basename_shape default_words_to_remove
                  (chars "/m/1999.2001.mkv"))).
  vm_compute. discriminate.
Defined.

(** ** The tag at the end of a new name *)

Section TagFacts.

Lemma lstrip_solid (v : str) : solid v -> lstrip v = v.
Proof.
  intros [Hne Hs]. destruct v as [|c v]; [done|].
  cbn in *. apply andb_true_iff in Hs as [Hc _].
  apply negb_true_iff in Hc. by rewrite Hc.
Qed.

Lemma lstrip_app_solid (x v : str) :
  solid v -> exists y, lstrip (x ++ v) = y ++ v.
Proof.
  intros Hv. induction x as [|c x [y IH]].
  - exists []. by apply lstrip_solid.
  - cbn [app lstrip]. destruct (is_space c); [by exists y|].
    by exists (c :: x).
Qed.

Lemma forallb_rev {A : Type} (f : A -> bool) (l : list A) :
  forallb f (rev l) = forallb f l.
Proof.
  induction l as [|x l IH]; [done|].
  cbn [rev]. rewrite forallb_app, IH. cbn. by rewrite andb_true_r, andb_comm.
Qed.

Lemma rstrip_app_solid (x v : str) : solid v -> rstrip (x ++ v) = x ++ v.
Proof.
  intros [Hne Hs]. unfold rstrip. rewrite rev_app_distr.
  assert (Hrv : solid (rev v)).
  { split; [|by rewrite forallb_rev].
    intros Hr. apply Hne. by rewrite <- (rev_involutive v), Hr. }
  destruct (rev v) as [|c r] eqn:Er; [by destruct Hrv|].
  destruct Hrv as [_ Hc]. cbn in Hc. apply andb_true_iff in Hc as [Hc _].
  apply negb_true_iff in Hc. cbn [app lstrip]. rewrite Hc.
  change (c :: r ++ rev x) with ((c :: r) ++ rev x).
  by rewrite <- Er, <- rev_app_distr, rev_involutive.
Qed.

Lemma strip_app_solid (x v : str) :
  solid v -> exists y, strip (x ++ v) = y ++ v.
Proof.
  intros Hv. unfold strip. destruct (lstrip_app_solid x v Hv) as [y ->].
  exists y. by apply rstrip_app_solid.
Qed.

Lemma squeeze_solid (v : str) (f : bool) :
  forallb (fun c => negb (is_space c)) v = true -> squeeze f v = v.
Proof.
  revert f. induction v as [|c v IH]; intros f; [done|].
  cbn. rewrite andb_true_iff, negb_true_iff. intros [-> Hv].
  by rewrite IH.
Qed.

Lemma squeeze_app_solid (x v : str) (f : bool) :
  forallb (fun c => negb (is_space c)) v = true ->
  squeeze f (x ++ v) = squeeze f x ++ v.
Proof.
  intros Hv. revert f. induction x as [|c x IH]; intros f.
  - by apply squeeze_solid.
  - cbn [app squeeze]. destruct (is_space c); [destruct f|];
      by rewrite IH.
Qed.

(** A tag without whitespace and without illegal characters at the
    end of a text stays there through [strip] and
    [sanitize_filename]. *)
Lemma sanitize_keeps_tag (x v : str) :
  solid v -> forallb (fun c => negb (illegal c)) v = true ->
  exists y, sanitize_filename (strip (x ++ v)) = y ++ v.
Proof.
  intros Hv Hl. destruct (strip_app_solid x v Hv) as [y1 ->].
  unfold sanitize_filename. rewrite sub_illegal, sub_spaces.
  rewrite List.filter_app, (filter_fixed v Hl).
  rewrite squeeze_app_solid by apply Hv.
  by apply strip_app_solid.
Qed.

Lemma digits_solid_legal (ds : str) :
  forallb is_digit ds = true ->
  forallb (fun c => negb (is_space c)) ds = true
  /\ forallb (fun c => negb (illegal c)) ds = true.
Proof.
  induction ds as [|d ds IH]; [done|].
  cbn [forallb]. rewrite andb_true_iff. intros [Hd Hds].
  destruct (IH Hds) as [-> ->]. rewrite !andb_true_r.
  apply digit_cases in Hd. cbn in Hd.
  repeat (destruct Hd as [<-|Hd]; [done|]). done.
Qed.

(** The IMDb identifier of an item [process_movie] returns comes from
    [get_identifiers]. *)
Lemma process_movie_imdb (cfg : config)
    (plex_request : option str -> option metadata_xml) (v : video)
    (info : movie_info) (s : str) :
  process_movie cfg plex_request v = Some info ->
  imdb_id info = Some s ->
  exists ds, s = chars "tt" ++ ds /\ ds <> []
             /\ forallb is_digit ds = true.
Proof.
  unfold process_movie. fold (file_of v). fold (name_of v). cbv zeta.
  assert (Hshape : forall md pi pt,
             get_identifiers md = (pi, pt) -> pi = Some s ->
             exists ds, s = chars "tt" ++ ds /\ ds <> []
                        /\ forallb is_digit ds = true).
  { intros md pi pt Hg ->. destruct (get_identifiers_shaped md) as [Hi _].
    apply Hi. by rewrite Hg. }
  destruct (search true re_tmdb_explicit (name_of v)) as [me|] eqn:E1;
    [|destruct (search true re_tmdb_presence (name_of v)) as [mp|] eqn:E2].
  1, 2: destruct (plex_request (v_ratingKey v)) as [md|];
    [|by intros [= <-]];
    destruct (get_identifiers md) as [pi pt] eqn:Eg;
    destruct (md_video md) as [attrs|]; [|discriminate];
    cbn [mbind option_bind];
    match goal with
    | |- context [negb (usable_id ?x) && negb (usable_id ?y)] =>
        destruct (negb (usable_id x) && negb (usable_id y))
    end; intros [= <-]; cbn [imdb_id]; by eapply Hshape.
  destruct (_ || _); [by intros [= <-]|].
  destruct (plex_request (v_ratingKey v)) as [md|]; [|by intros [= <-]].
  destruct (get_identifiers md) as [pi pt] eqn:Eg.
  destruct (negb (usable_id pi) && negb (usable_id pt));
    [intros [= <-]; cbn [imdb_id]; by eapply Hshape|].
  destruct (md_video md) as [attrs|]; [|discriminate].
  cbn [mbind option_bind].
  destruct (calculate_similarity _ _) as [sim|]; [|discriminate].
  intros [= <-]; cbn [imdb_id]; by eapply Hshape.
Qed.

End TagFacts.

(** ** A renamed file on the next run *)

(** X22.  The name a file gets when its item has an IMDb identifier carries
    the standard tag [{imdb-tt...}] that the already-tagged test
    looks for.  So on a later run the renamed file is skipped as
    already tagged before the server is asked, unless its new name
    holds a TMDb marker. *)
Theorem renamed_file_is_tagged (cfg : config)
    (plex_request : option str -> option metadata_xml) (v : video)
    (info : movie_info) :
  process_movie cfg plex_request v = Some info ->
  imdb_id info <> None ->
  let renamed :=
    Video (Some (new_path (file_path info) (new_name_sanitized info)))
          (v_ratingKey v) in
  is_Some (search false re_imdb_tag (lower (name_of renamed)))
  /\ (has_tmdb_marker (name_of renamed) = false ->
      forall (cfg' : config)
             (plex_request' : option str -> option metadata_xml),
        process_movie cfg' plex_request' renamed =
        Some (MovieInfo (file_of renamed) None None None None
                (extract_basename (WORDS_TO_REMOVE cfg') (file_of renamed))
                true ALREADY_FORMATTED_ID_TAG)).
Proof.
  intros Hp Hid. cbv zeta.
  destruct (imdb_id info) as [s|] eqn:Es; [clear Hid|done].
  destruct (process_movie_imdb cfg plex_request v info s Hp Es)
    as (ds & -> & Hne & Hds).
  assert (Htag : is_Some (search false re_imdb_tag
                   (lower (name_of
                      (Video (Some (new_path (file_path info)
                                      (new_name_sanitized info)))
                             (v_ratingKey v)))))).
  { unfold name_of, file_of. cbn [v_file default from_option id].
    destruct (digits_solid_legal ds Hds) as [Hsolid Hlegal].
    set (tag := chars "{imdb-" ++ (chars "tt" ++ ds) ++ chars "}").
    assert (Hv : solid tag).
    { split; [done|]. unfold tag.
      rewrite !forallb_app, Hsolid. reflexivity. }
    assert (Hl : forallb (fun c => negb (illegal c)) tag = true).
    { unfold tag. rewrite !forallb_app, Hlegal. reflexivity. }
    set (front := fmt (title info) ++ chars " (" ++ fmt (year info)
                  ++ chars ") ").
    assert (Hnew : new_name_sanitized info
                   = sanitize_filename (strip (front ++ tag))).
    { unfold new_name_sanitized, id_for_filename_tag.
      rewrite Es, (usable_imdb ds Hds).
      change (fmt (Some (chars "tt" ++ ds))) with (chars "tt" ++ ds).
      unfold front, tag. by rewrite <- !app_assoc. }
    destruct (sanitize_keeps_tag front tag Hv Hl) as [y Hy].
    rewrite Hnew, Hy.
    assert (Hsep : no_char OsPath.sep (y ++ tag) = true).
    { apply legal_no_sep. rewrite <- Hy. intros c. apply sanitized_In. }
    rewrite (proj2 (new_path_parts (file_path info) (y ++ tag) Hsep)).
    unfold tag.
    replace ((y ++ chars "{imdb-" ++ (chars "tt" ++ ds) ++ chars "}")
             ++ snd (OsPath.splitext (file_path info)))
      with (y ++ chars "{imdb-tt" ++ ds ++ chars "}"
              ++ snd (OsPath.splitext (file_path info)))
      by (by rewrite <- !app_assoc).
    by apply imdb_tag_found. }
  split; [exact Htag|].
  intros Hm cfg' req'. by apply process_movie_tagged.
Qed.

Lemma renamed_file_is_tagged_witness :
  is_Some (search false re_imdb_tag
             (lower (name_of
                (Video (Some (new_path (file_path heat_plain_info)
                                (new_name_sanitized heat_plain_info)))
                       (v_ratingKey heat_plain))))).
Proof.
  apply (renamed_file_is_tagged default_config heat_server heat_plain
           heat_plain_info);
    [vm_compute; reflexivity | discriminate].
Defined.

(** ** The characters [difflib] indexes *)

Section IndexFacts.
Import Difflib.
Variables a b : str.

(** [b2j] lists, for a character, the places where it stands in [b]. *)
Lemma chain_fold_lookup (l : str) :
  forall (n : nat) (m : gmap ascii (list nat)) (x : ascii) (js : list nat),
    snd (fold_left chain_step l (n, m)) !! x = Some js ->
    forall j, In j js ->
      (exists js0, m !! x = Some js0 /\ In j js0)
      \/ (n <= j /\ l !! (j - n)%nat = Some x)%nat.
Proof.
  induction l as [|c l IH]; intros n m x js Hl j Hj.
  - left. by exists js.
  - cbn [fold_left chain_step] in Hl.
    destruct (IH _ _ _ _ Hl j Hj) as [(js0 & Hm & Hin)|[Hn Hx]].
    + destruct (decide (c = x)) as [->|Hne].
      * rewrite lookup_insert_eq in Hm. injection Hm as <-.
        apply in_app_iff in Hin as [Hin|[<-|[]]].
        -- left. destruct (m !! x) as [js1|]; [by exists js1|done].
        -- right. split; [lia|]. by rewrite Nat.sub_diag.
      * rewrite lookup_insert_ne in Hm by done. left. by exists js0.
    + right. split; [lia|].
      replace (j - n)%nat with (S (j - S n)) by lia. done.
Qed.

Lemma b2j_full_lookup (x : ascii) (js : list nat) (j : nat) :
  b2j_full b !! x = Some js -> In j js -> b !! j = Some x.
Proof.
  intros Hl Hj. unfold b2j_full in Hl.
  destruct (chain_fold_lookup b O ∅ x js Hl j Hj)
    as [(js0 & Hm & _)|[_ Hx]]; [done|].
  by rewrite Nat.sub_0_r in Hx.
Qed.

Lemma b2j_lookup (x : ascii) (js : list nat) (j : nat) :
  b2j b !! x = Some js -> In j js -> b !! j = Some x.
Proof.
  unfold b2j. destruct (200 <=? length b)%nat.
  - intros Hl. apply map_lookup_filter_Some in Hl as [Hl _].
    by apply b2j_full_lookup.
  - apply b2j_full_lookup.
Qed.

End IndexFacts.

(** ** Texts that share no character *)

Section Disjoint.
Import Difflib.
Variables a b : str.
Hypothesis Hdisjoint : forall c, In c a -> In c b -> False.

Lemma lookup_In (l : str) (i : nat) (x : ascii) : l !! i = Some x -> In x l.
Proof.
  revert i. induction l as [|y l IH]; intros [|i]; cbn; try done.
  - intros [= ->]. by left.
  - intros Hl. right. by eapply IH.
Qed.

Lemma disjoint_same_elt (i j : nat) : same_elt a b i j = false.
Proof.
  unfold same_elt.
  destruct (a !! i) as [x|] eqn:Ea; [|done].
  destruct (b !! j) as [y|] eqn:Eb; [|done].
  destruct (Ascii.eqb_spec x y) as [->|]; [|done].
  exfalso. eapply Hdisjoint; by eapply lookup_In.
Qed.

Lemma disjoint_row (i : nat) :
  match a !! i with
  | Some elt => default [] (b2j b !! elt)
  | None => []
  end = [].
Proof.
  destruct (a !! i) as [x|] eqn:Ea; [|done].
  destruct (b2j b !! x) as [js|] eqn:Ej; [|done].
  destruct js as [|j js]; [done|]. exfalso.
  apply (Hdisjoint x); [by eapply lookup_In|].
  eapply lookup_In, (b2j_lookup b x (j :: js) j Ej). by left.
Qed.

Lemma disjoint_scan (n : nat) :
  forall i j2len alo blo bhi,
    snd (fold_left (scan_i a b blo bhi) (seq i n) (j2len, (alo, blo, O)))
    = (alo, blo, O).
Proof.
  induction n as [|n IH]; intros i j2len alo blo bhi; [done|].
  cbn [seq fold_left scan_i]. rewrite disjoint_row. cbn [scan_js].
  apply IH.
Qed.

Lemma disjoint_extend_left junk alo blo i j :
  extend_left a b junk alo blo i j O = (i, j, O).
Proof.
  destruct i as [|i]; [done|]. destruct j as [|j]; [done|].
  cbn [extend_left]. by rewrite disjoint_same_elt, andb_false_r.
Qed.

Lemma disjoint_extend_right junk bhi n i j :
  extend_right a b junk bhi n i j O = O.
Proof.
  destruct n as [|n]; [done|].
  cbn [extend_right]. by rewrite disjoint_same_elt, andb_false_r.
Qed.

Lemma disjoint_find alo ahi blo bhi :
  find_longest_match a b alo ahi blo bhi = (alo, blo, O).
Proof.
  unfold find_longest_match.
  pose proof (disjoint_scan (ahi - alo) alo ∅ alo blo bhi) as Hs.
  destruct (fold_left _ _ _) as [j2len best]. cbn [snd] in Hs. subst best.
  rewrite disjoint_extend_left. cbn beta iota.
  rewrite disjoint_extend_right, disjoint_extend_left. cbn beta iota.
  by rewrite disjoint_extend_right.
Qed.

Lemma disjoint_matches : matches a b = Some O.
Proof.
  unfold matches, get_matching_blocks.
  replace (2 * length a + 2)%nat with (S (S (2 * length a))) by lia.
  cbn [blocks_loop last removelast]. rewrite disjoint_find.
  reflexivity.
Qed.

End Disjoint.

(** ** The blocks [difflib] finds are real matches *)

Section Genuine.
Import Difflib.
Variables a b : str.

Lemma genuine_snoc (i j k : nat) :
  genuine a b (i, j, k) -> same_elt a b (i + k) (j + k) = true ->
  genuine a b (i, j, S k).
Proof.
  intros Hg Hs t Ht. destruct (decide (t = k)) as [->|Hne]; [done|].
  apply Hg. lia.
Qed.

Lemma genuine_cons (i j k : nat) :
  genuine a b (S i, S j, k) -> same_elt a b i j = true ->
  genuine a b (i, j, S k).
Proof.
  intros Hg Hs [|t] Ht.
  - by rewrite !Nat.add_0_r.
  - replace (i + S t)%nat with (S i + t)%nat by lia.
    replace (j + S t)%nat with (S j + t)%nat by lia.
    apply Hg. lia.
Qed.

Lemma scan_js_genuine (blo bhi i : nat) (j2len : gmap nat nat)
    (js : list nat) :
  j2len_genuine a b i j2len ->
  (forall j, In j js -> same_elt a b i j = true) ->
  forall newj2len best,
    j2len_genuine a b (S i) newj2len ->
    genuine a b best ->
    j2len_genuine a b (S i)
      (fst (scan_js blo bhi i j2len js newj2len best))
    /\ genuine a b (snd (scan_js blo bhi i j2len js newj2len best)).
Proof.
  intros Hold. induction js as [|j js IH]; intros Hjs new best Hnew Hbest;
    cbn [scan_js]; [done|].
  assert (Hjs' : forall j', In j' js -> same_elt a b i j' = true).
  { intros j' Hin. apply Hjs. by right. }
  destruct (j <? blo)%nat; [by apply IH|].
  destruct (bhi <=? j)%nat; [done|].
  assert (Hk : (S (j2lenget_pred j2len j) <= S i
                /\ S (j2lenget_pred j2len j) <= S j)%nat
               /\ genuine a b (S i - S (j2lenget_pred j2len j),
                               S j - S (j2lenget_pred j2len j),
                               S (j2lenget_pred j2len j))%nat).
  { assert (Hij : same_elt a b i j = true) by (apply Hjs; by left).
    assert (H1 : genuine a b (i, j, 1%nat)).
    { intros t Ht. replace t with O by lia. by rewrite !Nat.add_0_r. }
    destruct j as [|j']; cbn [j2lenget_pred].
    { split; [lia|]. by replace (S i - 1)%nat with i by lia. }
    destruct (j2len !! j') as [k0|] eqn:E; cbn [default from_option id].
    - destruct (Hold _ _ E) as [[Ki Kj] Hg]. split; [lia|].
      replace (S i - S k0)%nat with (i - k0)%nat by lia.
      replace (S (S j') - S k0)%nat with (S j' - k0)%nat by lia.
      apply genuine_snoc; [done|].
      replace (i - k0 + k0)%nat with i by lia.
      by replace (S j' - k0 + k0)%nat with (S j') by lia.
    - split; [lia|].
      replace (S i - 1)%nat with i by lia.
      by replace (S (S j') - 1)%nat with (S j') by lia. }
  apply IH; [done| |].
  - by apply map_Forall_insert_2.
  - destruct best as [[bi bj] bk]. cbn [snd].
    destruct (bk <? _)%nat; [|done]. apply Hk.
Qed.

Lemma row_same_elt (i j : nat) :
  In j match a !! i with
       | Some elt => default [] (b2j b !! elt)
       | None => []
       end ->
  same_elt a b i j = true.
Proof.
  unfold same_elt. destruct (a !! i) as [x|]; [|done].
  destruct (b2j b !! x) as [js|] eqn:E; [|done]. cbn [default from_option id].
  intros Hin. rewrite (b2j_lookup b x js j E Hin). apply Ascii.eqb_refl.
Qed.

Lemma scan_rows_genuine (blo bhi n : nat) :
  forall i j2len best,
    j2len_genuine a b i j2len ->
    genuine a b best ->
    genuine a b
      (snd (fold_left (scan_i a b blo bhi) (seq i n) (j2len, best))).
Proof.
  induction n as [|n IH]; intros i j2len best Hok Hbest; [done|].
  cbn [seq fold_left scan_i].
  destruct (scan_js_genuine blo bhi i j2len _ Hok (row_same_elt i) ∅ best)
    as [Hj Hb]; [apply map_Forall_empty|done|].
  destruct (scan_js blo bhi i j2len _ ∅ best) as [j2len' best'].
  by apply IH.
Qed.

Lemma extend_left_genuine junk alo blo besti :
  forall bestj bestsize,
    genuine a b (besti, bestj, bestsize) ->
    genuine a b (extend_left a b junk alo blo besti bestj bestsize).
Proof.
  induction besti as [|i' IH]; intros bestj bestsize Hg; cbn [extend_left];
    [done|].
  destruct bestj as [|j']; [done|].
  destruct (_ && _ && _ && _) eqn:E; [|done].
  apply IH. apply andb_prop in E as [_ E]. by apply genuine_cons.
Qed.

Lemma extend_right_genuine junk bhi n :
  forall besti bestj bestsize,
    genuine a b (besti, bestj, bestsize) ->
    genuine a b (besti, bestj,
                 extend_right a b junk bhi n besti bestj bestsize).
Proof.
  induction n as [|n IH]; intros besti bestj bestsize Hg;
    cbn [extend_right]; [done|].
  destruct (_ && _ && _) eqn:E; [|done].
  apply IH. apply andb_prop in E as [_ E]. by apply genuine_snoc.
Qed.

Lemma find_longest_match_genuine alo ahi blo bhi :
  genuine a b (find_longest_match a b alo ahi blo bhi).
Proof.
  unfold find_longest_match.
  pose proof (scan_rows_genuine blo bhi (ahi - alo) alo ∅ (alo, blo, O)
                ltac:(apply map_Forall_empty)
                ltac:(intros t Ht; lia)) as H0.
  destruct (fold_left _ _ _) as [j2len [[i0 j0] k0]]. cbn [snd] in H0.
  pose proof (extend_left_genuine false alo blo i0 j0 k0 H0) as H1.
  destruct (extend_left a b false alo blo i0 j0 k0) as [[i1 j1] k1].
  pose proof (extend_right_genuine false bhi (ahi - (i1 + k1)) i1 j1 k1 H1)
    as H2.
  set (k2 := extend_right a b false bhi (ahi - (i1 + k1)) i1 j1 k1) in *.
  pose proof (extend_left_genuine true alo blo i1 j1 k2 H2) as H3.
  destruct (extend_left a b true alo blo i1 j1 k2) as [[i3 j3] k3].
  by apply extend_right_genuine.
Qed.

(** When the blocks found fill the windows of the work list on both
    sides, every window holds the same text on both sides. *)
Lemma blocks_loop_full fuel :
  forall queue acc r,
    Forall window_ok queue ->
    blocks_loop a b fuel queue acc = Some r ->
    total r = (total acc + sum_of width_a queue)%nat ->
    total r = (total acc + sum_of width_b queue)%nat ->
    Forall (same_window a b) queue.
Proof.
  induction fuel as [|fuel IH]; intros queue acc r Hq Hr Ta Tb;
    cbn [blocks_loop] in Hr; [done|].
  destruct (last queue) as [[[[alo ahi] blo] bhi]|] eqn:El.
  2:{ apply last_None in El as ->. constructor. }
  pose proof (queue_pop _ _ El) as Hpop.
  set (rest := removelast queue) in *.
  assert (Hrest : Forall window_ok rest /\ window_ok (alo, ahi, blo, bhi)).
  { rewrite Hpop in Hq. apply Forall_app in Hq as [? Hx].
    split; [done|]. by eapply Forall_inv. }
  destruct Hrest as [Hrest [Ha Hb]].
  pose proof (find_longest_match_ok a b alo ahi blo bhi Ha Hb) as Hw.
  pose proof (find_longest_match_genuine alo ahi blo bhi) as Hg.
  destruct (find_longest_match a b alo ahi blo bhi) as [[i j] k].
  assert (Hsum : sum_of width_a queue = (sum_of width_a rest + (ahi - alo))%nat
               /\ sum_of width_b queue = (sum_of width_b rest + (bhi - blo))%nat).
  { rewrite Hpop, !sum_of_app. simpl. lia. }
  destruct Hsum as [Sa Sb]. rewrite Hpop.
  cbn [in_window] in Hw.
  destruct k as [|k'].
  - destruct (blocks_loop_total a b _ _ _ _ Hrest Hr) as [Ua Ub].
    apply Forall_app. split.
    + apply (IH rest acc r); [done|done|lia|lia].
    + apply Forall_singleton. split; [lia|]. intros t Ht. lia.
  - destruct (pushed_ok alo ahi blo bhi i j (S k') rest Hw Hrest)
      as (Hq' & Ha' & Hb' & _).
    fold (pushed alo ahi blo bhi i j (S k') rest) in Hr.
    destruct (blocks_loop_total a b _ _ _ _ Hq' Hr) as [Ua Ub].
    rewrite total_app in Ua, Ub. cbn [total foldr snd] in Ua, Ub.
    apply IH in Hr; [|exact Hq'|rewrite total_app; cbn [total foldr snd]; lia
                     |rewrite total_app; cbn [total foldr snd]; lia].
    assert (Hfa : (sum_of width_a (pushed alo ahi blo bhi i j (S k') rest)
                   + S k' = sum_of width_a rest + (ahi - alo))%nat) by lia.
    assert (Hfb : (sum_of width_b (pushed alo ahi blo bhi i j (S k') rest)
                   + S k' = sum_of width_b rest + (bhi - blo))%nat) by lia.
    clear Ua Ub Ha' Hb' Ta Tb Sa Sb.
    unfold pushed in Hr, Hfa, Hfb.
    assert (Hleft : Forall (same_window a b) rest
                    /\ same_window a b (alo, i, blo, j)
                    /\ same_window a b ((i + S k')%nat, ahi,
                                        (j + S k')%nat, bhi)).
    { destruct ((alo <? i)%nat && (blo <? j)%nat) eqn:E1;
        destruct ((i + S k' <? ahi)%nat && (j + S k' <? bhi)%nat) eqn:E2;
        rewrite ?sum_of_snoc in Hfa, Hfb; cbn [width_a width_b] in Hfa, Hfb;
        rewrite ?Forall_app, ?Forall_singleton in Hr.
      - destruct Hr as [[H1 H2] H3]. done.
      - split; [apply Hr|]. split; [apply Hr|].
        split; [lia|]. intros t Ht. lia.
      - split; [apply Hr|]. split; [|apply Hr].
        split; [lia|]. intros t Ht. lia.
      - split; [done|]. split; (split; [lia|]); intros t Ht; lia. }
    destruct Hleft as (H1 & [Hl1 Hl2] & [Hr1 Hr2]).
    apply Forall_app. split; [done|]. apply Forall_singleton.
    split; [lia|]. intros t Ht.
    destruct (decide (t < i - alo)%nat) as [Hlt|Hge]; [by apply Hl2|].
    destruct (decide (t < i - alo + S k')%nat) as [Hmid|Hhi].
    + replace (alo + t)%nat with (i + (t - (i - alo)))%nat by lia.
      replace (blo + t)%nat with (j + (t - (i - alo)))%nat by lia.
      apply Hg. lia.
    + replace (alo + t)%nat
        with (i + S k' + (t - (i - alo + S k')))%nat by lia.
      replace (blo + t)%nat
        with (j + S k' + (t - (i - alo + S k')))%nat by lia.
      apply Hr2. lia.
Qed.

End Genuine.

(** The value of [matches]: the sizes of the blocks of the work list. *)
Lemma matches_total (a b : str) :
  exists r,
    Difflib.blocks_loop a b (2 * length a + 2) [(O, length a, O, length b)] []
    = Some r
    /\ Difflib.matches a b = Some (total r).
Proof.
  unfold Difflib.matches, Difflib.get_matching_blocks.
  set (q0 := [(O, length a, O, length b)]).
  assert (Hq0 : Forall window_ok q0).
  { apply Forall_singleton. simpl. lia. }
  destruct (blocks_loop_terminates a b (2 * length a + 2) q0 [] Hq0)
    as [r Hr].
  { simpl. unfold weight. simpl. lia. }
  exists r. split; [done|]. rewrite Hr. cbn [mbind option_bind].
  change (foldr _ O ?l) with (total l).
  rewrite total_app, total_collapse, total_sort_blocks. simpl. f_equal. lia.
Qed.

(** A score of 100 means as many matches as each text is long. *)
Lemma full_score (m la lb : nat) :
  (Difflib.calculate_ratio m (la + lb) * 100 == 100)%Q ->
  (la + lb = 0 \/ 2 * m = la + lb)%nat.
Proof.
  unfold Difflib.calculate_ratio.
  destruct (la + lb)%nat as [|n] eqn:E; [by left|]. intros Hq. right.
  assert (Hpos : ~ (inject_Z (Z.of_nat (S n)) == 0)%Q).
  { unfold Qeq, inject_Z. simpl. lia. }
  assert (H1 : (2 * inject_Z (Z.of_nat m) / inject_Z (Z.of_nat (S n)) == 1)%Q).
  { apply (Qmult_inj_r _ _ 100); [discriminate|]. by rewrite Hq. }
  assert (H2 : (2 * inject_Z (Z.of_nat m) == inject_Z (Z.of_nat (S n)))%Q).
  { rewrite <- (Qmult_div_r (2 * inject_Z (Z.of_nat m))
                  (inject_Z (Z.of_nat (S n))) Hpos).
    rewrite H1. ring. }
  unfold Qeq, Qmult, inject_Z in H2. simpl in H2. lia.
Qed.

Lemma same_text (a b : str) :
  same_window a b (O, length a, O, length b) -> a = b.
Proof.
  intros [Hl Hg]. rewrite !Nat.sub_0_r in *.
  apply list_eq. intros i.
  destruct (decide (i < length a)%nat) as [Hlt|Hge].
  - specialize (Hg i Hlt). cbn in Hg. unfold Difflib.same_elt in Hg.
    destruct (a !! i) as [x|]; [|done].
    destruct (b !! i) as [y|]; [|done].
    by apply Ascii.eqb_eq in Hg as ->.
  - rewrite !(proj2 (lookup_ge_None _ _)); [done|lia|lia].
Qed.

Lemma similarity_full_equal (a b : str) (q : Q) :
  calculate_similarity a b = Some q -> (q == 100)%Q -> a = b.
Proof.
  intros Hs Hq. destruct (matches_total a b) as (r & Hr & Hm).
  unfold calculate_similarity, Difflib.ratio in Hs. rewrite Hm in Hs.
  cbn in Hs. injection Hs as <-.
  assert (Hq0 : Forall window_ok [(O, length a, O, length b)]).
  { apply Forall_singleton. simpl. lia. }
  destruct (blocks_loop_total a b _ _ _ _ Hq0 Hr) as [Ta Tb].
  cbn in Ta, Tb.
  destruct (full_score _ _ _ Hq) as [H0|H2].
  - assert (length a = O /\ length b = O) as [Ea Eb] by lia.
    apply length_zero_iff_nil in Ea, Eb. by subst.
  - apply same_text.
    eapply Forall_inv, (blocks_loop_full a b _ _ _ _ Hq0 Hr); cbn; lia.
Qed.

(** ** The index [b2j] *)

Section Positions.
Import Difflib.

Lemma positions_In (x : ascii) (l : str) :
  forall n j,
    In j (positions x l n) <-> (n <= j)%nat /\ l !! (j - n)%nat = Some x.
Proof.
  induction l as [|c l IH]; intros n j; cbn [positions].
  - split; [done|]. by intros [_ Hl].
  - assert (Hcons : (n < j)%nat ->
                    (c :: l) !! (j - n)%nat = l !! (j - S n)%nat).
    { intros Hlt. by replace (j - n)%nat with (S (j - S n)) by lia. }
    destruct (Ascii.eqb_spec c x) as [->|Hne].
    + cbn [In]. rewrite IH. split.
      * intros [<-|[Hn Hl]].
        -- split; [lia|]. by rewrite Nat.sub_diag.
        -- split; [lia|]. by rewrite Hcons by lia.
      * intros [Hn Hl]. destruct (decide (j = n)) as [->|Hjn]; [by left|].
        right. split; [lia|]. by rewrite Hcons in Hl by lia.
    + rewrite IH. split.
      * intros [Hn Hl]. split; [lia|]. by rewrite Hcons by lia.
      * intros [Hn Hl]. destruct (decide (j = n)) as [->|Hjn].
        -- rewrite Nat.sub_diag in Hl. cbn in Hl. congruence.
        -- split; [lia|]. by rewrite Hcons in Hl by lia.
Qed.

Lemma ascending_weaken (l : list nat) (lo lo' : nat) :
  (lo' <= lo)%nat -> ascending lo l -> ascending lo' l.
Proof. destruct l as [|j l]; [done|]. cbn. intros ? [? ?]. split; [lia|done]. Qed.

Lemma ascending_In (l : list nat) :
  forall lo j, ascending lo l -> In j l -> (lo <= j)%nat.
Proof.
  induction l as [|j' l IH]; intros lo j; cbn; [done|].
  intros [Hlo Hl] [->|Hin]; [done|]. specialize (IH _ _ Hl Hin). lia.
Qed.

Lemma positions_ascending (x : ascii) (l : str) :
  forall n, ascending n (positions x l n).
Proof.
  induction l as [|c l IH]; intros n; cbn [positions]; [done|].
  destruct (Ascii.eqb c x).
  - cbn. split; [lia|apply IH].
  - apply (ascending_weaken _ (S n)); [lia|apply IH].
Qed.

Lemma chain_fold_positions (l : str) :
  forall (n : nat) (m : gmap ascii (list nat)) (x : ascii),
    snd (fold_left chain_step l (n, m)) !! x
    = match positions x l n with
      | [] => m !! x
      | ps => Some (default [] (m !! x) ++ ps)
      end.
Proof.
  induction l as [|c l IH]; intros n m x; [done|].
  cbn [fold_left chain_step positions]. rewrite IH.
  destruct (Ascii.eqb_spec c x) as [->|Hne].
  - rewrite lookup_insert_eq. cbn [default from_option id].
    destruct (positions x l (S n)) as [|p ps]; [done|].
    by rewrite <- app_assoc.
  - by rewrite lookup_insert_ne.
Qed.

(** An entry of [b2j] lists all the places of its element. *)
Lemma b2j_positions (b : str) (x : ascii) (js : list nat) :
  b2j b !! x = Some js -> js = positions x b O.
Proof.
  assert (Hfull : b2j_full b !! x = Some js -> js = positions x b O).
  { unfold b2j_full. rewrite chain_fold_positions, lookup_empty.
    destruct (positions x b O) as [|p ps]; [done|].
    cbn [default from_option id app]. by intros [= <-]. }
  unfold b2j. destruct (200 <=? length b)%nat; [|exact Hfull].
  intros Hl. apply map_lookup_filter_Some in Hl as [Hl _]. by apply Hfull.
Qed.

End Positions.

(** ** A text against itself *)

Section Self.
Import Difflib.
Variable s : str.

Lemma run_before_le (j : nat) : (run_before s j <= j)%nat.
Proof.
  induction j as [|j IH]; cbn [run_before]; [done|].
  destruct (indexed_at s j); lia.
Qed.

Lemma j2lenget_pred_diag (i j : nat) (j2len : gmap nat nat) :
  diag_rows s i j2len ->
  (j2lenget_pred j2len j <= run_before s j
   /\ j2lenget_pred j2len j <= run_before s i)%nat.
Proof.
  intros [Hall _]. destruct j as [|j']; cbn [j2lenget_pred]; [lia|].
  destruct (j2len !! j') as [k0|] eqn:E; cbn [default from_option id]; [|lia].
  exact (Hall _ _ E).
Qed.

Lemma scan_js_diag (i : nat) (x : ascii) (js0 : list nat)
    (j2len : gmap nat nat) :
  (i < length s)%nat -> s !! i = Some x -> b2j s !! x = Some js0 ->
  diag_rows s i j2len ->
  forall js lo newj2len best,
    ascending lo js ->
    (forall j, In j js -> s !! j = Some x) ->
    map_Forall (fun j k => (k <= run_before s (S j)
                            /\ k <= run_before s (S i))%nat) newj2len ->
    diag_best s i best ->
    (In i js
     \/ (newj2len !! i = Some (run_before s (S i))
         /\ run_before s (S i) <= snd best)%nat) ->
    diag_rows s (S i)
      (fst (scan_js 0 (length s) i j2len js newj2len best))
    /\ diag_best s (S i)
         (snd (scan_js 0 (length s) i j2len js newj2len best)).
Proof.
  intros Hi Hx Hjs0 Hold.
  assert (Hrun : forall j, s !! j = Some x ->
                           run_before s (S j) = S (run_before s j)).
  { intros j Hj. cbn [run_before]. unfold indexed_at. by rewrite Hj, Hjs0. }
  induction js as [|j js IH]; intros lo new [[bi bj] bk] Hasc Hjs Hnew
    (Hd & Hlen & Hbk) HD; cbn [scan_js fst snd] in *.
  - destruct HD as [[]|[Hni Hle]].
    split; [split; [done|]|split; [done|split; [done|]]].
    + cbn [j2lenget_pred]. by rewrite Hni.
    + intros i' Hi'. destruct (decide (i' = S i)) as [->|Hne]; [done|].
      apply Hbk. lia.
  - destruct Hasc as [Hlo Hasc].
    assert (Hj : s !! j = Some x) by (apply Hjs; by left).
    assert (Hjn : (j < length s)%nat) by (by eapply lookup_lt_Some).
    rewrite (proj2 (Nat.ltb_ge j 0)) by lia.
    rewrite (proj2 (Nat.leb_gt (length s) j) Hjn).
    destruct (j2lenget_pred_diag i j j2len Hold) as [Kj Ki].
    pose proof (Hrun j Hj) as Rj. pose proof (Hrun i Hx) as Ri.
    assert (Hjs' : forall j', In j' js -> s !! j' = Some x).
    { intros j' Hin. apply Hjs. by right. }
    assert (Hnew' : map_Forall
                      (fun j k => (k <= run_before s (S j)
                                   /\ k <= run_before s (S i))%nat)
                      (<[j := S (j2lenget_pred j2len j)]> new)).
    { apply map_Forall_insert_2; [lia|done]. }
    destruct (lt_eq_lt_dec j i) as [[Hlt| ->]|Hgt].
    + assert (Hno : (bk <? S (j2lenget_pred j2len j))%nat = false).
      { apply Nat.ltb_ge. specialize (Hbk (S j) ltac:(lia)). lia. }
      rewrite Hno. apply (IH (S j)); [done|done|done|done|].
      destruct HD as [[->|Hin]|[Hni Hle]]; [lia|by left|right].
      split; [|done]. rewrite lookup_insert_ne by lia. done.
    + destruct Hold as [_ Hdiag].
      apply (IH (S i)); [done|done|done| |].
      * destruct (bk <? S (j2lenget_pred j2len i))%nat eqn:E; [|done].
        apply Nat.ltb_lt in E. pose proof (run_before_le (S i)).
        repeat split; [lia|].
        intros i' Hi'. specialize (Hbk i' Hi'). lia.
      * right. rewrite lookup_insert_eq. split; [f_equal; lia|].
        destruct (bk <? S (j2lenget_pred j2len i))%nat eqn:E; cbn [snd].
        -- lia.
        -- apply Nat.ltb_ge in E. lia.
    + assert (HD' : new !! i = Some (run_before s (S i))
                    /\ (run_before s (S i) <= bk)%nat).
      { destruct HD as [[->|Hin]|HD]; [lia| |done].
        pose proof (ascending_In _ _ _ Hasc Hin). lia. }
      destruct HD' as [Hni Hle].
      assert (Hno : (bk <? S (j2lenget_pred j2len j))%nat = false).
      { apply Nat.ltb_ge. lia. }
      rewrite Hno. apply (IH (S j)); [done|done|done|done|].
      right. split; [|done]. rewrite lookup_insert_ne by lia. done.
Qed.

Lemma scan_i_diag (i : nat) (j2len : gmap nat nat) (best : nat * nat * nat) :
  (i < length s)%nat -> diag_rows s i j2len -> diag_best s i best ->
  diag_rows s (S i) (fst (scan_i s s 0 (length s) (j2len, best) i))
  /\ diag_best s (S i) (snd (scan_i s s 0 (length s) (j2len, best) i)).
Proof.
  intros Hi Hold Hbest. cbn [scan_i].
  destruct (lookup_lt_is_Some_2 s i Hi) as [x Hx]. rewrite Hx.
  destruct (b2j s !! x) as [js0|] eqn:Ej; cbn [default from_option id].
  - pose proof (b2j_positions s x js0 Ej) as ->.
    apply (scan_js_diag i x _ j2len Hi Hx Ej Hold _ O).
    + apply positions_ascending.
    + intros j Hin. apply positions_In in Hin as [_ Hl].
      by rewrite Nat.sub_0_r in Hl.
    + apply map_Forall_empty.
    + done.
    + left. apply positions_In. split; [lia|]. by rewrite Nat.sub_0_r.
  - cbn [scan_js fst snd].
    assert (Hrun : run_before s (S i) = O).
    { cbn [run_before]. unfold indexed_at. by rewrite Hx, Ej. }
    destruct best as [[bi bj] bk]. destruct Hbest as (Hd & Hlen & Hbk).
    split; [split; [apply map_Forall_empty|by rewrite Hrun]|].
    split; [done|split; [done|]].
    intros i' Hi'. destruct (decide (i' = S i)) as [->|Hne]; [lia|].
    apply Hbk. lia.
Qed.

Lemma scan_rows_diag (n : nat) :
  forall i j2len best,
    (i + n <= length s)%nat -> diag_rows s i j2len -> diag_best s i best ->
    diag_best s (i + n)
      (snd (fold_left (scan_i s s 0 (length s)) (seq i n) (j2len, best))).
Proof.
  induction n as [|n IH]; intros i j2len best Hn Hrows Hbest.
  - by rewrite Nat.add_0_r.
  - cbn [seq fold_left].
    destruct (scan_i_diag i j2len best ltac:(lia) Hrows Hbest) as [Hr Hb].
    destruct (scan_i s s 0 (length s) (j2len, best) i) as [j2len' best'].
    replace (i + S n)%nat with (S i + n)%nat by lia.
    apply IH; [lia|done|done].
Qed.

Lemma junk_at_never (b : str) (j : nat) : junk_at b j = false.
Proof.
  unfold junk_at, isbjunk, bjunk. destruct (b !! j); [|done].
  apply bool_decide_eq_false. set_solver.
Qed.

Lemma same_elt_self (i : nat) :
  (i < length s)%nat -> same_elt s s i i = true.
Proof.
  intros Hi. unfold same_elt.
  destruct (lookup_lt_is_Some_2 s i Hi) as [x ->]. apply Ascii.eqb_refl.
Qed.

Lemma extend_left_self (bi : nat) :
  forall bk, (bi <= length s)%nat ->
             extend_left s s false 0 0 bi bi bk = (O, O, (bi + bk)%nat).
Proof.
  induction bi as [|i' IH]; intros bk Hle; [done|].
  cbn [extend_left]. rewrite junk_at_never, same_elt_self by lia.
  cbn. rewrite IH by lia. do 2 f_equal. lia.
Qed.

Lemma extend_right_self (room : nat) :
  forall k, (k + room <= length s)%nat ->
            extend_right s s false (length s) room 0 0 k = (k + room)%nat.
Proof.
  induction room as [|room IH]; intros k Hle; cbn [extend_right]; [lia|].
  rewrite junk_at_never. cbn [Nat.add].
  rewrite same_elt_self by lia.
  rewrite (proj2 (Nat.ltb_lt k (length s))) by lia.
  cbn [andb Bool.eqb]. rewrite IH by lia. lia.
Qed.

(** The longest block of a text against itself is the whole text. *)
Lemma find_longest_match_self :
  find_longest_match s s 0 (length s) 0 (length s) = (O, O, length s).
Proof.
  unfold find_longest_match.
  pose proof (scan_rows_diag (length s - 0) O ∅ (O, O, O) ltac:(lia)) as Hb.
  destruct (fold_left _ _ _) as [j2len [[bi bj] bk]].
  destruct Hb as (<- & Hlen & _).
  { split; [apply map_Forall_empty|done]. }
  { repeat split; [lia|]. intros i' Hi'. by replace i' with O by lia. }
  cbn [snd] in *. rewrite extend_left_self by lia. cbn beta iota.
  rewrite extend_right_self by lia.
  replace (bi + bk + (length s - (0 + (bi + bk))))%nat with (length s) by lia.
  cbn [extend_left]. replace (length s - (0 + length s))%nat with O by lia.
  done.
Qed.

Lemma matches_self : matches s s = Some (length s).
Proof.
  destruct (matches_total s s) as (r & Hr & ->). f_equal.
  replace (2 * length s + 2)%nat with (S (S (2 * length s))) in Hr by lia.
  cbn [blocks_loop last removelast] in Hr.
  rewrite find_longest_match_self in Hr.
  destruct (length s) as [|n] eqn:E.
  - by injection Hr as <-.
  - rewrite Nat.ltb_irrefl in Hr. cbn [andb] in Hr.
    replace (0 + S n <? S n)%nat with false in Hr
      by (symmetry; apply Nat.ltb_irrefl).
    cbn in Hr. injection Hr as <-. cbn. lia.
Qed.

Lemma similarity_self :
  exists q, calculate_similarity s s = Some q /\ (q == 100)%Q.
Proof.
  unfold calculate_similarity, ratio. rewrite matches_self.
  eexists. split; [reflexivity|].
  unfold calculate_ratio.
  destruct (length s + length s)%nat as [|n] eqn:E; [reflexivity|].
  assert (Hpos : ~ (inject_Z (Z.of_nat (S n)) == 0)%Q).
  { unfold Qeq, inject_Z. simpl. lia. }
  assert (H2 : (2 * inject_Z (Z.of_nat (length s))
                == inject_Z (Z.of_nat (S n)))%Q).
  { unfold Qeq, Qmult, inject_Z. simpl. lia. }
  rewrite H2. unfold Qdiv. rewrite Qmult_inv_r by done. reflexivity.
Qed.

End Self.

(** ** The two ends of the score *)

(** X23.  The score of two texts is 100 exactly when they are the same
    text: a text scores 100 against itself, whatever its length and
    its popular characters, and against nothing else. *)
Theorem calculate_similarity_exact (a b : str) :
  exists q, calculate_similarity a b = Some q /\ ((q == 100)%Q <-> a = b).
Proof.
  destruct (calculate_similarity_defined a b) as [q Hq].
  exists q. split; [done|]. split.
  - by apply similarity_full_equal.
  - intros <-. destruct (similarity_self a) as (q' & Hq' & H100).
    congruence.
Qed.

(** X24.  Two texts without a character in common score 0, unless both are
    empty: they are then the same text and score 100. *)
Theorem calculate_similarity_disjoint (a b : str) :
  (forall c, In c a -> In c b -> False) ->
  exists q,
    calculate_similarity a b = Some q
    /\ (q == match a ++ b with [] => 100 | _ => 0 end)%Q.
Proof.
  intros Hd. unfold calculate_similarity, Difflib.ratio.
  rewrite (disjoint_matches a b Hd). eexists. split; [reflexivity|].
  unfold Difflib.calculate_ratio. rewrite <- length_app.
  destruct (a ++ b) as [|c l]; reflexivity.
Qed.

Lemma calculate_similarity_disjoint_witness :
  exists q,
    calculate_similarity (chars "up") (chars "heat") = Some q /\ (q == 0)%Q.
Proof.
  apply (calculate_similarity_disjoint (chars "up") (chars "heat")).
  intros c [<-|[<-|[]]] Hin; vm_compute in Hin; intuition discriminate.
Defined.

(** ** The default threshold for the automatic rename *)

Lemma similarity_at_most_100 (a b : str) (q : Q) :
  calculate_similarity a b = Some q -> (q <= 100)%Q.
Proof.
  destruct (matches_bound a b) as (m & Hm & Hle).
  unfold calculate_similarity, Difflib.ratio. rewrite Hm. cbn.
  intros [= <-].
  destruct (calculate_ratio_range m (length a + length b) Hle) as [_ H1].
  apply Qle_trans with (1 * 100)%Q; [|discriminate].
  apply Qmult_le_compat_r; [exact H1|discriminate].
Qed.

(** X25.  With the threshold for the automatic rename at 100, its default,
    an item that reached the comparison is renamed without a question
    exactly when the cleaned file name and the title are the same text
    but for the case of the letters, the years match, and the title has
    two words or more or both have one word. *)
Theorem auto_rename_same_title (cfg : config)
    (plex_request : option str -> option metadata_xml) (v : video)
    (info : movie_info) (q : Q) :
  SIMILARITY_AUTO cfg = 100%Z ->
  process_movie cfg plex_request v = Some info ->
  status_or_similarity info = Similarity q ->
  exists t,
    title info = Some t
    /\ (decide_item cfg info = Some (AUTO_RENAME (new_name_sanitized info))
        <-> lower (base_name_from_file info) = lower t
            /\ year_match cfg info = true
            /\ ((2 <= length (split t))%nat
                \/ (length (split t) = 1%nat
                    /\ length (split (base_name_from_file info)) = 1%nat))).
Proof.
  intros Hcfg Hp Hst.
  destruct (process_movie_similarity cfg plex_request v info q Hp Hst)
    as (Hskip & [t Ht] & _ & Hid & _ & _ & Hq).
  destruct (tag_nonempty info Hid) as (c & s & Htag).
  exists t. split; [done|].
  rewrite Ht in Hq. cbn [default from_option id] in Hq.
  assert (Hreach : Qle_bool (inject_Z (SIMILARITY_AUTO cfg)) q = true
                   <-> lower (base_name_from_file info) = lower t).
  { rewrite Hcfg, Qle_bool_iff. split.
    - intros Hle. apply (similarity_full_equal _ _ q Hq).
      apply Qle_antisym; [by eapply similarity_at_most_100|exact Hle].
    - intros Heq. rewrite Heq in Hq.
      destruct (similarity_self (lower t)) as (q' & Hq' & H100).
      assert (q = q') as -> by congruence. rewrite H100. apply Qle_refl. }
  unfold decide_item, auto_by_similarity.
  rewrite Hskip, Hst, Htag, Ht. cbn [mbind option_bind].
  rewrite <- Hreach.
  destruct (Qle_bool (inject_Z (SIMILARITY_AUTO cfg)) q),
    (year_match cfg info); cbn [andb].
  2-4: destruct (negb _); (split; [discriminate|intros (? & ? & ?); done]).
  destruct (2 <=? length (split t))%nat eqn:E2.
  { apply Nat.leb_le in E2. split; [by auto|done]. }
  apply Nat.leb_gt in E2.
  destruct ((length (split t) =? 1)%nat
            && (length (split (base_name_from_file info)) =? 1)%nat) eqn:E1.
  - apply andb_true_iff in E1 as [Ea Eb].
    apply Nat.eqb_eq in Ea, Eb. split; [by auto|done].
  - destruct (negb _); (split; [discriminate|]);
      intros (_ & _ & [Hc|[Ha Hb]]); try lia;
      rewrite Ha, Hb in E1; discriminate.
Qed.

Lemma auto_rename_same_title_witness :
  title heat_plain_info = Some (chars "Heat")
  /\ decide_item default_config heat_plain_info
     = Some (AUTO_RENAME (new_name_sanitized heat_plain_info)).
Proof.
  destruct (auto_rename_same_title default_config heat_server heat_plain
              heat_plain_info (800 # 8))
    as (t & Ht & Hauto);
    [reflexivity | vm_compute; reflexivity | reflexivity |].
  split; [reflexivity|]. apply Hauto.
  injection Ht as <-.
  split; [vm_compute; reflexivity|].
  split; [vm_compute; reflexivity|].
  right. split; vm_compute; reflexivity.
Defined.
